(** * The vLLM model worker of square-core: request lifecycle and wire framing

    A shallow embedding of [llm-ops/llm_ops/app/vllm_worker.py]: the
    parameter normalisation and unit encoding of [VLLMWorker.generate_stream],
    [VLLMWorker.generate], the semaphore helpers and the two generation
    endpoints [api_generate] and [api_generate_stream].

    Python values are modelled as the interpreter has them: a [str] is a
    sequence of Unicode code points, [bytes] a sequence of bytes, a float an
    IEEE 754 binary64 value ([spec_float]), the dict of request parameters
    a finite map from keys to values, a dict inside it the list of its
    items in insertion order, the set of stop values a list without two
    equal members.
    Coroutines are modelled as finite trees of effects whose suspension
    points carry what runs when the task is cancelled there. *)

From Stdlib Require Import ZArith NArith List Bool Lia.
From Stdlib Require Import Strings.String Strings.Ascii.
From Stdlib.Strings Require Import Byte.
From Stdlib Require Import Numbers.DecimalString.
From Stdlib Require Import Floats.SpecFloat.
From stdpp Require Import gmap strings list.

Set Warnings "-register-all".

(** ** Python strings and bytes *)

(** A Python [str]: its code points, each below [0x110000]. *)
Abbreviation str := (list N).

(** A Python [bytes] object. *)
Abbreviation bytes := (list byte).

(** A string literal of the source, as a [str]. *)
Definition lit (s : string) : str :=
  map N_of_ascii (list_ascii_of_string s).

Definition valid_code_point (c : N) : Prop := (c < 0x110000)%N.

Definition is_high_surrogate (c : N) : bool := ((0xd800 <=? c) && (c <=? 0xdbff))%N.
Definition is_low_surrogate (c : N) : bool := ((0xdc00 <=? c) && (c <=? 0xdfff))%N.
Definition is_surrogate (c : N) : bool := ((0xd800 <=? c) && (c <=? 0xdfff))%N.

(** [sep.join(parts)] *)
Fixpoint join (sep : str) (parts : list str) : str :=
  match parts with
  | [] => []
  | [p] => p
  | p :: rest => p ++ sep ++ join sep rest
  end.

(** *** UTF-8, the codec of [str.encode()] and [bytes.decode()] *)

Definition byte_of_N (n : N) : byte :=
  match Byte.of_N n with Some b => b | None => x00 end.

(** The UTF-8 bytes of one code point; [None] where Python raises
    [UnicodeEncodeError] (a surrogate). *)
Definition utf8_encode_char (c : N) : option bytes :=
  (if c <? 0x80 then Some [byte_of_N c]
   else if c <? 0x800 then
     Some [byte_of_N (N.lor 0xc0 (N.shiftr c 6));
           byte_of_N (N.lor 0x80 (N.land c 0x3f))]
   else if is_surrogate c then None
   else if c <? 0x10000 then
     Some [byte_of_N (N.lor 0xe0 (N.shiftr c 12));
           byte_of_N (N.lor 0x80 (N.land (N.shiftr c 6) 0x3f));
           byte_of_N (N.lor 0x80 (N.land c 0x3f))]
   else if c <? 0x110000 then
     Some [byte_of_N (N.lor 0xf0 (N.shiftr c 18));
           byte_of_N (N.lor 0x80 (N.land (N.shiftr c 12) 0x3f));
           byte_of_N (N.lor 0x80 (N.land (N.shiftr c 6) 0x3f));
           byte_of_N (N.lor 0x80 (N.land c 0x3f))]
   else None)%N.

(** [s.encode()] *)
Fixpoint str_encode (s : str) : option bytes :=
  match s with
  | [] => Some []
  | c :: rest =>
      match utf8_encode_char c, str_encode rest with
      | Some b, Some bs => Some (b ++ bs)
      | _, _ => None
      end
  end.

Definition is_continuation (b : N) : bool := (N.land b 0xc0 =? 0x80)%N.

Definition prepend (c : N) (r : option str) : option str :=
  match r with Some s => Some (c :: s) | None => None end.

(** [b.decode()], strict: [None] where Python raises [UnicodeDecodeError]
    (stray continuation byte, truncated or overlong sequence, encoded
    surrogate, code point above [0x10ffff]). *)
Fixpoint bytes_decode (b : bytes) : option str :=
  match b with
  | [] => Some []
  | b0 :: r0 =>
      let n0 := Byte.to_N b0 in
      (if n0 <? 0x80 then prepend n0 (bytes_decode r0)
       else if n0 <? 0xc2 then None
       else if n0 <? 0xe0 then
         match r0 with
         | b1 :: r1 =>
             let n1 := Byte.to_N b1 in
             if is_continuation n1
             then prepend (N.lor (N.shiftl (N.land n0 0x1f) 6) (N.land n1 0x3f))
                          (bytes_decode r1)
             else None
         | _ => None
         end
       else if n0 <? 0xf0 then
         match r0 with
         | b1 :: b2 :: r2 =>
             let n1 := Byte.to_N b1 in
             let n2 := Byte.to_N b2 in
             let c := N.lor (N.shiftl (N.land n0 0x0f) 12)
                        (N.lor (N.shiftl (N.land n1 0x3f) 6) (N.land n2 0x3f)) in
             if is_continuation n1 && is_continuation n2
                && (0x800 <=? c) && negb (is_surrogate c)
             then prepend c (bytes_decode r2)
             else None
         | _ => None
         end
       else if n0 <? 0xf5 then
         match r0 with
         | b1 :: b2 :: b3 :: r3 =>
             let n1 := Byte.to_N b1 in
             let n2 := Byte.to_N b2 in
             let n3 := Byte.to_N b3 in
             let c := N.lor (N.shiftl (N.land n0 0x07) 18)
                        (N.lor (N.shiftl (N.land n1 0x3f) 12)
                           (N.lor (N.shiftl (N.land n2 0x3f) 6) (N.land n3 0x3f))) in
             if is_continuation n1 && is_continuation n2 && is_continuation n3
                && (0x10000 <=? c) && (c <? 0x110000)
             then prepend c (bytes_decode r3)
             else None
         | _ => None
         end
       else None)%N
  end.

(** ** JSON, as [json.dumps] and [json.loads] treat the worker's units *)

(** The Python values that occur in a unit: a dict (in insertion order), a
    string, an integer. *)
Inductive json : Type :=
| JInt (z : Z)
| JStr (s : str)
| JObj (members : list (str * json)).

(** *** [json.dumps] with its defaults ([ensure_ascii=True], separators
    [", "] and [": "]) *)

Definition hex_digit (n : N) : N :=
  (if n <? 10 then 48 + n else 87 + n)%N.

(** ['{0:04x}'.format(n)] *)
Definition hex4 (n : N) : str :=
  [hex_digit (n / 4096 mod 16); hex_digit (n / 256 mod 16);
   hex_digit (n / 16 mod 16); hex_digit (n mod 16)]%N.

Definition u_escape (n : N) : str := 92%N :: 117%N :: hex4 n.

(** The replacement of one character by [encode_basestring_ascii]: the
    table [ESCAPE_DCT] for the quote, the backslash and the five short
    control escapes, the character itself from the space to the tilde, and a
    [\uXXXX] escape (a surrogate pair above the basic plane) otherwise. *)
Definition escape_char (c : N) : str :=
  (if c =? 34 then [92; 34]
   else if c =? 92 then [92; 92]
   else if c =? 10 then [92; 110]
   else if c =? 13 then [92; 114]
   else if c =? 9 then [92; 116]
   else if c =? 12 then [92; 102]
   else if c =? 8 then [92; 98]
   else if (32 <=? c) && (c <=? 126) then [c]
   else if c <? 0x10000 then u_escape c
   else
     let n := c - 0x10000 in
     u_escape (N.lor 0xd800 (N.land (N.shiftr n 10) 0x3ff))
       ++ u_escape (N.lor 0xdc00 (N.land n 0x3ff)))%N.

Definition escape (s : str) : str := flat_map escape_char s.

Definition encode_basestring_ascii (s : str) : str :=
  34%N :: escape s ++ [34%N].

(** [repr] of a Python int. *)
Definition int_repr (z : Z) : str :=
  lit (NilZero.string_of_int (Z.to_int z)).

Fixpoint json_dumps (v : json) : str :=
  match v with
  | JInt z => int_repr z
  | JStr s => encode_basestring_ascii s
  | JObj members =>
      let item (kv : str * json) : str :=
        encode_basestring_ascii (fst kv) ++ lit ": " ++ json_dumps (snd kv) in
      lit "{" ++ join (lit ", ") (map item members) ++ lit "}"
  end.

(** *** [json.dumps] with [ensure_ascii=False] and the separators [","]
    and [":"], as [JSONResponse] calls it *)

(** The replacement of one character by [encode_basestring]: the table
    [ESCAPE_DCT] for the quote, the backslash and the control characters
    below the space, and the character itself otherwise. *)
Definition escape_char_raw (c : N) : str :=
  (if c =? 34 then [92; 34]
   else if c =? 92 then [92; 92]
   else if c =? 10 then [92; 110]
   else if c =? 13 then [92; 114]
   else if c =? 9 then [92; 116]
   else if c =? 12 then [92; 102]
   else if c =? 8 then [92; 98]
   else if c <? 32 then u_escape c
   else [c])%N.

Definition encode_basestring (s : str) : str :=
  34%N :: flat_map escape_char_raw s ++ [34%N].

Fixpoint json_dumps_compact (v : json) : str :=
  match v with
  | JInt z => int_repr z
  | JStr s => encode_basestring s
  | JObj members =>
      let item (kv : str * json) : str :=
        encode_basestring (fst kv) ++ lit ":" ++ json_dumps_compact (snd kv) in
      lit "{" ++ join (lit ",") (map item members) ++ lit "}"
  end.

(** *** [json.loads], on the grammar of the values above *)

Definition is_whitespace (c : N) : bool :=
  ((c =? 32) || (c =? 9) || (c =? 10) || (c =? 13))%N.

Fixpoint skip_whitespace (s : str) : str :=
  match s with
  | c :: rest => if is_whitespace c then skip_whitespace rest else s
  | [] => []
  end.

(** The value of a hexadecimal digit, in either case. *)
Definition hex_value (c : N) : option N :=
  (if (48 <=? c) && (c <=? 57) then Some (c - 48)
   else if (97 <=? c) && (c <=? 102) then Some (c - 87)
   else if (65 <=? c) && (c <=? 70) then Some (c - 55)
   else None)%N.

(** The four hexadecimal digits of a [\uXXXX] escape. *)
Definition decode_uXXXX (a b c d : N) : option N :=
  match hex_value a, hex_value b, hex_value c, hex_value d with
  | Some x, Some y, Some z, Some w => Some (x * 4096 + y * 256 + z * 16 + w)%N
  | _, _, _, _ => None
  end.

(** The table [BACKSLASH] of the short escapes. *)
Definition unescape (e : N) : option N :=
  (if e =? 34 then Some 34
   else if e =? 92 then Some 92
   else if e =? 47 then Some 47
   else if e =? 98 then Some 8
   else if e =? 102 then Some 12
   else if e =? 110 then Some 10
   else if e =? 114 then Some 13
   else if e =? 116 then Some 9
   else None)%N.

(** The character of a surrogate pair. *)
Definition combine_surrogates (hi lo : N) : N :=
  (0x10000 + N.lor (N.shiftl (hi - 0xd800) 10) (lo - 0xdc00))%N.

Definition scanned (c : N) (r : option (str * str)) : option (str * str) :=
  match r with
  | Some (s, rest) => Some (c :: s, rest)
  | None => None
  end.

(** [scanstring], strict, entered after the opening quote: the decoded
    string and the input after the closing quote. A [\uXXXX] escape of a
    high surrogate directly followed by the escape of a low surrogate is
    read as the one character of that pair. *)
Fixpoint scanstring (s : str) : option (str * str) :=
  match s with
  | [] => None
  | c :: r =>
      (if c =? 34 then Some ([], r)
       else if c =? 92 then
         match r with
         | [] => None
         | e :: r1 =>
             if e =? 117 then
               match r1 with
               | h1 :: h2 :: h3 :: h4 :: r2 =>
                   match decode_uXXXX h1 h2 h3 h4 with
                   | None => None
                   | Some uni =>
                       if is_high_surrogate uni then
                         match r2 with
                         | b :: u :: l1 :: l2 :: l3 :: l4 :: r3 =>
                             if (b =? 92) && (u =? 117) then
                               match decode_uXXXX l1 l2 l3 l4 with
                               | None => None
                               | Some uni2 =>
                                   if is_low_surrogate uni2
                                   then scanned (combine_surrogates uni uni2)
                                                (scanstring r3)
                                   else scanned uni (scanstring r2)
                               end
                             else scanned uni (scanstring r2)
                         | _ => scanned uni (scanstring r2)
                         end
                       else scanned uni (scanstring r2)
                   end
               | _ => None
               end
             else
               match unescape e with
               | Some ch => scanned ch (scanstring r1)
               | None => None
               end
         end
       else if c <? 32 then None
       else scanned c (scanstring r))%N
  end.

Definition is_digit (c : N) : bool := ((48 <=? c) && (c <=? 57))%N.

Fixpoint span_digits (s : str) : str * str :=
  match s with
  | c :: rest =>
      if is_digit c
      then let '(ds, r) := span_digits rest in (c :: ds, r)
      else ([], s)
  | [] => ([], [])
  end.

Fixpoint digits_value (acc : Z) (ds : str) : Z :=
  match ds with
  | [] => acc
  | d :: rest => digits_value (10 * acc + Z.of_N (d - 48)) rest
  end.

(** An integer literal: an optional minus sign, then a single zero or a
    run of digits that starts with a nonzero one. A literal that goes on
    into a fraction or an exponent is a float, which no unit holds. *)
Definition scan_int (s : str) : option (Z * str) :=
  let '(neg, s1) :=
    match s with
    | c :: r => if (c =? 45)%N then (true, r) else (false, s)
    | [] => (false, s)
    end in
  match s1 with
  | [] => None
  | d :: r =>
      if negb (is_digit d) then None
      else
        let '(ds, rest) := if (d =? 48)%N then ([d], r) else span_digits s1 in
        match rest with
        | c :: _ =>
            if ((c =? 46) || (c =? 101) || (c =? 69))%N then None
            else Some (if neg then (- digits_value 0 ds)%Z else digits_value 0 ds, rest)
        | [] => Some (if neg then (- digits_value 0 ds)%Z else digits_value 0 ds, rest)
        end
  end.

(** [d[k] = v] on a dict kept in insertion order. *)
Fixpoint dict_set (d : list (str * json)) (k : str) (v : json) : list (str * json) :=
  match d with
  | [] => [(k, v)]
  | (k', v') :: rest =>
      if decide (k' = k) then (k, v) :: rest else (k', v') :: dict_set rest k v
  end.

(** [dict(pairs)] *)
Definition dict_of_pairs (pairs : list (str * json)) : list (str * json) :=
  fold_left (fun d kv => dict_set d (fst kv) (snd kv)) pairs [].

(** [scan_once] and [JSONObject]. [parse_members] is entered after the
    opening quote of a key, with the pairs read so far (latest first). The
    fuel bounds the number of values and members read. *)
Fixpoint parse_value (fuel : nat) (s : str) : option (json * str) :=
  match fuel with
  | O => None
  | S fuel' =>
      match s with
      | [] => None
      | c :: r =>
          (if c =? 34 then
             match scanstring r with
             | Some (t, rest) => Some (JStr t, rest)
             | None => None
             end
           else if c =? 123 then
             match skip_whitespace r with
             | c1 :: r1 =>
                 if c1 =? 125 then Some (JObj [], r1)
                 else if c1 =? 34 then parse_members fuel' [] r1
                 else None
             | [] => None
             end
           else
             match scan_int s with
             | Some (z, rest) => Some (JInt z, rest)
             | None => None
             end)%N
      end
  end
with parse_members (fuel : nat) (pairs : list (str * json)) (s : str)
  : option (json * str) :=
  match fuel with
  | O => None
  | S fuel' =>
      match scanstring s with
      | None => None
      | Some (key, s1) =>
          match skip_whitespace s1 with
          | c :: s2 =>
              (if c =? 58 then
                 match parse_value fuel' (skip_whitespace s2) with
                 | None => None
                 | Some (v, s3) =>
                     let pairs' := (key, v) :: pairs in
                     match skip_whitespace s3 with
                     | c1 :: s4 =>
                         if c1 =? 125
                         then Some (JObj (dict_of_pairs (rev pairs')), s4)
                         else if c1 =? 44 then
                           match skip_whitespace s4 with
                           | c2 :: s5 =>
                               if c2 =? 34 then parse_members fuel' pairs' s5
                               else None
                           | [] => None
                           end
                         else None
                     | [] => None
                     end
                 end
               else None)%N
          | [] => None
          end
      end
  end.

(** [json.loads(s)]: one value, surrounded by optional whitespace; [None]
    where Python raises [JSONDecodeError]. *)
Definition json_loads (s : str) : option json :=
  match parse_value (length s) (skip_whitespace s) with
  | Some (v, rest) =>
      match skip_whitespace rest with
      | [] => Some v
      | _ :: _ => None
      end
  | None => None
  end.

(** ** Python values, exceptions and floats *)

(** The values a request's JSON body gives to the parameter dict, as
    [json.loads] builds them. A dict inside the body is the list of its
    items in insertion order, the order in which it is iterated; its keys
    are distinct. *)
Inductive pyval : Type :=
| PNone
| PBool (b : bool)
| PInt (z : Z)
| PFloat (f : spec_float)
| PStr (s : str)
| PList (l : list pyval)
| PDict (d : list (str * pyval)).

(** The request parameter dict [params], which is only read by key. *)
Abbreviation dict := (gmap string pyval).

(** The items of a dict inside the body. *)
Abbreviation items := (list (str * pyval)).

Inductive exn : Type :=
| KeyError
| TypeError
| ValueError
| OverflowError
| AttributeError
| UnboundLocalError
| UnicodeEncodeError
| UnicodeDecodeError
| JSONDecodeError
| CancelledError
| EngineError.

Inductive result (A : Type) : Type :=
| Ok (a : A)
| Err (e : exn).
Arguments Ok {A} a.
Arguments Err {A} e.

#[export] Instance result_ret : MRet result := @Ok.
#[export] Instance result_bind : MBind result :=
  fun A B f m => match m with Ok a => f a | Err e => Err e end.

(** [d[key]] *)
Definition getitem (d : dict) (key : string) : result pyval :=
  match d !! key with
  | Some v => Ok v
  | None => Err KeyError
  end.

(** [d.get(key, dflt)] *)
Definition get (d : dict) (key : string) (dflt : pyval) : pyval :=
  default dflt (d !! key).

(** The value of a key in a dict inside the body. *)
Fixpoint lookup_item (d : items) (key : str) : option pyval :=
  match d with
  | [] => None
  | (k, v) :: rest => if decide (k = key) then Some v else lookup_item rest key
  end.

(** [message[key]] on a dict inside the body. *)
Definition subscript (d : items) (key : str) : result pyval :=
  match lookup_item d key with
  | Some v => Ok v
  | None => Err KeyError
  end.

(** [for x in v]: the elements of a list, the characters of a [str], the
    keys of a dict. The other values are not iterable. *)
Definition iterate (v : pyval) : result (list pyval) :=
  match v with
  | PList l => Ok l
  | PStr s => Ok (map (fun c => PStr [c]) s)
  | PDict d => Ok (map (fun kv => PStr (fst kv)) d)
  | PNone | PBool _ | PInt _ | PFloat _ => Err TypeError
  end.

(** Binary64 constants of the source. *)
Definition float_zero : spec_float := S754_zero false.
Definition float_one : spec_float := S754_finite false 4503599627370496 (-52).
(** [1e-5], that is [0x1.4f8b588e368f1p-17] *)
Definition float_1e_5 : spec_float := S754_finite false 5902958103587057 (-69).

(** The float nearest to an int (ties to even). *)
Definition float_of_Z (z : Z) : spec_float := binary_normalize 53 1024 z 0 false.

(** The truth value of [if v:] *)
Definition truthy (v : pyval) : bool :=
  match v with
  | PNone => false
  | PBool b => b
  | PInt z => negb (z =? 0)%Z
  | PFloat f => negb (SFeqb f float_zero)
  | PStr s => match s with [] => false | _ => true end
  | PList l => match l with [] => false | _ => true end
  | PDict d => match d with [] => false | _ => true end
  end.

(** *** Hashable values and their equality *)

(** [hash(v)] succeeds: a list or a dict is unhashable. *)
Definition hashable (v : pyval) : bool :=
  match v with
  | PList _ | PDict _ => false
  | _ => true
  end.

(** The value [m * 2^e] of a bool, an int or a finite float. *)
Definition number (v : pyval) : option (Z * Z) :=
  match v with
  | PBool b => Some (if b then 1 else 0, 0)%Z
  | PInt z => Some (z, 0%Z)
  | PFloat (S754_zero _) => Some (0, 0)%Z
  | PFloat (S754_finite sg m e) => Some (if sg then Z.neg m else Z.pos m, e)
  | _ => None
  end.

(** Exact equality of two such values. *)
Definition number_eqb (x y : Z * Z) : bool :=
  let e := Z.min (snd x) (snd y) in
  (fst x * 2 ^ (snd x - e) =? fst y * 2 ^ (snd y - e))%Z.

(** Whether a set takes two hashable values of a body for the same
    member: [a is b or a == b]. Numbers are compared by value whatever
    their type ([True == 1 == 1.0]); every [NaN] of a body is the one
    object [json.decoder.NaN]. *)
Definition py_eqb (a b : pyval) : bool :=
  match number a, number b with
  | Some x, Some y => number_eqb x y
  | None, None =>
      match a, b with
      | PNone, PNone => true
      | PStr s, PStr t => bool_decide (s = t)
      | PFloat (S754_infinity sg), PFloat (S754_infinity sg') => Bool.eqb sg sg'
      | PFloat S754_nan, PFloat S754_nan => true
      | _, _ => false
      end
  | _, _ => false
  end.

(** A Python [set] of hashable values: its members in the order of their
    insertion, no two of them equal. *)
Abbreviation pyset := (list pyval).

(** [st.add(v)] for a hashable [v]: a value equal to a member leaves the
    set as it is. *)
Definition set_add (st : pyset) (v : pyval) : pyset :=
  if existsb (py_eqb v) st then st else st ++ [v].

(** [max(a, b)] on floats: the first argument unless the second is greater. *)
Definition float_max (a b : spec_float) : spec_float :=
  if SFltb a b then b else a.

(** ** Collaborators outside the worker *)

(** The tokenizer of the engine: [eos_token_id] and [decode]. *)
Class Tokenizer := {
  eos_token_id : option Z;
  tokenizer_decode : pyval -> result str
}.

(** [float(s)] on a [str]; [None] where it raises [ValueError]. *)
Class FloatSyntax := {
  float_of_str : str -> option spec_float
}.

Record SamplingParams := {
  n : Z;
  temperature : spec_float;
  top_p : spec_float;
  use_beam_search : bool;
  stop : list pyval;
  max_tokens : pyval
}.

Record CompletionOutput := { text : str }.

Record RequestOutput := {
  prompt : str;
  outputs : list CompletionOutput
}.

(** What iterating [engine.generate(...)] gives: the request outputs in
    order, then the end of the iteration or an exception. A run that fails
    before its first output also stands for [SamplingParams] rejecting its
    arguments. *)
Record engine_run := {
  request_outputs : list RequestOutput;
  failure : option exn
}.

(** The engine: [engine.generate(context, sampling_params, request_id)]. *)
Class Engine := {
  engine_generate : pyval -> SamplingParams -> pyval -> engine_run
}.

(** The conversation template of [llm_ops.llms.base_model]. *)
Class Conversation := {
  conv : Type;
  get_conversation_template : pyval -> conv;
  set_system_message : conv -> pyval -> conv;
  roles : conv -> nat -> pyval;
  append_message : conv -> pyval -> pyval -> conv;
  get_prompt : conv -> str
}.

(** ** Coroutines *)

(** A coroutine or asynchronous generator, unfolded into the effects it
    performs on the worker and the engine. [Await k c] is a suspension
    point: the task resumes as [k], or as [c] when it is cancelled there.
    [SemAcquire] suspends too, until the semaphore grants a slot. *)
Inductive task (A : Type) : Type :=
| Return (a : A)
| Raise (e : exn)
| InitSemaphore (k : task A)
| SemAcquire (k : task A)
| SemRelease (k : task A)
| CountCall (k : task A)
| EngineAbort (rid : str) (k : task A)
| Await (k : task A) (cancelled : task A)
| Yield (chunk : bytes) (k : task A).
Arguments Return {A} a.
Arguments Raise {A} e.
Arguments InitSemaphore {A} k.
Arguments SemAcquire {A} k.
Arguments SemRelease {A} k.
Arguments CountCall {A} k.
Arguments EngineAbort {A} rid k.
Arguments Await {A} k cancelled.
Arguments Yield {A} chunk k.

Fixpoint bind {A B : Type} (t : task A) (f : A -> task B) : task B :=
  match t with
  | Return a => f a
  | Raise e => Raise e
  | InitSemaphore k => InitSemaphore (bind k f)
  | SemAcquire k => SemAcquire (bind k f)
  | SemRelease k => SemRelease (bind k f)
  | CountCall k => CountCall (bind k f)
  | EngineAbort r k => EngineAbort r (bind k f)
  | Await k c => Await (bind k f) (bind c f)
  | Yield chunk k => Yield chunk (bind k f)
  end.

#[export] Instance task_ret : MRet task := @Return.
#[export] Instance task_bind : MBind task := fun A B f t => bind t f.

(** A synchronous computation inside a coroutine. *)
Definition lift {A : Type} (r : result A) : task A :=
  match r with
  | Ok a => Return a
  | Err e => Raise e
  end.

(** ** [VLLMWorker] *)

Section Worker.
Context {tok : Tokenizer} {fs : FloatSyntax} {eng : Engine} {cv : Conversation}.

(** [float(v)] *)
Definition py_float (v : pyval) : result spec_float :=
  match v with
  | PFloat f => Ok f
  | PInt z =>
      match float_of_Z z with
      | S754_infinity _ => Err OverflowError
      | f => Ok f
      end
  | PBool b => Ok (if b then float_one else float_zero)
  | PStr s =>
      match float_of_str s with
      | Some f => Ok f
      | None => Err ValueError
      end
  | PNone | PList _ | PDict _ => Err TypeError
  end.

(** [stop.update(l)]: the elements are added one after the other; an
    unhashable one raises [TypeError]. *)
Fixpoint stop_update (stop : pyset) (l : list pyval) : result pyset :=
  match l with
  | [] => Ok stop
  | v :: rest =>
      if hashable v then stop_update (set_add stop v) rest
      else Err TypeError
  end.

(** Lines 82 to 86, "Handle stop_str": the stop set of the [stop]
    parameter. *)
Definition stop_strings (stop_str : pyval) : result pyset :=
  let stop : pyset := [] in
  match stop_str with
  | PStr s =>
      match s with
      | [] => Ok stop
      | _ => Ok (set_add stop stop_str)
      end
  | PList l =>
      match l with
      | [] => Ok stop
      | _ => stop_update stop l
      end
  | _ => Ok stop
  end.

(** Lines 76 to 78: [params.get("stop_token_ids", None) or []], with the
    end-of-sequence token id appended when the tokenizer has one. A value
    that is not a list has no [append]. *)
Definition stop_token_ids_of (params : dict) : result pyval :=
  let v := get params "stop_token_ids" PNone in
  let stop_token_ids := if truthy v then v else PList [] in
  match eos_token_id with
  | Some eos =>
      match stop_token_ids with
      | PList l => Ok (PList (l ++ [PInt eos]))
      | _ => Err AttributeError
      end
  | None => Ok stop_token_ids
  end.

(** Lines 89 and 90, the body of the loop: every token id that is not
    [None] is decoded and added to the stop set. *)
Fixpoint add_stop_token_ids (stop : pyset) (stop_token_ids : list pyval)
  : result pyset :=
  match stop_token_ids with
  | [] => Ok stop
  | PNone :: rest => add_stop_token_ids stop rest
  | tid :: rest =>
      s ← tokenizer_decode tid;
      add_stop_token_ids (set_add stop (PStr s)) rest
  end.

(** Lines 93 to 95 *)
Definition normalize_top_p (temperature top_p : spec_float) : spec_float :=
  let top_p := float_max top_p float_1e_5 in
  if SFleb temperature float_1e_5 then float_one else top_p.

(** What [generate_stream] has computed when it calls the engine. *)
Record submission := {
  context : pyval;
  request_id : pyval;
  echo : pyval;
  stop_set : pyset;
  sampling_params : SamplingParams
}.

(** Lines 70 to 103 of [generate_stream]. The two [pop]s are read as
    lookups: nothing reads the dict afterwards. [list(stop)] gives the
    members of the set in an order Python leaves open; here it is the order
    of their insertion. *)
Definition prepare (params : dict) : result submission :=
  context ← getitem params "prompt";
  request_id ← getitem params "request_id";
  temperature ← py_float (get params "temperature" (PFloat float_one));
  top_p ← py_float (get params "top_p" (PFloat float_one));
  let max_new_tokens := get params "max_new_tokens" (PInt 256) in
  let stop_str := get params "stop" PNone in
  stop_token_ids ← stop_token_ids_of params;
  let echo := get params "echo" (PBool true) in
  stop ← stop_strings stop_str;
  tids ← iterate stop_token_ids;
  stop ← add_stop_token_ids stop tids;
  let top_p := normalize_top_p temperature top_p in
  Ok {| context := context;
        request_id := request_id;
        echo := echo;
        stop_set := stop;
        sampling_params :=
          {| n := 1;
             temperature := temperature;
             top_p := top_p;
             use_beam_search := false;
             stop := stop;
             max_tokens := max_new_tokens |} |}.

(** Line 116: the dict [ret]. *)
Definition ret (text_outputs : str) : json :=
  JObj [(lit "text", JStr text_outputs);
        (lit "error_code", JInt 0);
        (lit "usage", JObj [])].

(** Lines 107 to 116: the unit of one request output. *)
Definition unit_of (echo : pyval) (request_output : RequestOutput) : json :=
  let prompt := prompt request_output in
  let text_outputs :=
    if truthy echo
    then map (fun output => prompt ++ text output) (outputs request_output)
    else map text (outputs request_output) in
  let text_outputs := join (lit " ") text_outputs in
  ret text_outputs.

(** The delimiter ["\0"] appended to every unit. *)
Definition delimiter : str := [0%N].

(** Line 117: [(json.dumps(ret) + "\0").encode()] *)
Definition encode_unit (ret : json) : option bytes :=
  str_encode (json_dumps ret ++ delimiter).

(** Lines 106 to 117: the loop over the results generator. Each step
    awaits the engine. *)
Fixpoint stream_outputs (echo : pyval) (results : list RequestOutput)
    (failure : option exn) : task unit :=
  match results with
  | [] =>
      Await (match failure with
             | Some e => Raise e
             | None => Return tt
             end)
            (Raise CancelledError)
  | request_output :: rest =>
      Await (match encode_unit (unit_of echo request_output) with
             | Some chunk => Yield chunk (stream_outputs echo rest failure)
             | None => Raise UnicodeEncodeError
             end)
            (Raise CancelledError)
  end.

Definition generate_stream (params : dict) : task unit :=
  CountCall
    (match prepare params with
     | Err e => Raise e
     | Ok s =>
         let results_generator :=
           engine_generate (context s) (sampling_params s) (request_id s) in
         stream_outputs (echo s) (request_outputs results_generator)
           (failure results_generator)
     end).

(** [async for x in g: pass], from the value [x] has so far. *)
Fixpoint last_item {A : Type} (g : task A) (x : option bytes) : task (option bytes) :=
  match g with
  | Return _ => Return x
  | Raise e => Raise e
  | InitSemaphore k => InitSemaphore (last_item k x)
  | SemAcquire k => SemAcquire (last_item k x)
  | SemRelease k => SemRelease (last_item k x)
  | CountCall k => CountCall (last_item k x)
  | EngineAbort r k => EngineAbort r (last_item k x)
  | Await k c => Await (last_item k x) (last_item c x)
  | Yield chunk k => last_item k (Some chunk)
  end.

(** [json.loads(x[:-1].decode())] *)
Definition decode_unit (x : bytes) : result json :=
  match bytes_decode (removelast x) with
  | None => Err UnicodeDecodeError
  | Some s =>
      match json_loads s with
      | None => Err JSONDecodeError
      | Some v => Ok v
      end
  end.

Definition generate (params : dict) : task json :=
  x ← last_item (generate_stream params) None;
  match x with
  | None => Raise UnboundLocalError
  | Some x => lift (decode_unit x)
  end.

(** ** The endpoints *)

Definition release_worker_semaphore : task unit :=
  SemRelease (Return tt).

Definition acquire_worker_semaphore : task unit :=
  InitSemaphore (SemAcquire (Return tt)).

(** The two tasks of the [BackgroundTasks] object, in the order added. *)
Definition create_background_tasks (request_id : str) : list (task unit) :=
  let abort_request := EngineAbort request_id (Return tt) in
  [release_worker_semaphore; abort_request].

(** The loop of [get_conversation_prompt] over [params["messages"]]. *)
Fixpoint append_messages (c : conv) (messages : list pyval) : result conv :=
  match messages with
  | [] => Ok c
  | PDict message :: rest =>
      role ← subscript message (lit "role");
      match role with
      | PStr r =>
          if decide (r = lit "human") then
            t ← subscript message (lit "text");
            append_messages (append_message c (roles c 0) t) rest
          else if decide (r = lit "ai") then
            t ← subscript message (lit "text");
            append_messages (append_message c (roles c 1) t) rest
          else append_messages c rest
      | _ => append_messages c rest
      end
  | _ :: _ => Err TypeError
  end.

Definition get_conversation_prompt (params : dict) : result str :=
  model_identifier ← getitem params "model_identifier";
  let c := get_conversation_template model_identifier in
  system_message ← getitem params "system_message";
  let c := set_system_message c system_message in
  messages ← getitem params "messages";
  messages ← iterate messages;
  c ← append_messages c messages;
  let c := append_message c (roles c 1) PNone in
  Ok (get_prompt c).

(** [JSONResponse.render]: [json.dumps] with [ensure_ascii=False] and
    the separators [","] and [":"], encoded as UTF-8; [None] where the
    encoding raises [UnicodeEncodeError] (a surrogate in a string). *)
Definition render (content : json) : option bytes :=
  str_encode (json_dumps_compact content).

Inductive response : Type :=
| JSONResponse (body : bytes)
| StreamingResponse (generator : task unit) (background : list (task unit)).

(** [api_generate_stream], from the parsed request body; [request_id] is
    the value [random_uuid()] returns. *)
Definition api_generate_stream (params : dict) (request_id : str) : task response :=
  prompt ← lift (get_conversation_prompt params);
  let params := <["prompt" := PStr prompt]> params in
  _ ← acquire_worker_semaphore;
  let params := <["request_id" := PStr request_id]> params in
  let generator := generate_stream params in
  let background_tasks := create_background_tasks request_id in
  Return (StreamingResponse generator background_tasks).

Definition api_generate (params : dict) (request_id : str) : task response :=
  prompt ← lift (get_conversation_prompt params);
  let params := <["prompt" := PStr prompt]> params in
  _ ← acquire_worker_semaphore;
  let params := <["request_id" := PStr request_id]> params in
  output ← generate params;
  _ ← release_worker_semaphore;
  _ ← EngineAbort request_id (Return tt);
  match render output with
  | Some body => Return (JSONResponse body)
  | None => Raise UnicodeEncodeError
  end.

(** ** The transport under the endpoints *)

(** [BackgroundTasks.__call__]: the tasks one after the other. *)
Fixpoint run_background (tasks : list (task unit)) : task unit :=
  match tasks with
  | [] => Return tt
  | t :: rest => _ ← t; run_background rest
  end.

(** How the framework serves a [StreamingResponse]: it iterates the body,
    handing every chunk to the client; when the body ends, or when the
    client disconnects (the task is cancelled at a suspension point of the
    body), it runs the background tasks; an exception of the body goes
    past them. *)
Fixpoint stream_response (body : task unit) (background : task unit) : task unit :=
  match body with
  | Return _ => background
  | Raise e => Raise e
  | InitSemaphore k => InitSemaphore (stream_response k background)
  | SemAcquire k => SemAcquire (stream_response k background)
  | SemRelease k => SemRelease (stream_response k background)
  | CountCall k => CountCall (stream_response k background)
  | EngineAbort r k => EngineAbort r (stream_response k background)
  | Await k _ => Await (stream_response k background) background
  | Yield chunk k => Yield chunk (stream_response k background)
  end.

(** A request from the call of its endpoint to the end of its response. *)
Definition serve (endpoint : task response) : task unit :=
  r ← endpoint;
  match r with
  | JSONResponse _ => Return tt
  | StreamingResponse generator background =>
      stream_response generator (run_background background)
  end.

End Worker.

(** ** Execution *)

(** What a task does in one step. *)
Inductive event : Type :=
| EvInit
| EvAcquire
| EvRelease
| EvCount
| EvAbort (request_id : str)
| EvResume
| EvSend (chunk : bytes)
| EvCancel.

(** The effect at the head of a task and the task after it. *)
Definition next {A : Type} (t : task A) : option (event * task A) :=
  match t with
  | Return _ | Raise _ => None
  | InitSemaphore k => Some (EvInit, k)
  | SemAcquire k => Some (EvAcquire, k)
  | SemRelease k => Some (EvRelease, k)
  | CountCall k => Some (EvCount, k)
  | EngineAbort r k => Some (EvAbort r, k)
  | Await k _ => Some (EvResume, k)
  | Yield chunk k => Some (EvSend chunk, k)
  end.

(** Cancellation reaches a task where it is suspended: at an [Await], or
    while it waits for the semaphore, where [CancelledError] is raised into
    a coroutine that has no handler for it. *)
Definition cancel {A : Type} (t : task A) : option (task A) :=
  match t with
  | Await _ c => Some c
  | SemAcquire _ => Some (Raise CancelledError)
  | _ => None
  end.

(** The complete executions of one task once the semaphore exists, with
    every acquisition granted: the events in order and how the task ends. *)
Inductive runs {A : Type} : task A -> list event -> result A -> Prop :=
| runs_return a : runs (Return a) [] (Ok a)
| runs_raise e : runs (Raise e) [] (Err e)
| runs_next t ev k tr o :
    next t = Some (ev, k) -> runs k tr o -> runs t (ev :: tr) o
| runs_cancel t c tr o :
    cancel t = Some c -> runs c tr o -> runs t (EvCancel :: tr) o.

(** The execution in which nothing is cancelled. *)
Fixpoint run_through {A : Type} (t : task A) : list event * result A :=
  match t with
  | Return a => ([], Ok a)
  | Raise e => ([], Err e)
  | InitSemaphore k => let '(tr, o) := run_through k in (EvInit :: tr, o)
  | SemAcquire k => let '(tr, o) := run_through k in (EvAcquire :: tr, o)
  | SemRelease k => let '(tr, o) := run_through k in (EvRelease :: tr, o)
  | CountCall k => let '(tr, o) := run_through k in (EvCount :: tr, o)
  | EngineAbort r k => let '(tr, o) := run_through k in (EvAbort r :: tr, o)
  | Await k _ => let '(tr, o) := run_through k in (EvResume :: tr, o)
  | Yield chunk k => let '(tr, o) := run_through k in (EvSend chunk :: tr, o)
  end.

(** The chunks a trace hands to the consumer. *)
Fixpoint chunks_of (tr : list event) : list bytes :=
  match tr with
  | [] => []
  | EvSend chunk :: rest => chunk :: chunks_of rest
  | _ :: rest => chunks_of rest
  end.

Definition is_acquire (ev : event) : bool :=
  match ev with EvAcquire => true | _ => false end.
Definition is_release (ev : event) : bool :=
  match ev with EvRelease => true | _ => false end.
Definition is_abort (ev : event) : bool :=
  match ev with EvAbort _ => true | _ => false end.
Definition is_send (ev : event) : bool :=
  match ev with EvSend _ => true | _ => false end.

(** How often an event of a kind occurs in a trace. *)
Definition count (p : event -> bool) (tr : list event) : nat :=
  length (filter (fun ev => p ev = true) tr).

(** *** The worker process *)

(** Modelled from the spec: the worker object, whose class
    [BaseModelWorker] is not among the sources. It has a capacity fixed at
    startup, the semaphore that the endpoints construct lazily ([None]
    until then), and the call counter. *)
Record worker := {
  limit_worker_concurrency : Z;
  semaphore : option Z;
  call_ct : Z
}.

Inductive outcome : Type :=
| Done (w : worker) (aborted : list str)
| Fault (e : exn)
| Blocked.

(** The effect of a step on the worker and on the engine's record of abort
    calls. [EvInit] is lines 130 and 131, where [asyncio.Semaphore] rejects
    a negative value; [EvAcquire] is [Semaphore.acquire], which proceeds
    only on a positive value and decrements it; [EvRelease] is
    [Semaphore.release], which increments the value. *)
Definition perform (w : worker) (aborted : list str) (ev : event) : outcome :=
  match ev with
  | EvInit =>
      match semaphore w with
      | Some _ => Done w aborted
      | None =>
          if (limit_worker_concurrency w <? 0)%Z then Fault ValueError
          else Done {| limit_worker_concurrency := limit_worker_concurrency w;
                       semaphore := Some (limit_worker_concurrency w);
                       call_ct := call_ct w |} aborted
      end
  | EvAcquire =>
      match semaphore w with
      | None => Fault AttributeError
      | Some v =>
          if (0 <? v)%Z
          then Done {| limit_worker_concurrency := limit_worker_concurrency w;
                       semaphore := Some (v - 1)%Z;
                       call_ct := call_ct w |} aborted
          else Blocked
      end
  | EvRelease =>
      match semaphore w with
      | None => Fault AttributeError
      | Some v =>
          Done {| limit_worker_concurrency := limit_worker_concurrency w;
                  semaphore := Some (v + 1)%Z;
                  call_ct := call_ct w |} aborted
      end
  | EvCount =>
      Done {| limit_worker_concurrency := limit_worker_concurrency w;
              semaphore := semaphore w;
              call_ct := (call_ct w + 1)%Z |} aborted
  | EvAbort r => Done w (aborted ++ [r])
  | EvResume | EvSend _ | EvCancel => Done w aborted
  end.

(** A request in flight: what is left of its task, and how many times it
    has acquired and released the semaphore. *)
Record request := {
  code : task unit;
  acquired : nat;
  released : nat
}.

(** The request after a step: it goes on as [k]; an acquisition and a
    release are counted, any other event leaves the counts as they are. *)
Definition account (ev : event) (r : request) (k : task unit) : request :=
  {| code := k;
     acquired := if is_acquire ev then S (acquired r) else acquired r;
     released := if is_release ev then S (released r) else released r |}.

Record server := {
  the_worker : worker;
  engine_aborted : list str;
  requests : list request
}.

(** A request holds a slot from its acquisition to its release. *)
Definition holding (r : request) : bool := (released r <? acquired r)%nat.

Definition holders (sv : server) : nat :=
  length (filter (fun r => holding r = true) (requests sv)).

Definition startup (capacity : Z) : server :=
  {| the_worker := {| limit_worker_concurrency := capacity;
                      semaphore := None;
                      call_ct := 0 |};
     engine_aborted := [];
     requests := [] |}.

Inductive label : Type :=
| LArrive
| LStep (i : nat) (ev : event)
| LFault (i : nat) (ev : event) (e : exn)
| LCancel (i : nat).

Section Server.
Context {tok : Tokenizer} {fs : FloatSyntax} {eng : Engine} {cv : Conversation}.

(** The tasks the transport starts: either endpoint, on any parameters. *)
Inductive endpoint_task : task unit -> Prop :=
| endpoint_generate params request_id :
    endpoint_task (serve (api_generate params request_id))
| endpoint_generate_stream params request_id :
    endpoint_task (serve (api_generate_stream params request_id)).

(** One step of the event loop: a request arrives, or a request in flight
    performs its next effect, or is cancelled where it is suspended. *)
Inductive step : server -> label -> server -> Prop :=
| step_arrive sv t :
    endpoint_task t ->
    step sv LArrive
      {| the_worker := the_worker sv;
         engine_aborted := engine_aborted sv;
         requests := requests sv ++ [{| code := t; acquired := 0; released := 0 |}] |}
| step_done sv i r ev k w' aborted' :
    requests sv !! i = Some r ->
    next (code r) = Some (ev, k) ->
    perform (the_worker sv) (engine_aborted sv) ev = Done w' aborted' ->
    step sv (LStep i ev)
      {| the_worker := w';
         engine_aborted := aborted';
         requests := <[i := account ev r k]> (requests sv) |}
| step_fault sv i r ev k e :
    requests sv !! i = Some r ->
    next (code r) = Some (ev, k) ->
    perform (the_worker sv) (engine_aborted sv) ev = Fault e ->
    step sv (LFault i ev e)
      {| the_worker := the_worker sv;
         engine_aborted := engine_aborted sv;
         requests := <[i := account EvCancel r (Raise e)]> (requests sv) |}
| step_cancel sv i r c :
    requests sv !! i = Some r ->
    cancel (code r) = Some c ->
    step sv (LCancel i)
      {| the_worker := the_worker sv;
         engine_aborted := engine_aborted sv;
         requests := <[i := account EvCancel r c]> (requests sv) |}.

Inductive reachable (capacity : Z) : server -> Prop :=
| reachable_startup : reachable capacity (startup capacity)
| reachable_step sv l sv' :
    reachable capacity sv -> step sv l sv' -> reachable capacity sv'.

End Server.

(** ** Notions used by the statements *)

(** What the engine promises about a request output: it carries the prompt
    it was submitted with, and as many completions as [n] asks for. *)
Definition engine_contract {eng : Engine} : Prop :=
  forall (ctx : str) (sp : SamplingParams) (rid : pyval) (ro : RequestOutput),
    (0 <= n sp)%Z ->
    ro ∈ request_outputs (engine_generate (PStr ctx) sp rid) ->
    prompt ro = ctx /\ Z.of_nat (length (outputs ro)) = n sp.

(** The floats [0.3] and [0.7]. *)
Definition float_0_3 : spec_float := S754_finite false 5404319552844595 (-54).
Definition float_0_7 : spec_float := S754_finite false 6305039478318694 (-53).

(** The two surrogates [json.dumps] writes for a character above the basic
    plane. *)
Definition high_of (c : N) : N :=
  N.lor 0xd800 (N.land (N.shiftr (c - 0x10000) 10) 0x3ff).
Definition low_of (c : N) : N :=
  N.lor 0xdc00 (N.land (c - 0x10000) 0x3ff).

(** The escape of a low surrogate at the head of a JSON text, if there is
    one: the surrogate and the text after its escape. *)
Definition low_escape (s : str) : option (N * str) :=
  match s with
  | b :: u :: l1 :: l2 :: l3 :: l4 :: r3 =>
      if ((b =? 92) && (u =? 117))%N then
        match decode_uXXXX l1 l2 l3 l4 with
        | Some uni2 => if is_low_surrogate uni2 then Some (uni2, r3) else None
        | None => None
        end
      else None
  | _ => None
  end.

(** The string [json.loads] reads back from the JSON text [json.dumps]
    writes for [t]: the same characters, except that a high surrogate
    directly followed by a low surrogate comes back as the one character of
    that pair. *)
Fixpoint reread (t : str) : str :=
  match t with
  | [] => []
  | c :: r =>
      if (0x10000 <=? c)%N then combine_surrogates (high_of c) (low_of c) :: reread r
      else if is_high_surrogate c then
        match r with
        | l :: r' =>
            if is_low_surrogate l
            then combine_surrogates c l :: reread r'
            else c :: reread r
        | [] => c :: reread r
        end
      else c :: reread r
  end.

(** A string in which no high surrogate is directly followed by a low
    surrogate. *)
Fixpoint no_surrogate_pair (t : str) : Prop :=
  match t with
  | [] => True
  | c :: r =>
      match r with
      | l :: _ => (is_high_surrogate c && is_low_surrogate l = false) /\ no_surrogate_pair r
      | [] => True
      end
  end.

(** The characters [json.dumps] leaves in its output. *)
Definition printable (c : N) : Prop := (32 <= c <= 126)%N.

(** The shapes of the escape of one character. *)
Inductive escape_shape (c : N) : str -> Prop :=
| shape_short e :
    e <> 117%N -> unescape e = Some c -> (c < 0xd800)%N ->
    escape_shape c [92%N; e]
| shape_plain :
    c <> 34%N -> c <> 92%N -> (32 <= c <= 126)%N ->
    escape_shape c [c]
| shape_u :
    (c < 0x10000)%N -> escape_shape c (u_escape c)
| shape_pair :
    (0x10000 <= c)%N ->
    escape_shape c (u_escape (high_of c) ++ u_escape (low_of c)).

(** The JSON text of [ret] around the escaped text. *)
Definition ret_prefix : str :=
  Eval vm_compute in
    (lit "{" ++ encode_basestring_ascii (lit "text") ++ lit ": " ++ [34%N]).
Definition ret_suffix : str :=
  Eval vm_compute in
    (34%N :: lit ", " ++ encode_basestring_ascii (lit "error_code") ++ lit ": 0, "
       ++ encode_basestring_ascii (lit "usage") ++ lit ": {}}").

(** The bytes of a unit on the wire, without and with the delimiter. *)
Definition payload (u : json) : bytes := map byte_of_N (json_dumps u).
Definition frame (u : json) : bytes := payload u ++ [x00].

(** The text field of a unit. *)
Definition text_of (u : json) : str :=
  match u with
  | JObj ((_, JStr t) :: _) => t
  | _ => []
  end.

(** Modelled from the spec: the client-side decoder of section 4.3, which
    is not part of the worker. It splits the received bytes on the sentinel
    into the complete frames and the bytes after the last sentinel. *)
Fixpoint split_frames (stream : bytes) : list bytes * bytes :=
  match stream with
  | [] => ([], [])
  | b :: rest =>
      let '(frames, partial) := split_frames rest in
      if Byte.eqb b x00 then ([] :: frames, partial)
      else
        match frames with
        | f :: fs => ((b :: f) :: fs, partial)
        | [] => ([], b :: partial)
        end
  end.

(** Modelled from the spec: every frame parsed on its own, the way
    [generate] reads its last chunk; bytes after the last sentinel are a
    framing error. *)
Fixpoint parse_frames (frames : list bytes) : option (list json) :=
  match frames with
  | [] => Some []
  | f :: rest =>
      match bytes_decode f with
      | None => None
      | Some s =>
          match json_loads s, parse_frames rest with
          | Some v, Some vs => Some (v :: vs)
          | _, _ => None
          end
      end
  end.

Definition decode_stream (stream : bytes) : option (list json) :=
  match split_frames stream with
  | (frames, []) => parse_frames frames
  | (_, _ :: _) => None
  end.

(** The text [generate_stream] puts into the unit of a request output. *)
Definition unit_text (echo : pyval) (ro : RequestOutput) : str :=
  text_of (unit_of echo ro).

(** The events of a trace other than the chunks handed on. *)
Definition silent (tr : list event) : list event :=
  filter (fun ev => is_send ev = false) tr.

Definition last_or (x : option bytes) (chunks : list bytes) : option bytes :=
  match last chunks with
  | Some c => Some c
  | None => x
  end.

(** The request outputs the engine yields for an accepted request. *)
Definition results_of {eng : Engine} (s : submission) : list RequestOutput :=
  request_outputs (engine_generate (context s) (sampling_params s) (request_id s)).

(** ** Sample collaborators and requests *)

(** A tokenizer with end-of-sequence token 2; token [z] decodes to the
    string of [z] between angle brackets. *)
Definition sample_tokenizer : Tokenizer :=
  {| eos_token_id := Some 2%Z;
     tokenizer_decode := fun v =>
       match v with
       | PInt z => Ok (lit "<" ++ int_repr z ++ lit ">")
       | _ => Err TypeError
       end |}.

(** A float syntax that reads ["0.3"] and ["0.7"] only. *)
Definition sample_float_syntax : FloatSyntax :=
  {| float_of_str := fun s =>
       if decide (s = lit "0.3") then Some float_0_3
       else if decide (s = lit "0.7") then Some float_0_7
       else None |}.

Definition str_of (v : pyval) : str :=
  match v with
  | PStr s => s
  | _ => []
  end.

(** An engine that answers every prompt with five request outputs, the
    completion growing from one to the next, each with [n] copies of it. *)
Definition sample_engine : Engine :=
  {| engine_generate := fun ctx sp _ =>
       {| request_outputs :=
            map (fun t => {| prompt := str_of ctx;
                             outputs := repeat {| text := t |} (Z.to_nat (n sp)) |})
              [lit " one"; lit " one two"; lit " one two three";
               lit " one two three four"; lit " one two three four five"];
          failure := None |} |}.

(** An engine that yields one request output and then raises. *)
Definition failing_engine : Engine :=
  {| engine_generate := fun ctx _ _ =>
       {| request_outputs :=
            [ {| prompt := str_of ctx; outputs := [ {| text := lit " Hello" |} ] |} ];
          failure := Some EngineError |} |}.

(** An engine whose completion is a lone high surrogate followed by a lone
    low surrogate. *)
Definition surrogate_engine : Engine :=
  {| engine_generate := fun ctx _ _ =>
       {| request_outputs :=
            [ {| prompt := str_of ctx;
                 outputs := [ {| text := [0xd83d; 0xde00]%N |} ] |} ];
          failure := None |} |}.

(** A conversation template that writes the system message and then every
    message after its role. *)
Definition sample_conversation : Conversation :=
  {| conv := str;
     get_conversation_template := fun _ => [];
     set_system_message := fun c m => c ++ str_of m;
     roles := fun _ i => PStr (match i with O => lit "USER" | _ => lit "ASSISTANT" end);
     append_message := fun c role m => c ++ lit " " ++ str_of role ++ lit ": " ++ str_of m;
     get_prompt := fun c => c |}.

(** The parameters [generate_stream] receives for the prompt ["Hi"]. *)
Definition sample_params : dict :=
  <["prompt" := PStr (lit "Hi")]> (<["request_id" := PStr (lit "r1")]> ∅).

(** The body of a request to either endpoint. *)
Definition sample_request : dict :=
  <["model_identifier" := PStr (lit "vicuna")]>
    (<["system_message" := PStr (lit "Be brief.")]>
       (<["messages" :=
            PList [PDict [(lit "role", PStr (lit "human"));
                          (lit "text", PStr (lit "Hi"))]]]> ∅)).

(** ** Slot discipline *)

(** A task is disciplined from a holding status [h] when, along all its
    executions, it acquires only while it holds no slot and releases only
    while it holds one; [Q] is what is known of the value it returns and of
    the holding status at that point. *)
Fixpoint disc {A : Type} (h : bool) (Q : A -> bool -> Prop) (t : task A) : Prop :=
  match t with
  | Return a => Q a h
  | Raise _ => True
  | SemAcquire k => h = false /\ disc true Q k
  | SemRelease k => h = true /\ disc false Q k
  | InitSemaphore k | CountCall k | EngineAbort _ k | Yield _ k => disc h Q k
  | Await k c => disc h Q k /\ disc h Q c
  end.

(** A task that touches neither the semaphore nor the engine's abort. *)
Fixpoint quiet {A : Type} (t : task A) : Prop :=
  match t with
  | Return _ | Raise _ => True
  | InitSemaphore _ | SemAcquire _ | SemRelease _ | EngineAbort _ _ => False
  | CountCall k | Yield _ k => quiet k
  | Await k c => quiet k /\ quiet c
  end.

(** The slots a request holds: acquisitions less releases. *)
Definition held (r : request) : Z := Z.of_nat (acquired r) - Z.of_nat (released r).

Fixpoint held_total (l : list request) : Z :=
  match l with
  | [] => 0
  | r :: rest => held r + held_total rest
  end.

Definition well_accounted (r : request) : Prop :=
  (released r <= acquired r <= S (released r))%nat /\
  disc (holding r) (fun _ _ => True) (code r).

(** The invariant of the worker: the semaphore's value and the slots held
    add up to the capacity. *)
Definition slots_accounted (capacity : Z) (sv : server) : Prop :=
  limit_worker_concurrency (the_worker sv) = capacity /\
  Forall well_accounted (requests sv) /\
  match semaphore (the_worker sv) with
  | None => held_total (requests sv) = 0%Z
  | Some v => (0 <= v)%Z /\ (v + held_total (requests sv))%Z = capacity
  end.

(** The first error of the two [float] conversions in [generate_stream]. *)
Definition conversion_error {fs : FloatSyntax} (params : dict) : option exn :=
  match py_float (get params "temperature" (PFloat float_one)) with
  | Err e => Some e
  | Ok _ =>
      match py_float (get params "top_p" (PFloat float_one)) with
      | Err e => Some e
      | Ok _ => None
      end
  end.

(** A request body whose temperature is not a number. *)
Definition malformed_request : dict :=
  <["temperature" := PStr (lit "abc")]> sample_request.

(** The cleanup of a request: the release of its slot, then the abort of
    its request id. *)
Definition cleanup (rid : str) : list event := [EvRelease; EvAbort rid].

(** A trace without acquisition, release or abort. *)
Definition slotless (tr : list event) : Prop :=
  count is_acquire tr = 0%nat /\ count is_release tr = 0%nat /\
  count is_abort tr = 0%nat.

(** The parameter dict an endpoint hands to the worker: the request body
    with the prompt and the request id set. *)
Definition with_prompt (params : dict) (p rid : str) : dict :=
  <["request_id" := PStr rid]> (<["prompt" := PStr p]> params).


(** ** Running the model *)

(** A request arrives with task [t]. *)
Definition arrive (sv : server) (t : task unit) : server :=
  {| the_worker := the_worker sv;
     engine_aborted := engine_aborted sv;
     requests := requests sv ++ [{| code := t; acquired := 0; released := 0 |}] |}.

(** Request [i] performs its next effect, if it can. *)
Definition advance (sv : server) (i : nat) : server :=
  match requests sv !! i with
  | None => sv
  | Some r =>
      match next (code r) with
      | None => sv
      | Some (ev, k) =>
          match perform (the_worker sv) (engine_aborted sv) ev with
          | Done w' aborted' =>
              {| the_worker := w';
                 engine_aborted := aborted';
                 requests := <[i := account ev r k]> (requests sv) |}
          | Fault e =>
              {| the_worker := the_worker sv;
                 engine_aborted := engine_aborted sv;
                 requests := <[i := account EvCancel r (Raise e)]> (requests sv) |}
          | Blocked => sv
          end
      end
  end.

(** The execution that is cancelled at the first suspension it reaches
    after [n] steps. *)
Fixpoint run_cancelled {A : Type} (n : nat) (t : task A) : list event * result A :=
  match t with
  | Return a => ([], Ok a)
  | Raise e => ([], Err e)
  | InitSemaphore k => let '(tr, o) := run_cancelled (pred n) k in (EvInit :: tr, o)
  | SemAcquire k =>
      match n with
      | O => ([EvCancel], Err CancelledError)
      | S n' => let '(tr, o) := run_cancelled n' k in (EvAcquire :: tr, o)
      end
  | SemRelease k => let '(tr, o) := run_cancelled (pred n) k in (EvRelease :: tr, o)
  | CountCall k => let '(tr, o) := run_cancelled (pred n) k in (EvCount :: tr, o)
  | EngineAbort r k => let '(tr, o) := run_cancelled (pred n) k in (EvAbort r :: tr, o)
  | Await k c =>
      match n with
      | O => let '(tr, o) := run_through c in (EvCancel :: tr, o)
      | S n' => let '(tr, o) := run_cancelled n' k in (EvResume :: tr, o)
      end
  | Yield chunk k => let '(tr, o) := run_cancelled (pred n) k in (EvSend chunk :: tr, o)
  end.

(** Parameters with temperature [0] and top_p [0.3]. *)
Definition greedy_params : dict :=
  <["temperature" := PInt 0]> (<["top_p" := PStr (lit "0.3")]> sample_params).

(** Parameters with two stop token ids and a [None] among them. *)
Definition stop_ids_params : dict :=
  <["stop_token_ids" := PList [PInt 5; PNone; PInt 7]]> sample_params.

(** A tokenizer without an end-of-sequence token, which decodes a token,
    whether an int or a string, to its text between angle brackets. *)
Definition eosless_tokenizer : Tokenizer :=
  {| eos_token_id := None;
     tokenizer_decode := fun v =>
       match v with
       | PInt z => Ok (lit "<" ++ int_repr z ++ lit ">")
       | PStr s => Ok (lit "<" ++ s ++ lit ">")
       | _ => Err TypeError
       end |}.

(** Parameters whose stop token ids are given as the string ["ab"]: the
    loop meets its two characters. *)
Definition char_ids_params : dict :=
  <["stop_token_ids" := PStr (lit "ab")]> sample_params.

(** Parameters with [echo] given as [False]. *)
Definition no_echo_params : dict :=
  <["echo" := PBool false]> sample_params.

(** A worker of capacity one after a request to the non-streaming endpoint
    has arrived and acquired the slot. *)
Definition busy_server : server :=
  advance
    (advance
       (arrive (startup 1)
          (serve
             (api_generate (tok := sample_tokenizer) (fs := sample_float_syntax)
                (eng := sample_engine) (cv := sample_conversation)
                sample_request (lit "r1"))))
       0)
    0.

(** ** Further notions *)

(** An engine that ends at once, without any request output. *)
Definition empty_engine : Engine :=
  {| engine_generate := fun _ _ _ => {| request_outputs := []; failure := None |} |}.

(** The result of the engine's run for an accepted request. *)
Definition failure_of {eng : Engine} (s : submission) : option exn :=
  failure (engine_generate (context s) (sampling_params s) (request_id s)).

(** A task that has ended. *)
Definition finished {A : Type} (t : task A) : bool :=
  match t with
  | Return _ | Raise _ => true
  | _ => false
  end.

(** A trace in which the generator runs only while the slot is held (its
    call is counted and its chunks are handed on between the acquisition
    and the release), and the engine's abort is called only when the slot
    is not held. [h] tells whether the slot is held at the start. *)
Fixpoint guarded (h : bool) (tr : list event) : bool :=
  match tr with
  | [] => true
  | EvAcquire :: rest => guarded true rest
  | EvRelease :: rest => guarded false rest
  | EvCount :: rest | EvSend _ :: rest => h && guarded h rest
  | EvAbort _ :: rest => negb h && guarded h rest
  | _ :: rest => guarded h rest
  end.

(** A task that constructs the semaphore before it first uses it. *)
Fixpoint init_first {A : Type} (t : task A) : Prop :=
  match t with
  | Return _ | Raise _ | InitSemaphore _ => True
  | SemAcquire _ | SemRelease _ => False
  | CountCall k | EngineAbort _ k | Yield _ k => init_first k
  | Await k c => init_first k /\ init_first c
  end.

(** No two members of a set are equal, in Python's sense. *)
Fixpoint distinct (st : pyset) : bool :=
  match st with
  | [] => true
  | x :: rest => negb (existsb (py_eqb x) rest) && distinct rest
  end.

(** The values the [stop] parameter names: the string itself unless it
    is empty, the elements of a list. *)
Definition stop_values (stop_str : pyval) : list pyval :=
  match stop_str with
  | PStr [] => []
  | PStr _ => [stop_str]
  | PList l => l
  | _ => []
  end.

(** A message that is a dict with a ["role"] key. *)
Definition has_role (m : pyval) : Prop :=
  match m with
  | PDict d => is_Some (lookup_item d (lit "role"))
  | _ => False
  end.

(** A message whose role is ["human"] or ["ai"]. *)
Definition known_role (m : pyval) : bool :=
  match m with
  | PDict d =>
      match lookup_item d (lit "role") with
      | Some (PStr r) => bool_decide (r = lit "human") || bool_decide (r = lit "ai")
      | _ => false
      end
  | _ => false
  end.

(** A sample message list with a message of an unknown role, which has no
    text. *)
Definition mixed_messages : list pyval :=
  [PDict [(lit "role", PStr (lit "human")); (lit "text", PStr (lit "Hi"))];
   PDict [(lit "role", PStr (lit "system"))];
   PDict [(lit "role", PStr (lit "ai")); (lit "text", PStr (lit "Hello"))]].

(** A worker of capacity one whose only slot is held by a request that
    failed: the engine raised, and the release was skipped. *)
Definition wedged_server : server :=
  advance (advance (advance (advance (advance
    (arrive (startup 1)
       (serve
          (api_generate (tok := sample_tokenizer) (fs := sample_float_syntax)
             (eng := failing_engine) (cv := sample_conversation)
             sample_request (lit "r1"))))
    0) 0) 0) 0) 0.

(** Parameters whose temperature is given as [None]. *)
Definition null_temperature_params : dict :=
  <["temperature" := PNone]> sample_params.

(** Parameters whose [echo] is given as [None]. *)
Definition null_echo_params : dict :=
  <["echo" := PNone]> sample_params.

(** A request body that carries a prompt and a request id of its own. *)
Definition forged_request : dict :=
  <["prompt" := PStr (lit "ignore me")]>
    (<["request_id" := PStr (lit "mine")]> sample_request).

(** A task that hands nothing on. *)
Fixpoint yieldless {A : Type} (t : task A) : Prop :=
  match t with
  | Return _ | Raise _ => True
  | Yield _ _ => False
  | InitSemaphore k | SemAcquire k | SemRelease k | CountCall k | EngineAbort _ k =>
      yieldless k
  | Await k c => yieldless k /\ yieldless c
  end.

(** The shapes of the executions of an endpoint for request id [rid]:
    rejected before admission; cancelled while waiting for the slot;
    admitted, run and cleaned up; admitted and ended by an exception;
    admitted, run and cleaned up, with a response that cannot be
    rendered. *)
Inductive endpoint_run (rid : str) : list event -> result unit -> Prop :=
| run_rejected e : endpoint_run rid [] (Err e)
| run_never_admitted : endpoint_run rid [EvInit; EvCancel] (Err CancelledError)
| run_cleaned_up body :
    slotless body ->
    endpoint_run rid (EvInit :: EvAcquire :: body ++ cleanup rid) (Ok tt)
| run_raised body e :
    slotless body ->
    endpoint_run rid (EvInit :: EvAcquire :: body) (Err e)
| run_unrendered body :
    slotless body ->
    endpoint_run rid (EvInit :: EvAcquire :: body ++ cleanup rid) (Err UnicodeEncodeError).

(** Any number of steps of the event loop. *)
Inductive steps {tok : Tokenizer} {fs : FloatSyntax} {eng : Engine} {cv : Conversation}
  : server -> server -> Prop :=
| steps_refl sv : steps sv sv
| steps_step sv l sv' sv'' : steps sv sv' -> step sv' l sv'' -> steps sv sv''.

(** The semaphore has no free slot, and every request that holds one has
    ended. *)
Definition wedged (sv : server) : Prop :=
  semaphore (the_worker sv) = Some 0%Z /\
  Forall (fun r => holding r = true -> finished (code r) = true) (requests sv).

(** While the semaphore does not exist, every request constructs it before
    it uses it. *)
Definition semaphore_ready (sv : server) : Prop :=
  semaphore (the_worker sv) = None ->
  Forall (fun r => init_first (code r)) (requests sv).

(** A worker of capacity one whose first request has constructed the
    semaphore and is about to acquire it. *)
Definition waiting_server : server :=
  advance
    (arrive (startup 1)
       (serve
          (api_generate (tok := sample_tokenizer) (fs := sample_float_syntax)
             (eng := sample_engine) (cv := sample_conversation)
             sample_request (lit "r1"))))
    0.


(** Parameters whose stop list names the numbers [1], [True] and [1.0]
    and the string ["STOP"], with two stop token ids and a [None]. *)
Definition mixed_stop_params : dict :=
  <["stop" := PList [PInt 1; PBool true; PFloat float_one; PStr (lit "STOP")]]>
    stop_ids_params.

(** A request body without its ["messages"]. *)
Definition headless_request : dict := delete "messages" sample_request.

(** A request output with one completion. *)
Definition sample_output : RequestOutput :=
  {| prompt := lit "Hi"; outputs := [ {| text := lit " one" |} ] |}.

(** ** Parameter normalisation *)

Section Normalisation.
Context {tok : Tokenizer} {fs : FloatSyntax} {eng : Engine}.

Lemma prepare_inv (params : dict) (s : submission) :
  prepare params = Ok s ->
  exists ctx rid t p ids st0,
    getitem params "prompt" = Ok ctx /\
    getitem params "request_id" = Ok rid /\
    py_float (get params "temperature" (PFloat float_one)) = Ok t /\
    py_float (get params "top_p" (PFloat float_one)) = Ok p /\
    (exists v, stop_token_ids_of params = Ok v /\ iterate v = Ok ids) /\
    stop_strings (get params "stop" PNone) = Ok st0 /\
    add_stop_token_ids st0 ids = Ok (stop_set s) /\
    context s = ctx /\ request_id s = rid /\
    echo s = get params "echo" (PBool true) /\
    sampling_params s =
      {| n := 1; temperature := t; top_p := normalize_top_p t p;
         use_beam_search := false; stop := stop_set s;
         max_tokens := get params "max_new_tokens" (PInt 256) |}.
Proof.
  unfold prepare. intros Hp.
  destruct (getitem params "prompt") as [ctx|] eqn:E1; simpl in Hp; [|discriminate].
  destruct (getitem params "request_id") as [rid|] eqn:E2; simpl in Hp; [|discriminate].
  destruct (py_float (get params "temperature" (PFloat float_one))) as [t|] eqn:E3;
    simpl in Hp; [|discriminate].
  destruct (py_float (get params "top_p" (PFloat float_one))) as [p|] eqn:E4;
    simpl in Hp; [|discriminate].
  destruct (stop_token_ids_of params) as [v|] eqn:E5; simpl in Hp; [|discriminate].
  destruct (stop_strings (get params "stop" PNone)) as [st0|] eqn:E6;
    simpl in Hp; [|discriminate].
  destruct (iterate v) as [ids|] eqn:E8; simpl in Hp; [|discriminate].
  destruct (add_stop_token_ids st0 ids) as [st|] eqn:E7; simpl in Hp; [|discriminate].
  injection Hp as <-. simpl.
  exists ctx, rid, t, p, ids, st0. repeat split; eauto.
Qed.

(** *** The nucleus-sampling threshold *)

Lemma float_max_floor_not_zero (p : spec_float) :
  SFeqb (float_max p float_1e_5) float_zero = false /\
  forall sg, float_max p float_1e_5 <> S754_zero sg.
Proof.
  unfold float_max.
  destruct (SFltb p float_1e_5) eqn:Hlt.
  - split; [reflexivity | intros sg; discriminate].
  - destruct p as [sg| sg | | sg m e].
    + destruct sg; vm_compute in Hlt; discriminate.
    + split; [destruct sg; reflexivity | intros sg'; discriminate].
    + split; [reflexivity | intros sg'; discriminate].
    + split; [destruct sg; reflexivity | intros sg'; discriminate].
Qed.

Lemma normalize_top_p_not_zero (t p : spec_float) :
  SFeqb (normalize_top_p t p) float_zero = false /\
  forall sg, normalize_top_p t p <> S754_zero sg.
Proof.
  unfold normalize_top_p.
  destruct (SFleb t float_1e_5).
  - split; [reflexivity | intros sg; discriminate].
  - apply float_max_floor_not_zero.
Qed.

(** C6. For every parameter dict that [generate_stream] accepts, the
    [top_p] handed to the engine is never zero: a supplied [top_p] below
    [1e-5] is raised to [1e-5], and a temperature of at most [1e-5] forces
    [top_p] to [1.0] whatever was supplied. Temperature [0] with [top_p]
    [0.3] gives [1.0]; temperature [0.7] with [top_p] [0] gives [1e-5]. *)
Theorem C6_top_p_never_zero (params : dict) (s : submission) :
  prepare params = Ok s ->
  exists t p,
    py_float (get params "temperature" (PFloat float_one)) = Ok t /\
    py_float (get params "top_p" (PFloat float_one)) = Ok p /\
    temperature (sampling_params s) = t /\
    SFeqb (top_p (sampling_params s)) float_zero = false /\
    (forall sg, top_p (sampling_params s) <> S754_zero sg) /\
    (SFltb p float_1e_5 = true -> float_max p float_1e_5 = float_1e_5) /\
    (SFleb t float_1e_5 = true -> top_p (sampling_params s) = float_one) /\
    (SFleb t float_1e_5 = false -> SFltb p float_1e_5 = true ->
     top_p (sampling_params s) = float_1e_5) /\
    (SFleb t float_1e_5 = false -> SFltb p float_1e_5 = false ->
     top_p (sampling_params s) = p) /\
    normalize_top_p float_zero float_0_3 = float_one /\
    normalize_top_p float_0_7 float_zero = float_1e_5.
Proof.
  intros Hp.
  destruct (prepare_inv _ _ Hp)
    as (ctx & rid & t & p & ids & st0 & _ & _ & Ht & Hq & _ & _ & _ & _ & _ & _ & Hsp).
  exists t, p. rewrite Hsp. simpl.
  destruct (normalize_top_p_not_zero t p) as [Hz1 Hz2].
  repeat split; auto.
  - unfold float_max. intros ->. reflexivity.
  - unfold normalize_top_p. intros ->. reflexivity.
  - unfold normalize_top_p, float_max. intros -> ->. reflexivity.
  - unfold normalize_top_p, float_max. intros -> ->. reflexivity.
Qed.

(** *** The stop set *)

Lemma number_eqb_sym (x y : Z * Z) : number_eqb x y = number_eqb y x.
Proof. unfold number_eqb. rewrite (Z.min_comm (snd x)). apply Z.eqb_sym. Qed.

Lemma py_eqb_sym (a b : pyval) : py_eqb a b = py_eqb b a.
Proof.
  unfold py_eqb.
  destruct (number a) as [x|] eqn:Ha, (number b) as [y|] eqn:Hb;
    try reflexivity; [apply number_eqb_sym|].
  destruct a as [| | |[| | |]| | |], b as [| | |[| | |]| | |]; try reflexivity.
  - destruct s, s0; reflexivity.
  - apply bool_decide_ext. split; congruence.
Qed.

Lemma py_eqb_refl (v : pyval) : hashable v = true -> py_eqb v v = true.
Proof.
  unfold py_eqb, number_eqb. intros Hh.
  destruct v as [| | |[| | |]| | |]; try discriminate; cbn;
    try apply Z.eqb_refl; try reflexivity.
  - destruct s; reflexivity.
  - apply bool_decide_eq_true_2. reflexivity.
Qed.

Lemma py_eqb_str (s : str) (x : pyval) :
  py_eqb (PStr s) x = true <-> x = PStr s.
Proof.
  split.
  - destruct x as [| | |[| | |]| | |]; cbn; try discriminate.
    intros H. apply bool_decide_eq_true_1 in H. congruence.
  - intros ->. apply py_eqb_refl. reflexivity.
Qed.

Lemma existsb_elem_of (p : pyval -> bool) (st : pyset) :
  existsb p st = true <-> exists x, x ∈ st /\ p x = true.
Proof.
  rewrite existsb_exists. split; intros (x & Hin & Hp); exists x;
    (split; [apply list_elem_of_In; exact Hin | exact Hp]).
Qed.

Lemma member_str (s : str) (st : pyset) :
  existsb (py_eqb (PStr s)) st = true <-> PStr s ∈ st.
Proof.
  rewrite existsb_elem_of. split.
  - intros (x & Hin & Heq). apply py_eqb_str in Heq. subst x. exact Hin.
  - intros Hin. exists (PStr s). split; [exact Hin|]. apply py_eqb_str. reflexivity.
Qed.

Lemma set_add_elem_of (st : pyset) (v x : pyval) :
  x ∈ set_add st v <-> x ∈ st \/ (x = v /\ existsb (py_eqb v) st = false).
Proof.
  unfold set_add. destruct (existsb (py_eqb v) st) eqn:He.
  - split; [auto | intros [H|[_ H]]; [exact H | discriminate]].
  - rewrite elem_of_app, list_elem_of_singleton. split; intros [H|H]; auto.
    + destruct H as [H _]. auto.
Qed.

Lemma set_add_subseteq (st : pyset) (v x : pyval) : x ∈ st -> x ∈ set_add st v.
Proof. intros H. apply set_add_elem_of. left. exact H. Qed.

Lemma set_add_str (st : pyset) (s : str) : PStr s ∈ set_add st (PStr s).
Proof.
  apply set_add_elem_of.
  destruct (existsb (py_eqb (PStr s)) st) eqn:He.
  - left. apply member_str. exact He.
  - right. split; reflexivity.
Qed.

Lemma stop_update_strs (l l0 : list str) :
  NoDup l0 ->
  exists l',
    stop_update (PStr <$> l0) (PStr <$> l) = Ok (PStr <$> l') /\
    NoDup l' /\
    forall s, s ∈ l' <-> s ∈ l0 \/ s ∈ l.
Proof.
  revert l0. induction l as [|x l IH]; intros l0 Hnd.
  - exists l0. split; [reflexivity|]. split; [exact Hnd|].
    intros s. split; [auto | intros [H|H]; [exact H | inversion H]].
  - cbn [fmap list_fmap stop_update hashable]. unfold set_add.
    destruct (existsb (py_eqb (PStr x)) (PStr <$> l0)) eqn:He.
    + apply member_str in He.
      apply list_elem_of_fmap in He as (y & Hy & Hin). injection Hy as <-.
      destruct (IH l0 Hnd) as (l' & Heq & Hnd' & Hmem).
      exists l'. split; [exact Heq|]. split; [exact Hnd'|].
      intros s. rewrite Hmem, elem_of_cons. split; [tauto|].
      intros [H|[->|H]]; auto.
    + assert (Hx : x ∉ l0).
      { intros Hin. apply not_true_iff_false in He. apply He, member_str.
        apply list_elem_of_fmap. exists x. auto. }
      change [PStr x] with (PStr <$> [x]). rewrite <- fmap_app.
      destruct (IH (l0 ++ [x])) as (l' & Heq & Hnd' & Hmem).
      { apply NoDup_app. split; [exact Hnd|]. split; [|apply NoDup_singleton].
        intros y Hy Hy'. apply list_elem_of_singleton in Hy'. subst y. auto. }
      exists l'. split; [exact Heq|]. split; [exact Hnd'|].
      intros s. rewrite Hmem, elem_of_app, list_elem_of_singleton, elem_of_cons. tauto.
Qed.

(** C7. An absent stop parameter, a single string and a list of strings
    all normalise to a set of strings: the empty set, the set of that
    string (empty for the empty string), and the set of the list's
    elements, each of them once. The string ["STOP"] and the list
    [["STOP"]] give the same set, which has one element. *)
Theorem C7_stop_normalises_to_a_set :
  (forall params : dict,
      params !! "stop" = None ->
      stop_strings (get params "stop" PNone) = Ok []) /\
  (forall s : str,
      stop_strings (PStr s) = Ok (if decide (s = []) then [] else [PStr s])) /\
  (forall l : list str,
      exists l' : list str,
        stop_strings (PList (PStr <$> l)) = Ok (PStr <$> l') /\
        NoDup l' /\
        forall s, s ∈ l' <-> s ∈ l) /\
  stop_strings (PStr (lit "STOP")) = Ok [PStr (lit "STOP")] /\
  stop_strings (PList [PStr (lit "STOP")]) = Ok [PStr (lit "STOP")] /\
  length [PStr (lit "STOP")] = 1%nat.
Proof.
  split; [|split; [|split; [|split; [|split]]]].
  - intros params Hn. unfold get. rewrite Hn. reflexivity.
  - intros s. destruct s as [|c s]; reflexivity.
  - intros l. unfold stop_strings. destruct l as [|x l].
    + exists []. split; [reflexivity|]. split; [constructor|]. tauto.
    + change (PList (PStr <$> x :: l)) with (PList (PStr x :: (PStr <$> l))).
      cbv beta iota.
      change (PStr x :: (PStr <$> l)) with (PStr <$> (x :: l)).
      destruct (stop_update_strs (x :: l) [] (NoDup_nil_2)) as (l' & Heq & Hnd & Hmem).
      exists l'. split; [exact Heq|]. split; [exact Hnd|].
      intros s. rewrite Hmem. split; [intros [H|H]; [inversion H | exact H] | auto].
  - reflexivity.
  - vm_compute. reflexivity.
  - reflexivity.
Qed.

Lemma add_stop_token_ids_step (tid : pyval) (ids : list pyval) (st st' : pyset) :
  add_stop_token_ids st (tid :: ids) = Ok st' ->
  tid = PNone /\ add_stop_token_ids st ids = Ok st' \/
  exists d, tid <> PNone /\ tokenizer_decode tid = Ok d /\
            add_stop_token_ids (set_add st (PStr d)) ids = Ok st'.
Proof.
  intros Hadd.
  destruct tid; simpl in Hadd; try (left; split; [reflexivity|exact Hadd]);
    right;
    match type of Hadd with
    | context [tokenizer_decode ?v] =>
        destruct (tokenizer_decode v) as [dec|] eqn:Hd; simpl in Hadd;
        [exists dec; split; [discriminate|]; split; [reflexivity | exact Hadd]
        | discriminate]
    end.
Qed.

Lemma add_stop_token_ids_spec (ids : list pyval) (st st' : pyset) :
  add_stop_token_ids st ids = Ok st' ->
  (forall x, x ∈ st -> x ∈ st') /\
  forall tid, tid ∈ ids -> tid <> PNone ->
    exists d, tokenizer_decode tid = Ok d /\ PStr d ∈ st'.
Proof.
  revert st. induction ids as [|tid ids IH]; intros st Hadd.
  - simpl in Hadd. injection Hadd as <-. split; [auto|].
    intros tid Hin. inversion Hin.
  - destruct (add_stop_token_ids_step _ _ _ _ Hadd)
      as [[-> Hrest] | (d & _ & Hd & Hrest)].
    + destruct (IH _ Hrest) as [Hsub Hall]. split; [exact Hsub|].
      intros tid Hin Hne. apply elem_of_cons in Hin as [->|Hin]; [congruence|].
      apply Hall; assumption.
    + destruct (IH _ Hrest) as [Hsub Hall].
      assert (Hs : PStr d ∈ st') by (apply Hsub, set_add_str).
      split; [intros x Hx; apply Hsub, set_add_subseteq; exact Hx|].
      intros tid' Hin Hne. apply elem_of_cons in Hin as [->|Hin].
      * exists d. split; assumption.
      * apply Hall; assumption.
Qed.

(** C8. When [generate_stream] reaches the engine, every stop token id
    the caller supplied (every element of the list that is not [None], and
    in general every value the loop over [stop_token_ids] meets) has been
    decoded and its string is in the stop set handed to the engine; and
    when the tokenizer has an end-of-sequence token id, the string it
    decodes to is in that set whatever the caller supplied. *)
Theorem C8_stop_token_ids_merged (params : dict) (s : submission) :
  prepare params = Ok s ->
  (forall l tid,
      params !! "stop_token_ids" = Some (PList l) ->
      tid ∈ l -> tid <> PNone ->
      exists d, tokenizer_decode tid = Ok d /\ PStr d ∈ stop_set s /\
                PStr d ∈ stop (sampling_params s)) /\
  (forall v tids tid,
      params !! "stop_token_ids" = Some v ->
      iterate v = Ok tids ->
      tid ∈ tids -> tid <> PNone ->
      exists d, tokenizer_decode tid = Ok d /\ PStr d ∈ stop_set s /\
                PStr d ∈ stop (sampling_params s)) /\
  (forall eos,
      eos_token_id = Some eos ->
      exists d, tokenizer_decode (PInt eos) = Ok d /\ PStr d ∈ stop_set s /\
                PStr d ∈ stop (sampling_params s)).
Proof.
  intros Hp.
  destruct (prepare_inv _ _ Hp)
    as (ctx & rid & t & p & ids & st0 & _ & _ & _ & _ & (w & Hids & Hiter) & _ & Hadd
        & _ & _ & _ & Hsp).
  destruct (add_stop_token_ids_spec _ _ _ Hadd) as [_ Hall].
  assert (Hstop : forall x, x ∈ stop_set s -> x ∈ stop (sampling_params s)).
  { intros x Hx. rewrite Hsp. exact Hx. }
  assert (Hgen : forall v tids tid,
            params !! "stop_token_ids" = Some v -> iterate v = Ok tids ->
            tid ∈ tids -> tid ∈ ids).
  { intros v tids tid Hv Hit Hin.
    unfold stop_token_ids_of, get in Hids. rewrite Hv in Hids.
    unfold default in Hids. cbn [from_option id] in Hids.
    destruct (truthy v) eqn:Htr.
    - destruct eos_token_id as [eos|].
      + destruct v; try discriminate. injection Hids as <-.
        cbn [iterate] in Hit, Hiter. injection Hit as <-. injection Hiter as <-.
        apply elem_of_app. left. exact Hin.
      + injection Hids as <-. rewrite Hit in Hiter. injection Hiter as <-. exact Hin.
    - destruct v as [| | | |[|c r]|[|x r]|[|kv r]]; cbn in Htr, Hit;
        try discriminate; injection Hit as <-; inversion Hin. }
  split; [|split].
  - intros l tid Hl Hin Hne.
    destruct (Hall tid (Hgen _ _ _ Hl eq_refl Hin) Hne) as (d & Hd & Hin').
    exists d. auto.
  - intros v tids tid Hv Hit Hin Hne.
    destruct (Hall tid (Hgen _ _ _ Hv Hit Hin) Hne) as (d & Hd & Hin').
    exists d. auto.
  - intros eos Heos.
    assert (Hsub : PInt eos ∈ ids).
    { unfold stop_token_ids_of in Hids. rewrite Heos in Hids.
      destruct (if truthy (get params "stop_token_ids" PNone)
                then get params "stop_token_ids" PNone else PList []);
        try discriminate.
      injection Hids as <-. cbn [iterate] in Hiter. injection Hiter as <-.
      apply elem_of_app. right. apply list_elem_of_singleton. reflexivity. }
    destruct (Hall (PInt eos) Hsub) as (d & Hd & Hin'); [discriminate|].
    exists d. auto.
Qed.

End Normalisation.

(** ** The JSON text of a unit and its reading *)

Lemma hex_value_hex_digit (d : N) :
  (d < 16)%N -> hex_value (hex_digit d) = Some d.
Proof.
  intros Hd. unfold hex_digit, hex_value.
  destruct (N.ltb_spec d 10) as [Hlt|Hge].
  - replace ((48 <=? 48 + d) && (48 + d <=? 57))%N with true.
    + f_equal. lia.
    + symmetry. apply andb_true_iff. split; apply N.leb_le; lia.
  - replace ((48 <=? 87 + d) && (87 + d <=? 57))%N with false.
    + replace ((97 <=? 87 + d) && (87 + d <=? 102))%N with true.
      * f_equal. lia.
      * symmetry. apply andb_true_iff. split; apply N.leb_le; lia.
    + symmetry. apply andb_false_iff. right. apply N.leb_gt. lia.
Qed.

Lemma hex_digits_sum (n : N) :
  (n < 65536)%N ->
  (n / 4096 mod 16 * 4096 + n / 256 mod 16 * 256 + n / 16 mod 16 * 16 + n mod 16 = n)%N.
Proof.
  intros Hn. zify. Z.to_euclidean_division_equations. lia.
Qed.

Lemma decode_hex4 (n : N) :
  (n < 65536)%N ->
  match hex4 n with
  | [a; b; c; d] => decode_uXXXX a b c d = Some n
  | _ => False
  end.
Proof.
  intros Hn. unfold hex4, decode_uXXXX.
  rewrite !hex_value_hex_digit by (apply N.mod_lt; discriminate).
  f_equal. apply hex_digits_sum. exact Hn.
Qed.

Lemma lor_high_low (a b k : N) :
  (b < 2 ^ k)%N -> N.lor (a * 2 ^ k) b = (a * 2 ^ k + b)%N.
Proof.
  intros Hb.
  assert (Hland : N.land (a * 2 ^ k) b = 0%N).
  { apply N.bits_inj. intros m. rewrite N.land_spec, N.bits_0.
    destruct (N.lt_ge_cases m k) as [Hlt|Hge].
    - rewrite N.mul_pow2_bits_low by exact Hlt. reflexivity.
    - rewrite <- (N.mod_small b (2 ^ k)) by exact Hb.
      rewrite N.mod_pow2_bits_high by exact Hge. apply andb_false_r. }
  rewrite <- N.lxor_lor by exact Hland.
  symmetry. apply N.add_nocarry_lxor. exact Hland.
Qed.

Lemma land_3ff (x : N) : (N.land x 0x3ff = x mod 1024)%N.
Proof. change 0x3ff%N with (N.ones 10). rewrite N.land_ones. reflexivity. Qed.

Lemma high_of_value (c : N) :
  high_of c = (0xd800 + ((c - 0x10000) / 1024) mod 1024)%N.
Proof.
  unfold high_of. rewrite land_3ff, N.shiftr_div_pow2.
  change 0xd800%N with (54 * 2 ^ 10)%N. change (2 ^ 10)%N with 1024%N.
  change 1024%N with (2 ^ 10)%N at 1.
  apply lor_high_low. apply N.mod_lt. discriminate.
Qed.

Lemma low_of_value (c : N) :
  low_of c = (0xdc00 + (c - 0x10000) mod 1024)%N.
Proof.
  unfold low_of. rewrite land_3ff.
  change 0xdc00%N with (55 * 2 ^ 10)%N.
  apply lor_high_low. apply N.mod_lt. discriminate.
Qed.

Lemma combine_surrogates_value (hi lo : N) :
  (0xd800 <= hi)%N -> (0xdc00 <= lo <= 0xdfff)%N ->
  combine_surrogates hi lo = (0x10000 + (hi - 0xd800) * 1024 + (lo - 0xdc00))%N.
Proof.
  intros Hhi Hlo. unfold combine_surrogates.
  rewrite N.shiftl_mul_pow2. rewrite lor_high_low.
  - change (2 ^ 10)%N with 1024%N. lia.
  - change (2 ^ 10)%N with 1024%N. lia.
Qed.

Lemma combine_high_low (c : N) :
  (0x10000 <= c < 0x110000)%N ->
  combine_surrogates (high_of c) (low_of c) = c.
Proof.
  intros Hc.
  pose proof (high_of_value c) as Hh. pose proof (low_of_value c) as Hl.
  rewrite combine_surrogates_value.
  - rewrite Hh, Hl. zify. Z.to_euclidean_division_equations. lia.
  - rewrite Hh. zify. Z.to_euclidean_division_equations. lia.
  - rewrite Hl. zify. Z.to_euclidean_division_equations. lia.
Qed.

Lemma high_of_range (c : N) : (0xd800 <= high_of c <= 0xdbff)%N.
Proof. rewrite high_of_value. zify. Z.to_euclidean_division_equations. lia. Qed.

Lemma low_of_range (c : N) : (0xdc00 <= low_of c <= 0xdfff)%N.
Proof. rewrite low_of_value. zify. Z.to_euclidean_division_equations. lia. Qed.


(** *** [scanstring] on escaped text *)

Lemma scanstring_plain (c : N) (r : str) :
  c <> 34%N -> c <> 92%N -> (32 <= c)%N ->
  scanstring (c :: r) = scanned c (scanstring r).
Proof.
  intros H34 H92 H32. cbn [scanstring].
  rewrite (proj2 (N.eqb_neq c 34) H34), (proj2 (N.eqb_neq c 92) H92).
  rewrite (proj2 (N.ltb_ge c 32) H32). reflexivity.
Qed.

Lemma scanstring_short (e ch : N) (r : str) :
  e <> 117%N -> unescape e = Some ch ->
  scanstring (92%N :: e :: r) = scanned ch (scanstring r).
Proof.
  intros H117 Hun. cbn [scanstring].
  change (92 =? 34)%N with false. change (92 =? 92)%N with true. cbv iota.
  rewrite (proj2 (N.eqb_neq e 117) H117), Hun. reflexivity.
Qed.

Lemma scanstring_u (h1 h2 h3 h4 uni : N) (r2 : str) :
  decode_uXXXX h1 h2 h3 h4 = Some uni ->
  scanstring (92%N :: 117%N :: h1 :: h2 :: h3 :: h4 :: r2) =
  if is_high_surrogate uni then
    match low_escape r2 with
    | Some (uni2, r3) => scanned (combine_surrogates uni uni2) (scanstring r3)
    | None => scanned uni (scanstring r2)
    end
  else scanned uni (scanstring r2).
Proof.
  intros Hdec. cbn [scanstring].
  change (92 =? 34)%N with false. change (92 =? 92)%N with true.
  change (117 =? 117)%N with true. cbv iota.
  rewrite Hdec. destruct (is_high_surrogate uni); [|reflexivity].
  destruct r2 as [|b [|u [|l1 [|l2 [|l3 [|l4 r3]]]]]]; try reflexivity.
  unfold low_escape.
  destruct ((b =? 92) && (u =? 117))%N eqn:Hbu; [|reflexivity].
  destruct (decode_uXXXX l1 l2 l3 l4) as [uni2|] eqn:Hdec2.
  - destruct (is_low_surrogate uni2); reflexivity.
  - apply andb_true_iff in Hbu as [Hb Hu].
    apply N.eqb_eq in Hb, Hu. subst b u.
    cbn [scanstring].
    change (92 =? 34)%N with false. change (92 =? 92)%N with true.
    change (117 =? 117)%N with true. cbv iota.
    rewrite Hdec2. reflexivity.
Qed.

Lemma scanstring_u_escape (n : N) (r2 : str) :
  (n < 65536)%N ->
  scanstring (u_escape n ++ r2) =
  if is_high_surrogate n then
    match low_escape r2 with
    | Some (uni2, r3) => scanned (combine_surrogates n uni2) (scanstring r3)
    | None => scanned n (scanstring r2)
    end
  else scanned n (scanstring r2).
Proof.
  intros Hn. pose proof (decode_hex4 n Hn) as Hdec.
  unfold u_escape, hex4 in *. apply scanstring_u. exact Hdec.
Qed.

Lemma low_escape_u_escape (n : N) (r : str) :
  (n < 65536)%N ->
  low_escape (u_escape n ++ r) = if is_low_surrogate n then Some (n, r) else None.
Proof.
  intros Hn. pose proof (decode_hex4 n Hn) as Hdec.
  unfold u_escape, hex4 in *. cbn [app low_escape].
  change ((92 =? 92) && (117 =? 117))%N with true. cbv iota.
  rewrite Hdec. reflexivity.
Qed.

Lemma low_escape_other (b : N) (r : str) :
  b <> 92%N -> low_escape (b :: r) = None.
Proof.
  intros Hb. destruct r as [|u [|l1 [|l2 [|l3 [|l4 r3]]]]]; try reflexivity.
  unfold low_escape. rewrite (proj2 (N.eqb_neq b 92) Hb). reflexivity.
Qed.

Lemma low_escape_short (e : N) (r : str) :
  e <> 117%N -> low_escape (92%N :: e :: r) = None.
Proof.
  intros He. destruct r as [|l1 [|l2 [|l3 [|l4 r3]]]]; try reflexivity.
  unfold low_escape. rewrite (proj2 (N.eqb_neq e 117) He). reflexivity.
Qed.

Lemma escape_char_shape (c : N) : escape_shape c (escape_char c).
Proof.
  unfold escape_char.
  destruct (N.eqb_spec c 34) as [->|H34];
    [apply (shape_short 34 34); [discriminate | reflexivity | reflexivity]|].
  destruct (N.eqb_spec c 92) as [->|H92];
    [apply (shape_short 92 92); [discriminate | reflexivity | reflexivity]|].
  destruct (N.eqb_spec c 10) as [->|H10];
    [apply (shape_short 10 110); [discriminate | reflexivity | reflexivity]|].
  destruct (N.eqb_spec c 13) as [->|H13];
    [apply (shape_short 13 114); [discriminate | reflexivity | reflexivity]|].
  destruct (N.eqb_spec c 9) as [->|H9];
    [apply (shape_short 9 116); [discriminate | reflexivity | reflexivity]|].
  destruct (N.eqb_spec c 12) as [->|H12];
    [apply (shape_short 12 102); [discriminate | reflexivity | reflexivity]|].
  destruct (N.eqb_spec c 8) as [->|H8];
    [apply (shape_short 8 98); [discriminate | reflexivity | reflexivity]|].
  destruct (N.leb_spec 32 c) as [H32|H32]; cbn [andb].
  - destruct (N.leb_spec c 126) as [H126|H126].
    + apply shape_plain; [assumption | assumption | lia].
    + destruct (N.ltb_spec c 0x10000) as [Hlt|Hge].
      * apply shape_u. exact Hlt.
      * apply shape_pair. exact Hge.
  - destruct (N.ltb_spec c 0x10000) as [Hlt|Hge].
    + apply shape_u. exact Hlt.
    + apply shape_pair. exact Hge.
Qed.

Lemma is_high_surrogate_true (c : N) :
  is_high_surrogate c = true <-> (0xd800 <= c <= 0xdbff)%N.
Proof.
  unfold is_high_surrogate. rewrite andb_true_iff, !N.leb_le. reflexivity.
Qed.

Lemma is_low_surrogate_true (c : N) :
  is_low_surrogate c = true <-> (0xdc00 <= c <= 0xdfff)%N.
Proof.
  unfold is_low_surrogate. rewrite andb_true_iff, !N.leb_le. reflexivity.
Qed.

Lemma is_high_surrogate_false (c : N) :
  (c < 0xd800 \/ 0xdbff < c)%N -> is_high_surrogate c = false.
Proof.
  intros Hc. destruct (is_high_surrogate c) eqn:E; [|reflexivity].
  apply is_high_surrogate_true in E. lia.
Qed.

Lemma is_low_surrogate_false (c : N) :
  (c < 0xdc00 \/ 0xdfff < c)%N -> is_low_surrogate c = false.
Proof.
  intros Hc. destruct (is_low_surrogate c) eqn:E; [|reflexivity].
  apply is_low_surrogate_true in E. lia.
Qed.

Lemma unescape_small (e c : N) : unescape e = Some c -> (c <= 92)%N.
Proof.
  unfold unescape.
  repeat match goal with
         | |- context [(e =? ?k)%N] => destruct (e =? k)%N
         end; intros Hc; inversion Hc; subst; lia.
Qed.

(** What follows the escape of a high surrogate: the escape of a low
    surrogate exactly when the next character is one. *)
Lemma low_escape_escape_char (l : N) (r : str) :
  low_escape (escape_char l ++ r) =
  if ((l <? 0x10000) && is_low_surrogate l)%N then Some (l, r) else None.
Proof.
  destruct (escape_char_shape l) as [e He Hun Hlt | H34 H92 Hr | Hlt | Hge].
  - cbn [app]. rewrite low_escape_short by exact He.
    rewrite (is_low_surrogate_false l) by lia. rewrite andb_false_r. reflexivity.
  - cbn [app]. rewrite low_escape_other by exact H92.
    rewrite (is_low_surrogate_false l) by lia. rewrite andb_false_r. reflexivity.
  - rewrite low_escape_u_escape by lia.
    rewrite (proj2 (N.ltb_lt l 0x10000) Hlt). reflexivity.
  - rewrite <- app_assoc.
    pose proof (high_of_range l) as Hh.
    rewrite low_escape_u_escape by lia.
    rewrite (is_low_surrogate_false (high_of l)) by lia.
    rewrite (proj2 (N.ltb_ge l 0x10000) Hge). reflexivity.
Qed.

Lemma low_escape_end (rest : str) : low_escape (34%N :: rest) = None.
Proof. apply low_escape_other. discriminate. Qed.

Lemma scanstring_escape_char (c : N) (x : str) :
  scanstring (escape_char c ++ x) =
  if (0x10000 <=? c)%N then scanned (combine_surrogates (high_of c) (low_of c)) (scanstring x)
  else if is_high_surrogate c then
    match low_escape x with
    | Some (uni2, r3) => scanned (combine_surrogates c uni2) (scanstring r3)
    | None => scanned c (scanstring x)
    end
  else scanned c (scanstring x).
Proof.
  destruct (escape_char_shape c) as [e He Hun Hlt | H34 H92 Hr | Hlt | Hge].
  - cbn [app]. rewrite (scanstring_short e c) by assumption.
    rewrite (proj2 (N.leb_gt 0x10000 c)) by lia.
    rewrite is_high_surrogate_false by lia. reflexivity.
  - cbn [app]. rewrite scanstring_plain by (assumption || lia).
    rewrite (proj2 (N.leb_gt 0x10000 c)) by lia.
    rewrite is_high_surrogate_false by lia. reflexivity.
  - rewrite scanstring_u_escape by lia.
    rewrite (proj2 (N.leb_gt 0x10000 c)) by lia. reflexivity.
  - rewrite <- app_assoc.
    pose proof (high_of_range c) as Hh. pose proof (low_of_range c) as Hl.
    rewrite scanstring_u_escape by lia.
    rewrite (proj2 (is_high_surrogate_true (high_of c))) by lia.
    rewrite low_escape_u_escape by lia.
    rewrite (proj2 (is_low_surrogate_true (low_of c))) by lia.
    rewrite (proj2 (N.leb_le 0x10000 c)) by lia. reflexivity.
Qed.

Lemma scanstring_escape_bounded (k : nat) :
  forall (t rest : str),
    (length t <= k)%nat ->
    scanstring (escape t ++ 34%N :: rest) = Some (reread t, rest).
Proof.
  induction k as [|k IH]; intros t rest Hlen.
  - destruct t; [reflexivity | simpl in Hlen; lia].
  - destruct t as [|c r]; [reflexivity|].
    simpl in Hlen.
    change (escape (c :: r)) with (escape_char c ++ escape r).
    rewrite <- app_assoc. rewrite scanstring_escape_char.
    cbn [reread].
    destruct (0x10000 <=? c)%N.
    { rewrite IH by lia. reflexivity. }
    destruct (is_high_surrogate c) eqn:Hhigh.
    2:{ rewrite IH by lia. reflexivity. }
    destruct r as [|l r'].
    { cbn [escape flat_map app]. rewrite low_escape_end.
      reflexivity. }
    change (escape (l :: r')) with (escape_char l ++ escape r').
    rewrite <- app_assoc. rewrite low_escape_escape_char.
    destruct (is_low_surrogate l) eqn:Hlow.
    + apply is_low_surrogate_true in Hlow.
      rewrite (proj2 (N.ltb_lt l 0x10000)) by lia. cbn [andb].
      simpl in Hlen. rewrite IH by lia. reflexivity.
    + rewrite andb_false_r.
      rewrite app_assoc.
      change (escape_char l ++ escape r') with (escape (l :: r')).
      rewrite IH by (simpl in *; lia). reflexivity.
Qed.

Lemma scanstring_escape (t rest : str) :
  scanstring (escape t ++ 34%N :: rest) = Some (reread t, rest).
Proof. apply (scanstring_escape_bounded (length t)). reflexivity. Qed.

Lemma reread_no_surrogate_pair (t : str) :
  Forall valid_code_point t -> no_surrogate_pair t -> reread t = t.
Proof.
  induction t as [|c r IH]; intros Hv Hn; [reflexivity|].
  inversion Hv as [|? ? Hc Hr]; subst.
  cbn [reread].
  assert (IH' : reread r = r).
  { apply IH; [exact Hr|]. destruct r; [exact I | apply Hn]. }
  destruct (N.leb_spec 0x10000 c) as [Hge|Hlt].
  - rewrite combine_high_low by (unfold valid_code_point in Hc; lia).
    rewrite IH'. reflexivity.
  - destruct (is_high_surrogate c) eqn:Hhigh; [|rewrite IH'; reflexivity].
    destruct r as [|l r']; [reflexivity|].
    destruct Hn as [Hpair _]. rewrite Hhigh in Hpair. cbn [andb] in Hpair.
    rewrite Hpair, IH'. reflexivity.
Qed.


(** *** The JSON text of a unit *)

Lemma json_dumps_ret (t : str) :
  json_dumps (ret t) = ret_prefix ++ escape t ++ ret_suffix.
Proof.
  unfold ret. cbn [json_dumps map join fst snd]. unfold encode_basestring_ascii at 2.
  generalize (escape t). intros e.
  rewrite <- !app_assoc. cbn [app]. rewrite <- !app_assoc.
  vm_compute. reflexivity.
Qed.

Lemma parse_members_more (f : nat) (pairs : list (str * json)) (s : str)
    (key : str) (x : str) (v : json) (y : str) :
  scanstring s = Some (key, 58%N :: 32%N :: x) ->
  skip_whitespace x = x ->
  parse_value f x = Some (v, 44%N :: 32%N :: 34%N :: y) ->
  parse_members (S f) pairs s = parse_members f ((key, v) :: pairs) y.
Proof.
  intros Hkey Hx Hv. cbn [parse_members]. rewrite Hkey.
  change (skip_whitespace (58%N :: 32%N :: x)) with (58%N :: 32%N :: x).
  change (58 =? 58)%N with true. cbv iota.
  change (skip_whitespace (32%N :: x)) with (skip_whitespace x).
  rewrite Hx, Hv. reflexivity.
Qed.

Lemma parse_members_last (f : nat) (pairs : list (str * json)) (s : str)
    (key : str) (x : str) (v : json) (y : str) :
  scanstring s = Some (key, 58%N :: 32%N :: x) ->
  skip_whitespace x = x ->
  parse_value f x = Some (v, 125%N :: y) ->
  parse_members (S f) pairs s = Some (JObj (dict_of_pairs (rev ((key, v) :: pairs))), y).
Proof.
  intros Hkey Hx Hv. cbn [parse_members]. rewrite Hkey.
  change (skip_whitespace (58%N :: 32%N :: x)) with (58%N :: 32%N :: x).
  change (58 =? 58)%N with true. cbv iota.
  change (skip_whitespace (32%N :: x)) with (skip_whitespace x).
  rewrite Hx, Hv. reflexivity.
Qed.

Lemma parse_value_string (f : nat) (t y : str) :
  parse_value (S f) (34%N :: escape t ++ 34%N :: y) = Some (JStr (reread t), y).
Proof.
  cbn [parse_value]. change (34 =? 34)%N with true. cbv iota.
  rewrite scanstring_escape. reflexivity.
Qed.

Lemma parse_ret (t : str) (fuel : nat) :
  parse_value (S (S (S (S (S fuel))))) (ret_prefix ++ escape t ++ ret_suffix)
  = Some (ret (reread t), []).
Proof.
  unfold ret_prefix, ret_suffix. cbn [app].
  change (parse_value (S (S (S (S (S fuel))))) (123%N :: 34%N :: ?r))
    with (parse_members (S (S (S (S fuel)))) [] r).
  erewrite parse_members_more;
    [ | reflexivity | reflexivity | apply parse_value_string ].
  erewrite parse_members_more; [ | reflexivity | reflexivity | reflexivity ].
  erewrite parse_members_last; [ | reflexivity | reflexivity | reflexivity ].
  reflexivity.
Qed.

(** [json.loads] reads the text of a unit back as the unit, with its text
    reread. *)
Lemma json_loads_dumps_ret (t : str) :
  json_loads (json_dumps (ret t)) = Some (ret (reread t)).
Proof.
  rewrite json_dumps_ret. unfold json_loads.
  assert (Hlen : exists fuel,
             length (ret_prefix ++ escape t ++ ret_suffix) = S (S (S (S (S fuel))))).
  { rewrite length_app. unfold ret_prefix. cbn [length].
    eexists. reflexivity. }
  destruct Hlen as [fuel ->].
  change (skip_whitespace (ret_prefix ++ escape t ++ ret_suffix))
    with (ret_prefix ++ escape t ++ ret_suffix).
  rewrite parse_ret. reflexivity.
Qed.

(** *** Printable text through UTF-8 *)

Lemma hex_digit_printable (d : N) : (d < 16)%N -> printable (hex_digit d).
Proof.
  intros Hd. unfold hex_digit, printable.
  destruct (N.ltb_spec d 10); lia.
Qed.

Lemma u_escape_printable (n : N) : Forall printable (u_escape n).
Proof.
  unfold u_escape, hex4.
  repeat constructor; try (unfold printable; lia);
    apply hex_digit_printable, N.mod_lt; discriminate.
Qed.

Lemma escape_char_printable (c : N) : Forall printable (escape_char c).
Proof.
  destruct (escape_char_shape c) as [e He Hun Hlt | H34 H92 Hr | Hlt | Hge].
  - constructor; [unfold printable; lia|]. constructor; [|constructor].
    revert Hun. unfold unescape, printable.
    repeat match goal with
           | |- context [(e =? ?k)%N] => destruct (N.eqb_spec e k); [subst; lia|]
           end.
    discriminate.
  - constructor; [exact Hr | constructor].
  - apply u_escape_printable.
  - apply Forall_app. split; apply u_escape_printable.
Qed.

Lemma escape_printable (t : str) : Forall printable (escape t).
Proof.
  induction t as [|c r IH]; [constructor|].
  change (escape (c :: r)) with (escape_char c ++ escape r).
  apply Forall_app. split; [apply escape_char_printable | exact IH].
Qed.

Lemma json_dumps_ret_printable (t : str) : Forall printable (json_dumps (ret t)).
Proof.
  rewrite json_dumps_ret. apply Forall_app. split; [|apply Forall_app; split].
  - unfold ret_prefix, printable. repeat constructor; lia.
  - apply escape_printable.
  - unfold ret_suffix, printable. repeat constructor; lia.
Qed.

Lemma to_N_byte_of_N (c : N) : (c < 256)%N -> Byte.to_N (byte_of_N c) = c.
Proof.
  intros Hc. unfold byte_of_N.
  destruct (Byte.of_N c) as [b|] eqn:E.
  - apply Byte.to_of_N. exact E.
  - apply Byte.of_N_None_iff in E. lia.
Qed.

Lemma str_encode_ascii (s : str) :
  Forall (fun c => (c < 128)%N) s -> str_encode s = Some (map byte_of_N s).
Proof.
  induction 1 as [|c r Hc Hr IH]; [reflexivity|].
  cbn [str_encode map]. unfold utf8_encode_char.
  rewrite (proj2 (N.ltb_lt c 0x80) Hc). rewrite IH. reflexivity.
Qed.

Lemma bytes_decode_ascii (s : str) :
  Forall (fun c => (c < 128)%N) s -> bytes_decode (map byte_of_N s) = Some s.
Proof.
  induction 1 as [|c r Hc Hr IH]; [reflexivity|].
  cbn [bytes_decode map]. rewrite to_N_byte_of_N by lia.
  rewrite (proj2 (N.ltb_lt c 0x80) Hc). rewrite IH. reflexivity.
Qed.

Lemma printable_ascii (s : str) :
  Forall printable s -> Forall (fun c => (c < 128)%N) s.
Proof.
  intros Hs. eapply Forall_impl; [exact Hs|].
  unfold printable. intros c Hc. simpl in Hc. lia.
Qed.

Lemma byte_of_N_printable_not_nul (s : str) :
  Forall printable s -> x00 ∉ map byte_of_N s.
Proof.
  intros Hs Hin. apply list_elem_of_In, in_map_iff in Hin as (c & Hb & Hc).
  rewrite Forall_forall in Hs. apply list_elem_of_In, Hs in Hc.
  assert (Hz : Byte.to_N (byte_of_N c) = 0%N) by (rewrite Hb; reflexivity).
  rewrite to_N_byte_of_N in Hz by (unfold printable in Hc; lia).
  unfold printable in Hc. lia.
Qed.

(** ** Framing *)

Lemma encode_unit_ret (t : str) : encode_unit (ret t) = Some (frame (ret t)).
Proof.
  unfold encode_unit, frame, payload, delimiter.
  rewrite str_encode_ascii.
  - rewrite map_app. reflexivity.
  - apply Forall_app. split.
    + apply printable_ascii, json_dumps_ret_printable.
    + repeat constructor.
Qed.

Lemma payload_no_sentinel (t : str) : x00 ∉ payload (ret t).
Proof. apply byte_of_N_printable_not_nul, json_dumps_ret_printable. Qed.

Lemma decode_unit_frame (t : str) : decode_unit (frame (ret t)) = Ok (ret (reread t)).
Proof.
  unfold decode_unit, frame. rewrite removelast_last.
  unfold payload. rewrite bytes_decode_ascii
    by apply printable_ascii, json_dumps_ret_printable.
  rewrite json_loads_dumps_ret. reflexivity.
Qed.

Lemma split_frames_frame (p : bytes) (rest : bytes) :
  x00 ∉ p ->
  split_frames (p ++ x00 :: rest) =
  (p :: fst (split_frames rest), snd (split_frames rest)).
Proof.
  induction p as [|b p IH]; intros Hp.
  - cbn [app split_frames]. destruct (split_frames rest). reflexivity.
  - cbn [app split_frames]. rewrite IH.
    + destruct (Byte.eqb b x00) eqn:E.
      * apply Byte.byte_dec_bl in E. subst b. exfalso. apply Hp. left.
      * reflexivity.
    + intros Hin. apply Hp. right. exact Hin.
Qed.

Lemma split_frames_frames (ts : list str) :
  split_frames (concat (map (fun t => frame (ret t)) ts)) =
  (map (fun t => payload (ret t)) ts, []).
Proof.
  induction ts as [|t ts IH]; [reflexivity|].
  cbn [map concat]. unfold frame at 1. rewrite <- app_assoc. cbn [app].
  rewrite split_frames_frame by apply payload_no_sentinel.
  rewrite IH. reflexivity.
Qed.

Lemma parse_frames_payloads (ts : list str) :
  parse_frames (map (fun t => payload (ret t)) ts) =
  Some (map (fun t => ret (reread t)) ts).
Proof.
  induction ts as [|t ts IH]; [reflexivity|].
  cbn [map parse_frames]. unfold payload at 1.
  rewrite bytes_decode_ascii by apply printable_ascii, json_dumps_ret_printable.
  rewrite json_loads_dumps_ret, IH. reflexivity.
Qed.

Lemma decode_stream_frames (ts : list str) :
  decode_stream (concat (map (fun t => frame (ret t)) ts)) =
  Some (map (fun t => ret (reread t)) ts).
Proof.
  unfold decode_stream. rewrite split_frames_frames. apply parse_frames_payloads.
Qed.

(** ** Executions of the generator *)

Lemma unit_of_ret (echo : pyval) (ro : RequestOutput) :
  unit_of echo ro = ret (unit_text echo ro).
Proof. reflexivity. Qed.

Lemma runs_Return_inv {A} (a : A) tr o :
  runs (Return a) tr o -> tr = [] /\ o = Ok a.
Proof. inversion 1; subst; auto; discriminate. Qed.

Lemma runs_Raise_inv {A} (e : exn) tr (o : result A) :
  runs (Raise e) tr o -> tr = [] /\ o = Err e.
Proof. inversion 1; subst; auto; discriminate. Qed.

Lemma runs_Await_inv {A} (k c : task A) tr o :
  runs (Await k c) tr o ->
  (exists tr', tr = EvResume :: tr' /\ runs k tr' o) \/
  (exists tr', tr = EvCancel :: tr' /\ runs c tr' o).
Proof.
  inversion 1 as [| | t ev k' tr' o' Hn Hr | t c' tr' o' Hc Hr]; subst.
  - injection Hn as <- <-. left. eauto.
  - injection Hc as <-. right. eauto.
Qed.

Lemma runs_SemAcquire_inv {A} (k : task A) tr o :
  runs (SemAcquire k) tr o ->
  (exists tr', tr = EvAcquire :: tr' /\ runs k tr' o) \/
  (tr = [EvCancel] /\ o = Err CancelledError).
Proof.
  inversion 1 as [| | t ev k' tr' o' Hn Hr | t c' tr' o' Hc Hr]; subst.
  - injection Hn as <- <-. left. eauto.
  - injection Hc as <-. right. apply runs_Raise_inv in Hr as [-> ->]. auto.
Qed.

Lemma runs_step_inv {A} (t k : task A) (ev : event) tr o :
  next t = Some (ev, k) -> cancel t = None ->
  runs t tr o -> exists tr', tr = ev :: tr' /\ runs k tr' o.
Proof.
  intros Hn Hc Hr.
  inversion Hr as [| | t' ev' k' tr' o' Hn' Hr' | t' c' tr' o' Hc' Hr']; subst.
  - discriminate.
  - discriminate.
  - rewrite Hn in Hn'. injection Hn' as <- <-. eauto.
  - rewrite Hc in Hc'. discriminate.
Qed.

Lemma runs_Yield_inv {A} chunk (k : task A) tr o :
  runs (Yield chunk k) tr o -> exists tr', tr = EvSend chunk :: tr' /\ runs k tr' o.
Proof. apply runs_step_inv; reflexivity. Qed.

Lemma runs_CountCall_inv {A} (k : task A) tr o :
  runs (CountCall k) tr o -> exists tr', tr = EvCount :: tr' /\ runs k tr' o.
Proof. apply runs_step_inv; reflexivity. Qed.

Lemma runs_InitSemaphore_inv {A} (k : task A) tr o :
  runs (InitSemaphore k) tr o -> exists tr', tr = EvInit :: tr' /\ runs k tr' o.
Proof. apply runs_step_inv; reflexivity. Qed.

Lemma runs_SemRelease_inv {A} (k : task A) tr o :
  runs (SemRelease k) tr o -> exists tr', tr = EvRelease :: tr' /\ runs k tr' o.
Proof. apply runs_step_inv; reflexivity. Qed.

Lemma runs_EngineAbort_inv {A} r (k : task A) tr o :
  runs (EngineAbort r k) tr o -> exists tr', tr = EvAbort r :: tr' /\ runs k tr' o.
Proof. apply runs_step_inv; reflexivity. Qed.

Lemma runs_stream_outputs (echo : pyval) (outs : list RequestOutput)
    (fail : option exn) tr o :
  runs (stream_outputs echo outs fail) tr o ->
  exists k, (k <= length outs)%nat /\
    chunks_of tr = map (fun ro => frame (unit_of echo ro)) (take k outs) /\
    (forall u, o = Ok u -> k = length outs /\ fail = None).
Proof.
  revert tr. induction outs as [|ro outs IH]; intros tr Hr; cbn [stream_outputs] in Hr.
  - exists 0%nat. split; [reflexivity|].
    apply runs_Await_inv in Hr as [(tr' & -> & Hr) | (tr' & -> & Hr)].
    + destruct fail as [e|].
      * apply runs_Raise_inv in Hr as [-> ->]. split; [reflexivity|]. discriminate.
      * apply runs_Return_inv in Hr as [-> ->]. split; [reflexivity|]. auto.
    + apply runs_Raise_inv in Hr as [-> ->]. split; [reflexivity|]. discriminate.
  - apply runs_Await_inv in Hr as [(tr' & -> & Hr) | (tr' & -> & Hr)].
    + rewrite unit_of_ret, encode_unit_ret in Hr.
      apply runs_Yield_inv in Hr as (tr'' & -> & Hr).
      destruct (IH _ Hr) as (k & Hk & Hch & Hok).
      exists (S k). split; [simpl; lia|]. split.
      * cbn [chunks_of take map]. rewrite Hch, unit_of_ret. reflexivity.
      * intros u Hu. destruct (Hok u Hu) as [-> ->]. auto.
    + apply runs_Raise_inv in Hr as [-> ->].
      exists 0%nat. split; [lia|]. split; [reflexivity|]. discriminate.
Qed.

Section Generator.
Context {tok : Tokenizer} {fs : FloatSyntax} {eng : Engine}.

(** Every execution of [generate_stream], whatever interrupts it, hands
    on the frames of the units of the first request outputs, in order. *)
Lemma runs_generate_stream (params : dict) tr o :
  runs (generate_stream params) tr o ->
  match prepare params with
  | Err e => chunks_of tr = [] /\ o = Err e
  | Ok s =>
      exists k, (k <= length (results_of s))%nat /\
        chunks_of tr =
          map (fun ro => frame (unit_of (echo s) ro)) (take k (results_of s)) /\
        (forall u, o = Ok u ->
           k = length (results_of s) /\
           failure (engine_generate (context s) (sampling_params s) (request_id s))
           = None)
  end.
Proof.
  unfold generate_stream. intros Hr.
  apply runs_CountCall_inv in Hr as (tr' & -> & Hr).
  destruct (prepare params) as [s|e].
  - cbn [chunks_of]. apply runs_stream_outputs in Hr. exact Hr.
  - apply runs_Raise_inv in Hr as [-> ->]. auto.
Qed.

End Generator.

(** ** The uncancelled execution *)

Lemma run_through_runs {A} (t : task A) :
  runs t (fst (run_through t)) (snd (run_through t)).
Proof.
  induction t; cbn [run_through];
    try (destruct (run_through t) as [tr o]; cbn [fst snd] in *;
         eapply runs_next; [reflexivity | assumption]).
  - constructor.
  - constructor.
  - destruct (run_through t1) as [tr o]; cbn [fst snd] in *.
    eapply runs_next; [reflexivity | assumption].
Qed.

Lemma run_through_bind {A B} (t : task A) (f : A -> task B) :
  run_through (bind t f) =
  match run_through t with
  | (tr, Ok a) => let '(tr', o') := run_through (f a) in (tr ++ tr', o')
  | (tr, Err e) => (tr, Err e)
  end.
Proof.
  induction t; cbn [bind run_through];
    try (rewrite IHt; destruct (run_through t) as [tr [a|e]];
         [destruct (run_through (f a)) as [tr' o']|]; reflexivity).
  - destruct (run_through (f a)). reflexivity.
  - reflexivity.
  - rewrite IHt1. destruct (run_through t1) as [tr [a|e]];
      [destruct (run_through (f a)) as [tr' o']|]; reflexivity.
Qed.

Lemma last_cons_or {A} (x : A) (l : list A) :
  last (x :: l) = match last l with Some y => Some y | None => Some x end.
Proof.
  revert x. induction l as [|y l IH]; intros x; [reflexivity|].
  change (last (x :: y :: l)) with (last (y :: l)).
  rewrite (IH y). destruct (last l); reflexivity.
Qed.

Lemma run_through_last_item {A} (g : task A) (x : option bytes) :
  run_through (last_item g x) =
  (silent (fst (run_through g)),
   match snd (run_through g) with
   | Ok _ => Ok (last_or x (chunks_of (fst (run_through g))))
   | Err e => Err e
   end).
Proof.
  revert x.
  induction g; intros x; cbn [last_item run_through];
    try (rewrite IHg; destruct (run_through g) as [tr o]; reflexivity).
  - reflexivity.
  - reflexivity.
  - rewrite IHg1. destruct (run_through g1) as [tr o]. reflexivity.
  - rewrite IHg. destruct (run_through g) as [tr o]. cbn [fst snd chunks_of].
    unfold silent. cbn [filter is_send]. f_equal.
    destruct o as [a|e]; [|reflexivity]. f_equal.
    unfold last_or. rewrite last_cons_or.
    destruct (last (chunks_of tr)); reflexivity.
Qed.

(** ** The units of a stream *)

Lemma last_map {A B} (f : A -> B) (l : list A) :
  last (map f l) = option_map f (last l).
Proof.
  induction l as [|a l IH]; [reflexivity|].
  cbn [map]. rewrite !last_cons_or, IH. destruct (last l); reflexivity.
Qed.

Section Units.
Context {tok : Tokenizer} {fs : FloatSyntax} {eng : Engine}.

(** C3. When the stream [generate_stream] produces for the parameters
    ends normally and has a last chunk, [generate] on the same parameters
    returns exactly what decoding that chunk gives: the unit of the last
    request output, its text as JSON reads it back (the same text whenever
    it has no high surrogate directly before a low one). *)
Theorem C3_generate_returns_final_unit (params : dict) (tr : list event) (x : bytes) :
  run_through (generate_stream params) = (tr, Ok tt) ->
  last (chunks_of tr) = Some x ->
  exists v t,
    x = frame (ret t) /\
    decode_unit x = Ok v /\
    snd (run_through (generate params)) = Ok v /\
    v = ret (reread t) /\
    (Forall valid_code_point t -> no_surrogate_pair t -> text_of v = t).
Proof.
  intros Hrun Hlast.
  pose proof (run_through_runs (generate_stream params)) as Hr.
  rewrite Hrun in Hr. cbn [fst snd] in Hr.
  apply runs_generate_stream in Hr.
  destruct (prepare params) as [s|e]; [|destruct Hr; discriminate].
  destruct Hr as (k & Hk & Hch & _).
  rewrite Hch, last_map in Hlast.
  destruct (last (take k (results_of s))) as [ro|] eqn:Elast; [|discriminate].
  cbn [option_map] in Hlast. injection Hlast as <-.
  exists (ret (reread (unit_text (echo s) ro))), (unit_text (echo s) ro).
  rewrite unit_of_ret.
  split; [reflexivity|]. split; [apply decode_unit_frame|].
  split; [|split; [reflexivity|]].
  - unfold generate, mbind, task_bind.
    rewrite run_through_bind, run_through_last_item, Hrun. cbn [fst snd].
    unfold last_or. rewrite Hch, last_map, Elast. cbn [option_map].
    rewrite unit_of_ret, decode_unit_frame. reflexivity.
  - intros Hv Hn. cbn [text_of ret]. apply reread_no_surrogate_pair; assumption.
Qed.

Lemma map_frame_ret (echo : pyval) (outs : list RequestOutput) :
  map (fun ro => frame (unit_of echo ro)) outs =
  map (fun t => frame (ret t)) (map (unit_text echo) outs).
Proof. rewrite map_map. reflexivity. Qed.

(** C9, as the code has it. In every execution of [generate_stream] the
    chunks handed on are, in order, the frames of the units of the first
    request outputs: each frame is the JSON text of the unit, encoded,
    followed by the one byte 0, and that byte does not occur in the JSON
    text. Splitting the concatenated chunks on that byte gives back
    exactly the sequence of JSON texts, with nothing left over. Parsing
    them gives back the units with their texts reread by JSON, hence the
    units themselves when no text has a high surrogate directly before a
    low one. *)
Theorem C9_frames_split_back (params : dict) (s : submission)
    (tr : list event) (o : result unit) :
  prepare params = Ok s ->
  runs (generate_stream params) tr o ->
  exists k,
    let outs := take k (results_of s) in
    chunks_of tr = map (fun ro => frame (unit_of (echo s) ro)) outs /\
    (forall ro,
        encode_unit (unit_of (echo s) ro) =
          Some (payload (unit_of (echo s) ro) ++ [x00]) /\
        x00 ∉ payload (unit_of (echo s) ro)) /\
    split_frames (concat (chunks_of tr)) =
      (map (fun ro => payload (unit_of (echo s) ro)) outs, []) /\
    decode_stream (concat (chunks_of tr)) =
      Some (map (fun ro => ret (reread (unit_text (echo s) ro))) outs) /\
    (Forall (fun ro => Forall valid_code_point (unit_text (echo s) ro) /\
                       no_surrogate_pair (unit_text (echo s) ro)) outs ->
     decode_stream (concat (chunks_of tr)) =
       Some (map (unit_of (echo s)) outs)).
Proof.
  intros Hp Hr. apply runs_generate_stream in Hr. rewrite Hp in Hr.
  destruct Hr as (k & Hk & Hch & _).
  exists k. cbv zeta.
  set (outs := take k (results_of s)) in *.
  split; [exact Hch|]. split.
  { intros ro. rewrite unit_of_ret. split.
    - apply encode_unit_ret.
    - apply payload_no_sentinel. }
  rewrite Hch, map_frame_ret.
  split; [|split].
  - rewrite split_frames_frames, map_map. reflexivity.
  - rewrite decode_stream_frames, map_map. reflexivity.
  - intros Hall. rewrite decode_stream_frames, map_map. f_equal.
    apply map_ext_in. intros ro Hin.
    rewrite Forall_forall in Hall. apply list_elem_of_In, Hall in Hin as [Hv Hn].
    rewrite reread_no_surrogate_pair by assumption. reflexivity.
Qed.

(** C10. When the parameters have no [echo] key the flag is [True], and
    every chunk [generate_stream] hands on is the frame of a unit whose text
    begins with the prompt of its request output: with the one completion
    that [n = 1] asks for, the text is the prompt followed by that
    completion. With [echo] given as [False] it is the completion alone,
    and so it is with every other value that is false in a condition
    ([None], [0], the empty string, list or dict); with a value that is true
    in a condition it is the prompt followed by the completion. An engine
    that keeps its contract returns the submitted prompt and exactly one
    completion. *)
Theorem C10_echo_defaults_to_true (params : dict) (s : submission)
    (tr : list event) (o : result unit) (chunk : bytes) :
  prepare params = Ok s ->
  runs (generate_stream params) tr o ->
  chunk ∈ chunks_of tr ->
  (params !! "echo" = None -> echo s = PBool true) /\
  exists ro,
    ro ∈ results_of s /\
    chunk = frame (unit_of (echo s) ro) /\
    (params !! "echo" = None -> outputs ro <> [] ->
     prompt ro `prefix_of` text_of (unit_of (echo s) ro)) /\
    (forall out, outputs ro = [out] ->
       (params !! "echo" = None ->
        text_of (unit_of (echo s) ro) = prompt ro ++ text out) /\
       (params !! "echo" = Some (PBool false) ->
        text_of (unit_of (echo s) ro) = text out) /\
       (forall v, params !! "echo" = Some v ->
          text_of (unit_of (echo s) ro)
          = if truthy v then prompt ro ++ text out else text out)) /\
    (forall ctx, engine_contract -> context s = PStr ctx ->
       prompt ro = ctx /\ exists out, outputs ro = [out]).
Proof.
  intros Hp Hr Hin.
  destruct (prepare_inv _ _ Hp)
    as (c & rid & t & p & ids & st0 & _ & _ & _ & _ & _ & _ & _ & _ & _ & Hecho & Hsp).
  assert (Htrue : params !! "echo" = None -> echo s = PBool true).
  { intros Hnone. rewrite Hecho. unfold get. rewrite Hnone. reflexivity. }
  split; [exact Htrue|].
  apply runs_generate_stream in Hr. rewrite Hp in Hr.
  destruct Hr as (k & Hk & Hch & _).
  rewrite Hch in Hin. apply list_elem_of_In, in_map_iff in Hin as (ro & <- & Hro).
  assert (Hro' : ro ∈ results_of s).
  { apply list_elem_of_In in Hro. eapply subseteq_take. exact Hro. }
  exists ro. split; [exact Hro'|]. split; [reflexivity|].
  split; [|split].
  - intros Hnone Hne. rewrite (Htrue Hnone).
    unfold unit_of. cbn [truthy].
    destruct (outputs ro) as [|out rest]; [congruence|].
    cbn [map]. destruct rest as [|out' rest].
    + cbn [join text_of ret]. apply prefix_app_r. reflexivity.
    + change (join (lit " ") ((prompt ro ++ text out)
                :: map (fun output => prompt ro ++ text output) (out' :: rest)))
        with ((prompt ro ++ text out) ++ lit " "
                ++ join (lit " ")
                     (map (fun output => prompt ro ++ text output) (out' :: rest))).
      cbn [text_of ret]. rewrite <- app_assoc. apply prefix_app_r. reflexivity.
  - intros out Houts. split; [|split].
    + intros Hnone. rewrite (Htrue Hnone).
      unfold unit_of. cbn [truthy]. rewrite Houts. reflexivity.
    + intros Hfalse. rewrite Hecho. unfold get. rewrite Hfalse.
      unfold unit_of. cbn [default truthy]. rewrite Houts. reflexivity.
    + intros v Hv. rewrite Hecho. unfold get. rewrite Hv.
      unfold unit_of, default. cbn [from_option id]. rewrite Houts.
      destruct (truthy v); reflexivity.
  - intros ctx Hcontract Hctx.
    destruct (Hcontract ctx (sampling_params s) (request_id s) ro) as [Hprompt Hlen].
    { rewrite Hsp. cbn [n]. lia. }
    { unfold results_of in Hro'. rewrite Hctx in Hro'. exact Hro'. }
    split; [exact Hprompt|].
    rewrite Hsp in Hlen. cbn [n] in Hlen.
    destruct (outputs ro) as [|out [|out' rest]]; try (simpl in Hlen; lia).
    exists out. reflexivity.
Qed.

End Units.

(** ** Slot discipline of the endpoints *)

Lemma disc_mono {A} (t : task A) (h : bool) (Q R : A -> bool -> Prop) :
  (forall a h', Q a h' -> R a h') -> disc h Q t -> disc h R t.
Proof.
  intros HQR. revert h.
  induction t; intros h; cbn [disc]; try tauto; auto.
  - intros [? ?]. split; auto.
  - intros [? ?]. split; auto.
  - intros [? ?]. split; auto.
Qed.

Lemma disc_bind {A B} (t : task A) (f : A -> task B) (h : bool)
    (Q : A -> bool -> Prop) (R : B -> bool -> Prop) :
  disc h Q t ->
  (forall a h', Q a h' -> disc h' R (f a)) ->
  disc h R (bind t f).
Proof.
  intros Ht Hf. revert h Ht.
  induction t; intros h Ht; cbn [disc bind] in *; auto.
  - destruct Ht. split; auto.
  - destruct Ht. split; auto.
  - destruct Ht. split; auto.
Qed.

Lemma quiet_disc {A} (t : task A) (h : bool) (Q : A -> bool -> Prop) :
  quiet t -> (forall a, Q a h) -> disc h Q t.
Proof.
  intros Hs HQ. induction t; cbn [disc quiet] in *; auto; try contradiction.
  destruct Hs. split; auto.
Qed.

Lemma quiet_last_item {A} (g : task A) (x : option bytes) :
  quiet g -> quiet (last_item g x).
Proof.
  revert x. induction g; intros x Hs; cbn [quiet last_item] in *; auto.
  destruct Hs. split; auto.
Qed.

Lemma disc_stream_response (g bg : task unit) (h : bool) (Q : unit -> bool -> Prop) :
  quiet g -> disc h Q bg -> disc h Q (stream_response g bg).
Proof.
  intros Hs Hbg. induction g; cbn [quiet stream_response disc] in *;
    auto; try contradiction.
  destruct Hs. split; auto.
Qed.

Lemma quiet_stream_outputs (echo : pyval) (outs : list RequestOutput)
    (fail : option exn) :
  quiet (stream_outputs echo outs fail).
Proof.
  induction outs as [|ro outs IH]; cbn [stream_outputs quiet].
  - split; [destruct fail; exact I | exact I].
  - split; [|exact I].
    destruct (encode_unit (unit_of echo ro)); cbn [quiet]; auto.
Qed.

Section Discipline.
Context {tok : Tokenizer} {fs : FloatSyntax} {eng : Engine} {cv : Conversation}.

Lemma quiet_generate_stream (params : dict) : quiet (generate_stream params).
Proof.
  unfold generate_stream. cbn [quiet].
  destruct (prepare params); [apply quiet_stream_outputs | exact I].
Qed.

Lemma disc_lift {A} (r : result A) (h : bool) : disc h (fun _ h' => h' = h) (lift r).
Proof. destruct r; cbn; auto. Qed.

Lemma disc_generate (params : dict) (h : bool) :
  disc h (fun _ h' => h' = h) (generate params).
Proof.
  unfold generate, mbind, task_bind.
  apply (disc_bind _ _ h (fun _ h' => h' = h)).
  - apply quiet_disc; [|reflexivity].
    apply quiet_last_item, quiet_generate_stream.
  - intros [x|] h' ->; [apply disc_lift | exact I].
Qed.

Lemma disc_background (rid : str) :
  disc true (fun _ _ => True) (run_background (create_background_tasks rid)).
Proof. cbn. auto. Qed.

Lemma disc_api_generate (params : dict) (rid : str) :
  disc false (fun _ _ => True) (serve (api_generate params rid)).
Proof.
  unfold serve, api_generate, mbind, task_bind.
  apply (disc_bind _ _ false (fun r _ => exists out, r = JSONResponse out)).
  2:{ intros r h' [out ->]. exact I. }
  apply (disc_bind _ _ false (fun _ h' => h' = false)); [apply disc_lift|].
  intros prompt h' ->.
  apply (disc_bind _ _ false (fun _ h' => h' = true)); [cbn; auto|].
  intros _ h' ->.
  apply (disc_bind _ _ true (fun _ h' => h' = true)); [apply disc_generate|].
  intros out h' ->.
  cbn. destruct (render out); cbn; eauto.
Qed.

Lemma disc_api_generate_stream (params : dict) (rid : str) :
  disc false (fun _ _ => True) (serve (api_generate_stream params rid)).
Proof.
  unfold serve, api_generate_stream, mbind, task_bind.
  apply (disc_bind _ _ false
           (fun r h' => h' = true /\ exists g, quiet g /\
              r = StreamingResponse g (create_background_tasks rid))).
  2:{ intros r h' (-> & g & Hg & ->).
      apply disc_stream_response; [exact Hg | apply disc_background]. }
  apply (disc_bind _ _ false (fun _ h' => h' = false)); [apply disc_lift|].
  intros prompt h' ->.
  apply (disc_bind _ _ false (fun _ h' => h' = true)); [cbn; auto|].
  intros _ h' ->.
  cbn [disc]. split; [reflexivity|].
  eexists. split; [apply quiet_generate_stream | reflexivity].
Qed.

Lemma disc_endpoint_task (t : task unit) :
  endpoint_task t -> disc false (fun _ _ => True) t.
Proof.
  destruct 1; [apply disc_api_generate | apply disc_api_generate_stream].
Qed.

End Discipline.

(** ** The invariant of the worker *)

Lemma held_total_app (l1 l2 : list request) :
  held_total (l1 ++ l2) = (held_total l1 + held_total l2)%Z.
Proof. induction l1 as [|r l1 IH]; cbn [app held_total]; lia. Qed.

Lemma held_total_insert (l : list request) (i : nat) (r r' : request) :
  l !! i = Some r ->
  held_total (<[i := r']> l) = (held_total l - held r + held r')%Z.
Proof.
  revert i. induction l as [|x l IH]; intros i Hi; [discriminate|].
  destruct i as [|i].
  - cbn in Hi. injection Hi as ->.
    change (<[0%nat := r']> (r :: l)) with (r' :: l). cbn [held_total]. lia.
  - change (<[S i := r']> (x :: l)) with (x :: <[i := r']> l).
    change ((x :: l) !! S i) with (l !! i) in Hi.
    cbn [held_total]. rewrite (IH i Hi). lia.
Qed.

Lemma holding_held (r : request) :
  (released r <= acquired r <= S (released r))%nat ->
  held r = if holding r then 1%Z else 0%Z.
Proof.
  intros Hr. unfold held, holding.
  destruct (Nat.ltb_spec (released r) (acquired r)); lia.
Qed.

Lemma holders_held_total (l : list request) :
  Forall well_accounted l ->
  Z.of_nat (length (filter (fun r => holding r = true) l)) = held_total l.
Proof.
  induction 1 as [|r l [Hr _] Hl IH]; [reflexivity|].
  cbn [held_total]. rewrite filter_cons. rewrite (holding_held r Hr).
  destruct (holding r) eqn:Hh.
  - rewrite decide_True by reflexivity. cbn [length]. lia.
  - rewrite decide_False by discriminate. lia.
Qed.

Lemma well_accounted_step (r : request) (ev : event) (k : task unit) :
  well_accounted r ->
  next (code r) = Some (ev, k) ->
  well_accounted (account ev r k) /\
  held (account ev r k) =
    (held r + (if is_acquire ev then 1 else 0) - (if is_release ev then 1 else 0))%Z.
Proof.
  intros [Hc Hd] Hn. unfold well_accounted, account, held, holding in *.
  destruct r as [t a b]. cbn [code acquired released] in *.
  destruct t; cbn [next] in Hn; try discriminate; injection Hn as <- <-;
    cbn [is_acquire is_release disc] in *.
  - split; [split; [lia | exact Hd] | lia].
  - destruct Hd as [Hh Hd]. apply Nat.ltb_ge in Hh.
    split; [split; [lia|] | lia].
    replace (b <? S a)%nat with true; [exact Hd|].
    symmetry. apply Nat.ltb_lt. lia.
  - destruct Hd as [Hh Hd]. apply Nat.ltb_lt in Hh.
    split; [split; [lia|] | lia].
    replace (S b <? a)%nat with false; [exact Hd|].
    symmetry. apply Nat.ltb_ge. lia.
  - split; [split; [lia | exact Hd] | lia].
  - split; [split; [lia | exact Hd] | lia].
  - split; [split; [lia | apply Hd] | lia].
  - split; [split; [lia | exact Hd] | lia].
Qed.

Lemma well_accounted_cancel (r : request) (c : task unit) :
  well_accounted r ->
  cancel (code r) = Some c ->
  well_accounted (account EvCancel r c) /\ held (account EvCancel r c) = held r.
Proof.
  intros [Hc Hd] Hcan. unfold well_accounted, account, held, holding in *.
  destruct r as [t a b]. cbn [code acquired released] in *.
  destruct t; cbn [cancel] in Hcan; try discriminate; injection Hcan as <-;
    cbn [is_acquire is_release disc] in *.
  - split; [split; [lia | exact I] | lia].
  - split; [split; [lia | apply Hd] | lia].
Qed.

Lemma well_accounted_fault (r : request) (e : exn) :
  well_accounted r ->
  well_accounted (account EvCancel r (Raise e)) /\
  held (account EvCancel r (Raise e)) = held r.
Proof.
  intros [Hc Hd]. unfold well_accounted, account, held, holding in *.
  cbn [code acquired released is_acquire is_release disc]. auto.
Qed.

Section Invariant.
Context {tok : Tokenizer} {fs : FloatSyntax} {eng : Engine} {cv : Conversation}.

Lemma slots_accounted_startup (capacity : Z) :
  slots_accounted capacity (startup capacity).
Proof. repeat split. constructor. Qed.

Lemma slots_accounted_step (capacity : Z) (sv sv' : server) (l : label) :
  (0 <= capacity)%Z ->
  slots_accounted capacity sv -> step sv l sv' -> slots_accounted capacity sv'.
Proof.
  intros Hcap (Hlim & Hall & Hsem) Hstep.
  destruct Hstep as [sv t Ht | sv i r ev k w' ab' Hi Hn Hp
                    | sv i r ev k e Hi Hn Hp | sv i r c Hi Hc];
    unfold slots_accounted; cbn [the_worker requests].
  - (* a request arrives *)
    split; [exact Hlim|]. split.
    + apply Forall_app. split; [exact Hall|]. constructor; [|constructor].
      split; [cbn; lia|]. cbn. apply disc_endpoint_task. exact Ht.
    + rewrite held_total_app. cbn [held_total].
      change (held {| code := t; acquired := 0; released := 0 |}) with 0%Z.
      destruct (semaphore (the_worker sv)); lia.
  - (* a request performs its next effect *)
    assert (Hr : well_accounted r).
    { eapply Forall_lookup_1; eassumption. }
    destruct (well_accounted_step r ev k Hr Hn) as [Hr' Hheld].
    rewrite (held_total_insert _ _ _ _ Hi), Hheld.
    assert (Hall' : Forall well_accounted (<[i := account ev r k]> (requests sv))).
    { apply Forall_insert; assumption. }
    destruct (the_worker sv) as [lim sem ct]. cbn [limit_worker_concurrency semaphore] in *.
    destruct ev; cbn [perform semaphore limit_worker_concurrency call_ct] in Hp;
      cbn [is_acquire is_release].
    + destruct sem as [v|].
      * injection Hp as <- <-. cbn. split; [exact Hlim|]. split; [exact Hall'|]. lia.
      * destruct (lim <? 0)%Z eqn:Hneg; [discriminate|].
        injection Hp as <- <-. cbn. split; [exact Hlim|]. split; [exact Hall'|]. lia.
    + destruct sem as [v|]; [|discriminate].
      destruct (0 <? v)%Z eqn:Hpos; [|discriminate].
      apply Z.ltb_lt in Hpos.
      injection Hp as <- <-. cbn. split; [exact Hlim|]. split; [exact Hall'|]. lia.
    + destruct sem as [v|]; [|discriminate].
      injection Hp as <- <-. cbn. split; [exact Hlim|]. split; [exact Hall'|].
      assert (Hpos : (0 < held r)%Z).
      { destruct Hr as [Hc Hd]. destruct (code r); cbn [next] in Hn; try discriminate.
        cbn [disc] in Hd. destruct Hd as [Hh _]. unfold holding in Hh.
        apply Nat.ltb_lt in Hh. unfold held. lia. }
      assert (Hle : (held r <= held_total (requests sv))%Z).
      { clear - Hi Hall. revert i Hi. induction Hall as [|x l [Hx _] Hl IH]; intros i Hi;
          [discriminate|].
        pose proof (holding_held x Hx) as Hhx.
        assert (0 <= held_total l)%Z.
        { rewrite <- holders_held_total by exact Hl. lia. }
        destruct i as [|i]; cbn in Hi |- *.
        - injection Hi as ->. lia.
        - specialize (IH i Hi). destruct (holding x); lia. }
      lia.
    + injection Hp as <- <-. cbn. split; [exact Hlim|]. split; [exact Hall'|].
      destruct sem; lia.
    + injection Hp as <- <-. cbn. split; [exact Hlim|]. split; [exact Hall'|].
      destruct sem; lia.
    + injection Hp as <- <-. cbn. split; [exact Hlim|]. split; [exact Hall'|].
      destruct sem; lia.
    + injection Hp as <- <-. cbn. split; [exact Hlim|]. split; [exact Hall'|].
      destruct sem; lia.
    + injection Hp as <- <-. cbn. split; [exact Hlim|]. split; [exact Hall'|].
      destruct sem; lia.
  - (* the effect fails *)
    assert (Hr : well_accounted r).
    { eapply Forall_lookup_1; eassumption. }
    destruct (well_accounted_fault r e Hr) as [Hr' Hheld].
    rewrite (held_total_insert _ _ _ _ Hi), Hheld.
    split; [exact Hlim|]. split; [apply Forall_insert; assumption|].
    destruct (semaphore (the_worker sv)); lia.
  - (* the request is cancelled *)
    assert (Hr : well_accounted r).
    { eapply Forall_lookup_1; eassumption. }
    destruct (well_accounted_cancel r c Hr Hc) as [Hr' Hheld].
    rewrite (held_total_insert _ _ _ _ Hi), Hheld.
    split; [exact Hlim|]. split; [apply Forall_insert; assumption|].
    destruct (semaphore (the_worker sv)); lia.
Qed.

Lemma reachable_slots_accounted (capacity : Z) (sv : server) :
  (0 <= capacity)%Z -> reachable capacity sv -> slots_accounted capacity sv.
Proof.
  intros Hcap. induction 1 as [|sv l sv' _ IH Hstep].
  - apply slots_accounted_startup.
  - eapply slots_accounted_step; eassumption.
Qed.

Lemma step_semaphore (sv sv' : server) (l : label) :
  step sv l sv' ->
  semaphore (the_worker sv') <> semaphore (the_worker sv) ->
  exists i ev, l = LStep i ev /\ (ev = EvInit \/ ev = EvAcquire \/ ev = EvRelease).
Proof.
  intros Hstep Hne.
  destruct Hstep as [sv t Ht | sv i r ev k w' ab' Hi Hn Hp
                    | sv i r ev k e Hi Hn Hp | sv i r c Hi Hc];
    cbn [the_worker] in Hne; try congruence.
  exists i, ev. split; [reflexivity|].
  destruct ev; auto; cbn [perform] in Hp; injection Hp as <- <-;
    cbn [semaphore] in Hne; congruence.
Qed.

(** C1. For every capacity of at least one, in every state the worker
    can reach by requests arriving at either endpoint, running, failing
    and being cancelled in any interleaving, the number of requests that
    hold a slot is at most the capacity; once the semaphore exists, its
    value and that number add up to the capacity. A step changes the
    semaphore only when it is the construction or the acquisition in
    [acquire_worker_semaphore] or the release in
    [release_worker_semaphore]. *)
Theorem C1_holders_within_capacity (capacity : Z) (sv : server) :
  (1 <= capacity)%Z ->
  reachable capacity sv ->
  (Z.of_nat (holders sv) <= capacity)%Z /\
  (forall v, semaphore (the_worker sv) = Some v ->
             (0 <= v)%Z /\ (v + Z.of_nat (holders sv))%Z = capacity) /\
  (forall l sv',
      step sv l sv' ->
      semaphore (the_worker sv') <> semaphore (the_worker sv) ->
      exists i ev, l = LStep i ev /\ (ev = EvInit \/ ev = EvAcquire \/ ev = EvRelease)).
Proof.
  intros Hcap Hreach.
  destruct (reachable_slots_accounted capacity sv ltac:(lia) Hreach)
    as (Hlim & Hall & Hsem).
  unfold holders. rewrite (holders_held_total _ Hall).
  split; [|split].
  - destruct (semaphore (the_worker sv)); lia.
  - intros v Hv. rewrite Hv in Hsem. exact Hsem.
  - intros l sv'. apply step_semaphore.
Qed.

End Invariant.

(** ** The life of one request *)

Lemma count_cons (p : event -> bool) (ev : event) (tr : list event) :
  count p (ev :: tr) = ((if p ev then 1 else 0) + count p tr)%nat.
Proof.
  unfold count. rewrite filter_cons.
  destruct (p ev); [rewrite decide_True by reflexivity
                   | rewrite decide_False by discriminate]; reflexivity.
Qed.

Lemma count_app (p : event -> bool) (tr1 tr2 : list event) :
  count p (tr1 ++ tr2) = (count p tr1 + count p tr2)%nat.
Proof. unfold count. rewrite filter_app, length_app. reflexivity. Qed.

Lemma slotless_nil : slotless [].
Proof. repeat split. Qed.

Lemma slotless_cons (ev : event) (tr : list event) :
  is_acquire ev = false -> is_release ev = false -> is_abort ev = false ->
  slotless tr -> slotless (ev :: tr).
Proof.
  intros Ha Hr Hb (H1 & H2 & H3). unfold slotless.
  rewrite !count_cons, Ha, Hr, Hb, H1, H2, H3. auto.
Qed.

Lemma slotless_app (tr1 tr2 : list event) :
  slotless tr1 -> slotless tr2 -> slotless (tr1 ++ tr2).
Proof.
  intros (H1 & H2 & H3) (H4 & H5 & H6). unfold slotless.
  rewrite !count_app, H1, H2, H3, H4, H5, H6. auto.
Qed.

Lemma runs_bind_inv {A B} (t : task A) (f : A -> task B) tr o :
  runs (bind t f) tr o ->
  (exists tr1 a tr2, runs t tr1 (Ok a) /\ runs (f a) tr2 o /\ tr = tr1 ++ tr2) \/
  (exists e, runs t tr (Err e) /\ o = Err e).
Proof.
  revert tr. induction t; intros tr Hr; cbn [bind] in Hr.
  - left. exists [], a, tr. split; [constructor | auto].
  - apply runs_Raise_inv in Hr as [-> ->]. right. exists e. split; [constructor | reflexivity].
  - apply runs_InitSemaphore_inv in Hr as (tr' & -> & Hr).
    destruct (IHt _ Hr) as [(tr1 & a & tr2 & H1 & H2 & ->) | (e & H1 & ->)].
    + left. exists (EvInit :: tr1), a, tr2.
      split; [eapply runs_next; [reflexivity | exact H1] | auto].
    + right. exists e. split; [eapply runs_next; [reflexivity | exact H1] | reflexivity].
  - apply runs_SemAcquire_inv in Hr as [(tr' & -> & Hr) | [-> ->]].
    + destruct (IHt _ Hr) as [(tr1 & a & tr2 & H1 & H2 & ->) | (e & H1 & ->)].
      * left. exists (EvAcquire :: tr1), a, tr2.
        split; [eapply runs_next; [reflexivity | exact H1] | auto].
      * right. exists e. split; [eapply runs_next; [reflexivity | exact H1] | reflexivity].
    + right. exists CancelledError.
      split; [eapply runs_cancel; [reflexivity | constructor] | reflexivity].
  - apply runs_SemRelease_inv in Hr as (tr' & -> & Hr).
    destruct (IHt _ Hr) as [(tr1 & a & tr2 & H1 & H2 & ->) | (e & H1 & ->)].
    + left. exists (EvRelease :: tr1), a, tr2.
      split; [eapply runs_next; [reflexivity | exact H1] | auto].
    + right. exists e. split; [eapply runs_next; [reflexivity | exact H1] | reflexivity].
  - apply runs_CountCall_inv in Hr as (tr' & -> & Hr).
    destruct (IHt _ Hr) as [(tr1 & a & tr2 & H1 & H2 & ->) | (e & H1 & ->)].
    + left. exists (EvCount :: tr1), a, tr2.
      split; [eapply runs_next; [reflexivity | exact H1] | auto].
    + right. exists e. split; [eapply runs_next; [reflexivity | exact H1] | reflexivity].
  - apply runs_EngineAbort_inv in Hr as (tr' & -> & Hr).
    destruct (IHt _ Hr) as [(tr1 & a & tr2 & H1 & H2 & ->) | (e & H1 & ->)].
    + left. exists (EvAbort rid :: tr1), a, tr2.
      split; [eapply runs_next; [reflexivity | exact H1] | auto].
    + right. exists e. split; [eapply runs_next; [reflexivity | exact H1] | reflexivity].
  - apply runs_Await_inv in Hr as [(tr' & -> & Hr) | (tr' & -> & Hr)].
    + destruct (IHt1 _ Hr) as [(tr1 & a & tr2 & H1 & H2 & ->) | (e & H1 & ->)].
      * left. exists (EvResume :: tr1), a, tr2.
        split; [eapply runs_next; [reflexivity | exact H1] | auto].
      * right. exists e. split; [eapply runs_next; [reflexivity | exact H1] | reflexivity].
    + destruct (IHt2 _ Hr) as [(tr1 & a & tr2 & H1 & H2 & ->) | (e & H1 & ->)].
      * left. exists (EvCancel :: tr1), a, tr2.
        split; [eapply runs_cancel; [reflexivity | exact H1] | auto].
      * right. exists e. split; [eapply runs_cancel; [reflexivity | exact H1] | reflexivity].
  - apply runs_Yield_inv in Hr as (tr' & -> & Hr).
    destruct (IHt _ Hr) as [(tr1 & a & tr2 & H1 & H2 & ->) | (e & H1 & ->)].
    + left. exists (EvSend chunk :: tr1), a, tr2.
      split; [eapply runs_next; [reflexivity | exact H1] | auto].
    + right. exists e. split; [eapply runs_next; [reflexivity | exact H1] | reflexivity].
Qed.

Lemma quiet_runs_slotless {A} (t : task A) tr o :
  quiet t -> runs t tr o -> slotless tr.
Proof.
  intros Hq. revert tr.
  induction t; intros tr Hr; cbn [quiet] in Hq; try contradiction.
  - apply runs_Return_inv in Hr as [-> _]. apply slotless_nil.
  - apply runs_Raise_inv in Hr as [-> _]. apply slotless_nil.
  - apply runs_CountCall_inv in Hr as (tr' & -> & Hr).
    apply slotless_cons; auto.
  - destruct Hq as [Hq1 Hq2].
    apply runs_Await_inv in Hr as [(tr' & -> & Hr) | (tr' & -> & Hr)];
      apply slotless_cons; auto.
  - apply runs_Yield_inv in Hr as (tr' & -> & Hr).
    apply slotless_cons; auto.
Qed.

Lemma quiet_bind {A B} (t : task A) (f : A -> task B) :
  quiet t -> (forall a, quiet (f a)) -> quiet (bind t f).
Proof.
  intros Ht Hf. induction t; cbn [quiet bind] in *; auto; try contradiction.
  destruct Ht. split; auto.
Qed.

Lemma runs_cleanup (rid : str) tr o :
  runs (SemRelease (EngineAbort rid (Return tt))) tr o ->
  tr = cleanup rid /\ o = Ok tt.
Proof.
  intros Hr.
  apply runs_SemRelease_inv in Hr as (tr1 & -> & Hr).
  apply runs_EngineAbort_inv in Hr as (tr2 & -> & Hr).
  apply runs_Return_inv in Hr as [-> ->]. auto.
Qed.

(** The executions of a streaming response whose body is quiet: the body
    ends or is cut short by a disconnect, and the cleanup follows; or the
    body raises, and nothing follows. *)
Lemma runs_stream_response_cleanup (g : task unit) (rid : str) tr o :
  quiet g ->
  runs (stream_response g (SemRelease (EngineAbort rid (Return tt)))) tr o ->
  (exists pre, tr = pre ++ cleanup rid /\ slotless pre /\ o = Ok tt /\
               chunks_of tr = chunks_of pre) \/
  (exists e, o = Err e /\ slotless tr /\ EvCancel ∉ tr).
Proof.
  intros Hq. revert tr.
  induction g; intros tr Hr; cbn [quiet stream_response] in *; try contradiction.
  - apply runs_cleanup in Hr as [-> ->]. left. exists [].
    split; [reflexivity|]. split; [apply slotless_nil|]. auto.
  - apply runs_Raise_inv in Hr as [-> ->]. right. exists e.
    split; [reflexivity|]. split; [apply slotless_nil|]. inversion 1.
  - apply runs_CountCall_inv in Hr as (tr' & -> & Hr).
    destruct (IHg Hq _ Hr) as [(pre & -> & Hs & -> & Hc) | (e & -> & Hs & Hn)].
    + left. exists (EvCount :: pre). split; [reflexivity|].
      split; [apply slotless_cons; auto|]. split; [reflexivity|]. exact Hc.
    + right. exists e. split; [reflexivity|]. split; [apply slotless_cons; auto|].
      intros Hin. apply elem_of_cons in Hin as [Hin|Hin]; [discriminate | auto].
  - destruct Hq as [Hq1 Hq2].
    apply runs_Await_inv in Hr as [(tr' & -> & Hr) | (tr' & -> & Hr)].
    + destruct (IHg1 Hq1 _ Hr) as [(pre & -> & Hs & -> & Hc) | (e & -> & Hs & Hn)].
      * left. exists (EvResume :: pre). split; [reflexivity|].
        split; [apply slotless_cons; auto|]. split; [reflexivity|]. exact Hc.
      * right. exists e. split; [reflexivity|]. split; [apply slotless_cons; auto|].
        intros Hin. apply elem_of_cons in Hin as [Hin|Hin]; [discriminate | auto].
    + apply runs_cleanup in Hr as [-> ->]. left. exists [EvCancel].
      split; [reflexivity|]. split; [apply slotless_cons; auto; apply slotless_nil|]. auto.
  - apply runs_Yield_inv in Hr as (tr' & -> & Hr).
    destruct (IHg Hq _ Hr) as [(pre & -> & Hs & -> & Hc) | (e & -> & Hs & Hn)].
    + left. exists (EvSend chunk :: pre). split; [reflexivity|].
      split; [apply slotless_cons; auto|]. split; [reflexivity|].
      cbn [app chunks_of]. rewrite Hc. reflexivity.
    + right. exists e. split; [reflexivity|]. split; [apply slotless_cons; auto|].
      intros Hin. apply elem_of_cons in Hin as [Hin|Hin]; [discriminate | auto].
Qed.

Lemma bind_assoc {A B C} (t : task A) (f : A -> task B) (g : B -> task C) :
  bind (bind t f) g = bind t (fun a => bind (f a) g).
Proof.
  induction t; cbn [bind]; try rewrite IHt; try reflexivity.
  rewrite IHt1, IHt2. reflexivity.
Qed.

Lemma bind_ext {A B} (t : task A) (f g : A -> task B) :
  (forall a, f a = g a) -> bind t f = bind t g.
Proof.
  intros Hfg. induction t; cbn [bind]; try rewrite IHt; try reflexivity.
  - apply Hfg.
  - rewrite IHt1, IHt2. reflexivity.
Qed.


Section Lifecycle.
Context {tok : Tokenizer} {fs : FloatSyntax} {eng : Engine} {cv : Conversation}.

Lemma quiet_generate (params : dict) : quiet (generate params).
Proof.
  unfold generate, mbind, task_bind. apply quiet_bind.
  - apply quiet_last_item, quiet_generate_stream.
  - intros [x|]; [|exact I]. destruct (decode_unit x); exact I.
Qed.

Lemma serve_api_generate_stream_ok (params : dict) (rid p : str) :
  get_conversation_prompt params = Ok p ->
  serve (api_generate_stream params rid) =
  InitSemaphore (SemAcquire
    (stream_response (generate_stream (with_prompt params p rid))
       (SemRelease (EngineAbort rid (Return tt))))).
Proof.
  intros Hp. unfold serve, api_generate_stream, mbind, task_bind.
  rewrite Hp. reflexivity.
Qed.

Lemma serve_api_generate_ok (params : dict) (rid p : str) :
  get_conversation_prompt params = Ok p ->
  serve (api_generate params rid) =
  InitSemaphore (SemAcquire
    (bind (generate (with_prompt params p rid))
       (fun output =>
          SemRelease (EngineAbort rid
            (match render output with
             | Some _ => Return tt
             | None => Raise UnicodeEncodeError
             end))))).
Proof.
  intros Hp. unfold serve, api_generate, mbind, task_bind.
  rewrite Hp. cbn [lift bind acquire_worker_semaphore].
  rewrite bind_assoc. do 2 f_equal. apply bind_ext. intros output.
  cbn [bind release_worker_semaphore]. destruct (render output); reflexivity.
Qed.

(** The cleanup of the non-streaming endpoint and the rendering of its
    response. *)
Lemma runs_cleanup_render (rid : str) (output : json) tr o :
  runs (SemRelease (EngineAbort rid
          (match render output with
           | Some _ => Return tt
           | None => Raise UnicodeEncodeError
           end))) tr o ->
  tr = cleanup rid /\
  (o = Ok tt /\ is_Some (render output) \/
   o = Err UnicodeEncodeError /\ render output = None).
Proof.
  intros Hr.
  apply runs_SemRelease_inv in Hr as (tr1 & -> & Hr).
  apply runs_EngineAbort_inv in Hr as (tr2 & -> & Hr).
  destruct (render output) as [body|].
  - apply runs_Return_inv in Hr as [-> ->]. split; [reflexivity|]. left. eauto.
  - apply runs_Raise_inv in Hr as [-> ->]. split; [reflexivity|]. right. auto.
Qed.

Lemma serve_prompt_error (params : dict) (rid : str) (e : exn) :
  get_conversation_prompt params = Err e ->
  serve (api_generate_stream params rid) = Raise e /\
  serve (api_generate params rid) = Raise e.
Proof.
  intros Hp. unfold serve, api_generate, api_generate_stream, mbind, task_bind.
  rewrite Hp. split; reflexivity.
Qed.




Lemma with_prompt_lookup (params : dict) (p rid : str) :
  with_prompt params p rid !! "prompt" = Some (PStr p) /\
  with_prompt params p rid !! "request_id" = Some (PStr rid) /\
  forall key : string,
    key <> "prompt" -> key <> "request_id" ->
    with_prompt params p rid !! key = params !! key.
Proof.
  unfold with_prompt. split; [|split].
  - rewrite lookup_insert_ne by discriminate. apply lookup_insert_eq.
  - apply lookup_insert_eq.
  - intros key H1 H2. rewrite !lookup_insert_ne by congruence. reflexivity.
Qed.

Lemma prepare_conversion_error (params : dict) (p rid : str) (e : exn) :
  conversion_error params = Some e ->
  prepare (with_prompt params p rid) = Err e.
Proof.
  destruct (with_prompt_lookup params p rid) as (H1 & H2 & H3).
  unfold conversion_error, prepare, getitem, get. intros Hc.
  rewrite H1, H2. cbn [mbind result_bind].
  rewrite !H3 by discriminate.
  destruct (py_float (default (PFloat float_one) (params !! "temperature")))
    as [t|e1]; [|injection Hc as <-; reflexivity].
  cbn [mbind result_bind].
  destruct (py_float (default (PFloat float_one) (params !! "top_p")))
    as [q|e2]; [discriminate | injection Hc as <-; reflexivity].
Qed.

(** C5, as the code has it. A request whose prompt cannot be built is
    rejected before admission: the endpoint raises at once and performs
    no step on the semaphore. A request whose prompt can be built but
    whose temperature or top_p cannot be converted to a float is admitted
    first: on either endpoint the conversion error is raised by
    [generate_stream] after the slot has been acquired (unless the request
    is cancelled while it waits for the slot), and no unit is produced. *)
Theorem C5_conversion_error_follows_admission (params : dict) (rid : str)
    (tr : list event) (o : result unit) :
  runs (serve (api_generate_stream params rid)) tr o \/
  runs (serve (api_generate params rid)) tr o ->
  (forall e, get_conversation_prompt params = Err e -> tr = [] /\ o = Err e) /\
  (forall p e,
      get_conversation_prompt params = Ok p ->
      conversion_error params = Some e ->
      (tr = [EvInit; EvCancel] /\ o = Err CancelledError) \/
      (exists tr', tr = EvInit :: EvAcquire :: tr' /\
                   chunks_of tr = [] /\ o = Err e)).
Proof.
  intros Hr. split.
  - intros e Hp. destruct (serve_prompt_error params rid e Hp) as [Hs1 Hs2].
    rewrite Hs1, Hs2 in Hr.
    destruct Hr as [Hr|Hr]; apply runs_Raise_inv in Hr; exact Hr.
  - intros p e Hp Hc.
    pose proof (prepare_conversion_error params p rid e Hc) as Hprep.
    assert (Hsame :
      runs (InitSemaphore (SemAcquire (CountCall (Raise e)))) tr o).
    { destruct Hr as [Hr|Hr].
      - rewrite (serve_api_generate_stream_ok _ _ _ Hp) in Hr.
        unfold generate_stream in Hr. rewrite Hprep in Hr. exact Hr.
      - rewrite (serve_api_generate_ok _ _ _ Hp) in Hr.
        unfold generate, generate_stream, mbind, task_bind in Hr.
        rewrite Hprep in Hr. exact Hr. }
    apply runs_InitSemaphore_inv in Hsame as (tr1 & -> & Hsame).
    apply runs_SemAcquire_inv in Hsame as [(tr2 & -> & Hsame) | [-> ->]].
    + apply runs_CountCall_inv in Hsame as (tr3 & -> & Hsame).
      apply runs_Raise_inv in Hsame as [-> ->].
      right. exists [EvCount]. auto.
    + left. auto.
Qed.

End Lifecycle.

(** ** The model at work *)


Section Running.
Context {tok : Tokenizer} {fs : FloatSyntax} {eng : Engine} {cv : Conversation}.

Lemma reachable_arrive (capacity : Z) (sv : server) (t : task unit) :
  endpoint_task t -> reachable capacity sv -> reachable capacity (arrive sv t).
Proof.
  intros Ht Hsv. eapply reachable_step; [exact Hsv|].
  apply step_arrive. exact Ht.
Qed.

Lemma reachable_advance (capacity : Z) (sv : server) (i : nat) :
  reachable capacity sv -> reachable capacity (advance sv i).
Proof.
  intros Hsv. unfold advance.
  destruct (requests sv !! i) as [r|] eqn:Hi; [|exact Hsv].
  destruct (next (code r)) as [[ev k]|] eqn:Hn; [|exact Hsv].
  destruct (perform (the_worker sv) (engine_aborted sv) ev) as [w' ab'|e|] eqn:Hp.
  - eapply reachable_step; [exact Hsv|]. eapply step_done; eassumption.
  - eapply reachable_step; [exact Hsv|]. eapply step_fault; eassumption.
  - exact Hsv.
Qed.

End Running.

Lemma sample_engine_contract : engine_contract (eng := sample_engine).
Proof.
  intros ctx sp rid ro Hn Hin. cbn in Hin.
  repeat (apply elem_of_cons in Hin as [-> | Hin];
          [cbn [prompt outputs str_of]; split;
           [reflexivity | rewrite repeat_length; lia]|]).
  inversion Hin.
Qed.

(** The sample worker of capacity one, with one request admitted, holds
    one slot, within its capacity. *)
Lemma C1_holders_within_capacity_witness :
  holders busy_server = 1%nat /\
  (Z.of_nat (holders busy_server) <= 1)%Z.
Proof.
  split; [vm_compute; reflexivity|].
  apply (C1_holders_within_capacity (tok := sample_tokenizer)
           (fs := sample_float_syntax) (eng := sample_engine)
           (cv := sample_conversation) 1 busy_server).
  - lia.
  - unfold busy_server.
    apply reachable_advance, reachable_advance, reachable_arrive.
    + apply endpoint_generate.
    + apply reachable_startup.
Defined.

(** C2, at a failing input. A request to the non-streaming endpoint whose
    engine raises after its first output: the endpoint acquires the slot
    and ends with the engine's exception, without releasing the slot and
    without calling abort. *)
Theorem C2_engine_error_skips_release :
  run_through
    (serve (api_generate (tok := sample_tokenizer) (fs := sample_float_syntax)
              (eng := failing_engine) (cv := sample_conversation)
              sample_request (lit "r1")))
  = ([EvInit; EvAcquire; EvCount; EvResume; EvResume], Err EngineError) /\
  count is_acquire [EvInit; EvAcquire; EvCount; EvResume; EvResume] = 1%nat /\
  count is_release [EvInit; EvAcquire; EvCount; EvResume; EvResume] = 0%nat.
Proof. repeat split. Qed.

(** With the sample engine, the stream ends normally with a fifth chunk,
    and [generate] returns the unit that chunk decodes to. *)
Lemma C3_generate_returns_final_unit_witness :
  exists tr x,
    run_through (generate_stream (tok := sample_tokenizer) (fs := sample_float_syntax)
                   (eng := sample_engine) sample_params) = (tr, Ok tt) /\
    last (chunks_of tr) = Some x /\
    exists v t,
      x = frame (ret t) /\
      decode_unit x = Ok v /\
      snd (run_through (generate (tok := sample_tokenizer) (fs := sample_float_syntax)
                          (eng := sample_engine) sample_params)) = Ok v /\
      v = ret (reread t) /\
      (Forall valid_code_point t -> no_surrogate_pair t -> text_of v = t).
Proof.
  eexists. eexists.
  split; [vm_compute; reflexivity|].
  split; [vm_compute; reflexivity|].
  eapply (C3_generate_returns_final_unit (tok := sample_tokenizer)
            (fs := sample_float_syntax) (eng := sample_engine) sample_params).
  - vm_compute. reflexivity.
  - vm_compute. reflexivity.
Defined.

Example sample_generate :
  snd (run_through (generate (tok := sample_tokenizer) (fs := sample_float_syntax)
                      (eng := sample_engine) sample_params))
  = Ok (ret (lit "Hi one two three four five")).
Proof. vm_compute. reflexivity. Qed.


(** C5 as stated fails: a request whose temperature is the string ["abc"]
    has no convertible temperature, yet the streaming endpoint acquires a
    slot for it before the error is raised. *)
Lemma C5_counterexample :
  conversion_error (fs := sample_float_syntax) malformed_request = Some ValueError /\
  exists tr,
    runs (serve (api_generate_stream (tok := sample_tokenizer)
                   (fs := sample_float_syntax) (eng := sample_engine)
                   (cv := sample_conversation) malformed_request (lit "r1")))
      tr (Err ValueError) /\
    EvAcquire ∈ tr.
Proof.
  split; [vm_compute; reflexivity|].
  exists [EvInit; EvAcquire; EvCount]. split.
  - pose proof (run_through_runs
                  (serve (api_generate_stream (tok := sample_tokenizer)
                            (fs := sample_float_syntax) (eng := sample_engine)
                            (cv := sample_conversation) malformed_request (lit "r1"))))
      as Hr.
    exact Hr.
  - apply list_elem_of_further, list_elem_of_here.
Qed.

(** The malformed request on the streaming endpoint: its prompt can be
    built, its temperature cannot be converted, and its execution acquires
    the slot before the conversion error. *)
Lemma C5_conversion_error_follows_admission_witness :
  runs (serve (api_generate_stream (tok := sample_tokenizer)
                 (fs := sample_float_syntax) (eng := sample_engine)
                 (cv := sample_conversation) malformed_request (lit "r1")))
    [EvInit; EvAcquire; EvCount] (Err ValueError) /\
  get_conversation_prompt (cv := sample_conversation) malformed_request
    = Ok (lit "Be brief. USER: Hi ASSISTANT: ") /\
  conversion_error (fs := sample_float_syntax) malformed_request = Some ValueError /\
  ([EvInit; EvAcquire; EvCount] = [EvInit; EvCancel] /\
   Err ValueError = Err (A := unit) CancelledError \/
   exists tr', [EvInit; EvAcquire; EvCount] = EvInit :: EvAcquire :: tr' /\
               chunks_of [EvInit; EvAcquire; EvCount] = [] /\
               Err (A := unit) ValueError = Err ValueError).
Proof.
  assert (Hr : runs (serve (api_generate_stream (tok := sample_tokenizer)
                 (fs := sample_float_syntax) (eng := sample_engine)
                 (cv := sample_conversation) malformed_request (lit "r1")))
    [EvInit; EvAcquire; EvCount] (Err ValueError)).
  { exact (run_through_runs
             (serve (api_generate_stream (tok := sample_tokenizer)
                       (fs := sample_float_syntax) (eng := sample_engine)
                       (cv := sample_conversation) malformed_request (lit "r1")))). }
  split; [exact Hr|].
  split; [vm_compute; reflexivity|].
  split; [vm_compute; reflexivity|].
  apply (proj2 (C5_conversion_error_follows_admission (tok := sample_tokenizer)
           (fs := sample_float_syntax) (eng := sample_engine)
           (cv := sample_conversation) malformed_request (lit "r1")
           [EvInit; EvAcquire; EvCount] (Err ValueError) (or_introl Hr))
           (lit "Be brief. USER: Hi ASSISTANT: ") ValueError).
  - vm_compute. reflexivity.
  - vm_compute. reflexivity.
Defined.

(** Temperature [0] with top_p ["0.3"]: the engine receives top_p [1.0]. *)
Lemma C6_top_p_never_zero_witness :
  exists s,
    prepare (tok := sample_tokenizer) (fs := sample_float_syntax) greedy_params = Ok s /\
    top_p (sampling_params s) = float_one /\
    exists t p,
      py_float (fs := sample_float_syntax)
        (get greedy_params "temperature" (PFloat float_one)) = Ok t /\
      py_float (fs := sample_float_syntax)
        (get greedy_params "top_p" (PFloat float_one)) = Ok p /\
      temperature (sampling_params s) = t /\
      SFeqb (top_p (sampling_params s)) float_zero = false /\
      (forall sg, top_p (sampling_params s) <> S754_zero sg) /\
      (SFltb p float_1e_5 = true -> float_max p float_1e_5 = float_1e_5) /\
      (SFleb t float_1e_5 = true -> top_p (sampling_params s) = float_one) /\
      (SFleb t float_1e_5 = false -> SFltb p float_1e_5 = true ->
       top_p (sampling_params s) = float_1e_5) /\
      (SFleb t float_1e_5 = false -> SFltb p float_1e_5 = false ->
       top_p (sampling_params s) = p) /\
      normalize_top_p float_zero float_0_3 = float_one /\
      normalize_top_p float_0_7 float_zero = float_1e_5.
Proof.
  eexists. split; [vm_compute; reflexivity|].
  split; [vm_compute; reflexivity|].
  apply (C6_top_p_never_zero (tok := sample_tokenizer) (fs := sample_float_syntax)
           greedy_params).
  vm_compute. reflexivity.
Defined.

(** The sample parameters have no [stop] key: the stop strings are the
    empty set. *)
Lemma C7_stop_normalises_to_a_set_witness :
  sample_params !! "stop" = None /\
  stop_strings (get sample_params "stop" PNone) = Ok [].
Proof.
  split; [vm_compute; reflexivity|].
  apply (proj1 C7_stop_normalises_to_a_set sample_params).
  vm_compute. reflexivity.
Defined.

(** Stop token ids 5 and 7 with a tokenizer whose end-of-sequence token is
    2: the strings of 5 and of 2 are both in the stop set. Stop token ids
    given as the string ["ab"], with a tokenizer that has no end-of-sequence
    token: the string of the character ["a"] is in the stop set. *)
Lemma C8_stop_token_ids_merged_witness :
  (exists s,
     prepare (tok := sample_tokenizer) (fs := sample_float_syntax) stop_ids_params = Ok s /\
     (exists d, tokenizer_decode (Tokenizer := sample_tokenizer) (PInt 5) = Ok d /\
                PStr d ∈ stop_set s /\ PStr d ∈ stop (sampling_params s)) /\
     (exists d, tokenizer_decode (Tokenizer := sample_tokenizer) (PInt 2) = Ok d /\
                PStr d ∈ stop_set s /\ PStr d ∈ stop (sampling_params s))) /\
  (exists s,
     prepare (tok := eosless_tokenizer) (fs := sample_float_syntax) char_ids_params = Ok s /\
     length (stop (sampling_params s)) = 2%nat /\
     exists d, tokenizer_decode (Tokenizer := eosless_tokenizer) (PStr (lit "a")) = Ok d /\
               PStr d ∈ stop_set s /\ PStr d ∈ stop (sampling_params s)).
Proof.
  split.
  - eexists. split; [vm_compute; reflexivity|].
    match goal with
    | |- (exists d, _ /\ PStr d ∈ stop_set ?s /\ _) /\ _ =>
        destruct (C8_stop_token_ids_merged (tok := sample_tokenizer)
                    (fs := sample_float_syntax) stop_ids_params s)
          as (Hids & _ & Heos); [vm_compute; reflexivity|]
    end.
    split.
    + apply (Hids [PInt 5; PNone; PInt 7] (PInt 5)).
      * vm_compute. reflexivity.
      * apply list_elem_of_here.
      * discriminate.
    + apply (Heos 2%Z). reflexivity.
  - eexists. split; [vm_compute; reflexivity|].
    split; [vm_compute; reflexivity|].
    match goal with
    | |- exists d, _ /\ PStr d ∈ stop_set ?s /\ _ =>
        destruct (C8_stop_token_ids_merged (tok := eosless_tokenizer)
                    (fs := sample_float_syntax) char_ids_params s)
          as (_ & Hany & _); [vm_compute; reflexivity|]
    end.
    apply (Hany (PStr (lit "ab")) [PStr (lit "a"); PStr (lit "b")] (PStr (lit "a"))).
    + vm_compute. reflexivity.
    + vm_compute. reflexivity.
    + apply list_elem_of_here.
    + discriminate.
Defined.

(** C9 as stated fails: when the completion is a lone high surrogate
    followed by a lone low surrogate, the one frame of the stream parses to
    a unit whose text holds the single character of that pair, not to the
    unit that was encoded. *)
Lemma C9_counterexample :
  exists s tr,
    prepare (tok := sample_tokenizer) (fs := sample_float_syntax) sample_params = Ok s /\
    runs (generate_stream (tok := sample_tokenizer) (fs := sample_float_syntax)
            (eng := surrogate_engine) sample_params) tr (Ok tt) /\
    map (unit_of (echo s)) (results_of (eng := surrogate_engine) s)
      = [ret (lit "Hi" ++ [0xd83d; 0xde00]%N)] /\
    decode_stream (concat (chunks_of tr)) = Some [ret (lit "Hi" ++ [0x1f600]%N)] /\
    decode_stream (concat (chunks_of tr))
      <> Some (map (unit_of (echo s)) (results_of (eng := surrogate_engine) s)).
Proof.
  eexists. eexists.
  split; [vm_compute; reflexivity|].
  split.
  { exact (run_through_runs
             (generate_stream (tok := sample_tokenizer) (fs := sample_float_syntax)
                (eng := surrogate_engine) sample_params)). }
  split; [vm_compute; reflexivity|].
  split; [vm_compute; reflexivity|].
  vm_compute. discriminate.
Qed.

(** The stream of the sample engine: five frames, which split back into
    the five JSON texts and parse back to the five units. *)
Lemma C9_frames_split_back_witness :
  exists s tr,
    prepare (tok := sample_tokenizer) (fs := sample_float_syntax) sample_params = Ok s /\
    runs (generate_stream (tok := sample_tokenizer) (fs := sample_float_syntax)
            (eng := sample_engine) sample_params) tr (Ok tt) /\
    length (chunks_of tr) = 5%nat /\
    exists k,
      let outs := take k (results_of (eng := sample_engine) s) in
      chunks_of tr = map (fun ro => frame (unit_of (echo s) ro)) outs /\
      (forall ro,
          encode_unit (unit_of (echo s) ro) =
            Some (payload (unit_of (echo s) ro) ++ [x00]) /\
          x00 ∉ payload (unit_of (echo s) ro)) /\
      split_frames (concat (chunks_of tr)) =
        (map (fun ro => payload (unit_of (echo s) ro)) outs, []) /\
      decode_stream (concat (chunks_of tr)) =
        Some (map (fun ro => ret (reread (unit_text (echo s) ro))) outs) /\
      (Forall (fun ro => Forall valid_code_point (unit_text (echo s) ro) /\
                         no_surrogate_pair (unit_text (echo s) ro)) outs ->
       decode_stream (concat (chunks_of tr)) =
         Some (map (unit_of (echo s)) outs)).
Proof.
  eexists. eexists.
  split; [vm_compute; reflexivity|].
  assert (Hr : runs (generate_stream (tok := sample_tokenizer) (fs := sample_float_syntax)
            (eng := sample_engine) sample_params)
            (fst (run_through (generate_stream (tok := sample_tokenizer)
               (fs := sample_float_syntax) (eng := sample_engine) sample_params)))
            (Ok tt)).
  { exact (run_through_runs
             (generate_stream (tok := sample_tokenizer) (fs := sample_float_syntax)
                (eng := sample_engine) sample_params)). }
  split; [exact Hr|].
  split; [vm_compute; reflexivity|].
  apply (C9_frames_split_back (tok := sample_tokenizer) (fs := sample_float_syntax)
           (eng := sample_engine) sample_params _ _ (Ok tt)).
  - vm_compute. reflexivity.
  - exact Hr.
Defined.

(** C10 as stated fails: with [echo] given as [None], which is not
    [False], every unit of the sample stream is the completion alone,
    without the prompt ["Hi"]. *)
Lemma C10_counterexample :
  null_echo_params !! "echo" = Some PNone /\
  PNone <> PBool false /\
  exists s tr,
    prepare (tok := sample_tokenizer) (fs := sample_float_syntax) null_echo_params = Ok s /\
    context s = PStr (lit "Hi") /\
    runs (generate_stream (tok := sample_tokenizer) (fs := sample_float_syntax)
            (eng := sample_engine) null_echo_params) tr (Ok tt) /\
    chunks_of tr
      = map (fun t => frame (ret t))
          [lit " one"; lit " one two"; lit " one two three";
           lit " one two three four"; lit " one two three four five"].
Proof.
  split; [vm_compute; reflexivity|].
  split; [discriminate|].
  eexists. eexists.
  split; [vm_compute; reflexivity|].
  split; [reflexivity|].
  split.
  { exact (run_through_runs
             (generate_stream (tok := sample_tokenizer) (fs := sample_float_syntax)
                (eng := sample_engine) null_echo_params)). }
  vm_compute. reflexivity.
Qed.

(** With the sample engine and no [echo] key, the first chunk is the frame
    of a unit whose text begins with the prompt ["Hi"]. *)
Lemma C10_echo_defaults_to_true_witness :
  exists s tr chunk,
    prepare (tok := sample_tokenizer) (fs := sample_float_syntax) sample_params = Ok s /\
    runs (generate_stream (tok := sample_tokenizer) (fs := sample_float_syntax)
            (eng := sample_engine) sample_params) tr (Ok tt) /\
    chunk ∈ chunks_of tr /\
    (sample_params !! "echo" = None -> echo s = PBool true) /\
    exists ro,
      ro ∈ results_of (eng := sample_engine) s /\
      chunk = frame (unit_of (echo s) ro) /\
      (sample_params !! "echo" = None -> outputs ro <> [] ->
       prompt ro `prefix_of` text_of (unit_of (echo s) ro)) /\
      (forall out, outputs ro = [out] ->
         (sample_params !! "echo" = None ->
          text_of (unit_of (echo s) ro) = prompt ro ++ text out) /\
         (sample_params !! "echo" = Some (PBool false) ->
          text_of (unit_of (echo s) ro) = text out) /\
         (forall v, sample_params !! "echo" = Some v ->
            text_of (unit_of (echo s) ro)
            = if truthy v then prompt ro ++ text out else text out)) /\
      (forall ctx, engine_contract (eng := sample_engine) -> context s = PStr ctx ->
         prompt ro = ctx /\ exists out, outputs ro = [out]).
Proof.
  eexists. eexists. eexists.
  split; [vm_compute; reflexivity|].
  assert (Hr : runs (generate_stream (tok := sample_tokenizer) (fs := sample_float_syntax)
            (eng := sample_engine) sample_params)
            (fst (run_through (generate_stream (tok := sample_tokenizer)
               (fs := sample_float_syntax) (eng := sample_engine) sample_params)))
            (Ok tt)).
  { exact (run_through_runs
             (generate_stream (tok := sample_tokenizer) (fs := sample_float_syntax)
                (eng := sample_engine) sample_params)). }
  split; [exact Hr|].
  assert (Hin : frame (ret (lit "Hi one")) ∈
                chunks_of (fst (run_through (generate_stream (tok := sample_tokenizer)
                  (fs := sample_float_syntax) (eng := sample_engine) sample_params)))).
  { vm_compute. apply list_elem_of_here. }
  split; [exact Hin|].
  eapply (C10_echo_defaults_to_true (tok := sample_tokenizer) (fs := sample_float_syntax)
            (eng := sample_engine) sample_params _ _ (Ok tt)).
  - vm_compute. reflexivity.
  - exact Hr.
  - exact Hin.
Defined.

Example sample_first_unit :
  chunks_of (fst (run_cancelled 2
    (generate_stream (tok := sample_tokenizer) (fs := sample_float_syntax)
       (eng := sample_engine) sample_params)))
  = [frame (ret (lit "Hi one"))].
Proof. vm_compute. reflexivity. Qed.

Example sample_float_of_Z :
  float_of_Z 1 = float_one /\ float_of_Z 0 = float_zero /\
  float_of_Z (2 ^ 53 + 1) = S754_finite false 4503599627370496 1 /\
  float_of_Z (2 ^ 1024) = S754_infinity false.
Proof. vm_compute. repeat split. Qed.

Example sample_no_echo :
  chunks_of (fst (run_cancelled 2
    (generate_stream (tok := sample_tokenizer) (fs := sample_float_syntax)
       (eng := sample_engine) no_echo_params)))
  = [frame (ret (lit " one"))].
Proof. vm_compute. reflexivity. Qed.

(** ** Further properties of the generator *)

Lemma run_through_stream_outputs (echo : pyval) (outs : list RequestOutput)
    (fail : option exn) :
  chunks_of (fst (run_through (stream_outputs echo outs fail)))
    = map (fun ro => frame (unit_of echo ro)) outs /\
  snd (run_through (stream_outputs echo outs fail))
    = match fail with Some e => Err e | None => Ok tt end.
Proof.
  induction outs as [|ro outs [IH1 IH2]]; cbn [stream_outputs run_through].
  - destruct fail; cbn; auto.
  - rewrite unit_of_ret, encode_unit_ret. cbn [run_through].
    destruct (run_through (stream_outputs echo outs fail)) as [tr o].
    cbn [fst snd chunks_of map] in *. rewrite IH1, IH2, unit_of_ret. auto.
Qed.

Section GeneratorEdges.
Context {tok : Tokenizer} {fs : FloatSyntax} {eng : Engine}.

Lemma run_through_generate_stream (params : dict) (s : submission) :
  prepare params = Ok s ->
  chunks_of (fst (run_through (generate_stream params)))
    = map (fun ro => frame (unit_of (echo s) ro)) (results_of s) /\
  snd (run_through (generate_stream params))
    = match failure_of s with Some e => Err e | None => Ok tt end.
Proof.
  intros Hp. unfold generate_stream. rewrite Hp. cbn [run_through].
  pose proof (run_through_stream_outputs (echo s) (results_of s) (failure_of s))
    as [H1 H2].
  unfold results_of, failure_of in *.
  destruct (run_through _) as [tr o]. cbn [fst snd chunks_of] in *. auto.
Qed.

(** X1. When the engine ends without a single request output, [generate]
    does not return: uncancelled it raises [UnboundLocalError] ([x] was
    never bound), and no execution of it returns a value. *)
Theorem generate_without_output_raises (params : dict) (s : submission) :
  prepare params = Ok s ->
  results_of s = [] ->
  failure_of s = None ->
  run_through (generate params) = ([EvCount; EvResume], Err UnboundLocalError) /\
  forall tr o, runs (generate params) tr o -> exists e, o = Err e.
Proof.
  intros Hp Hres Hfail.
  assert (Hgen : generate params =
                 CountCall (Await (Raise UnboundLocalError) (Raise CancelledError))).
  { unfold generate, generate_stream, mbind, task_bind. rewrite Hp.
    unfold results_of, failure_of in *. rewrite Hres, Hfail. reflexivity. }
  rewrite Hgen. split; [reflexivity|].
  intros tr o Hr.
  apply runs_CountCall_inv in Hr as (tr1 & -> & Hr).
  apply runs_Await_inv in Hr as [(tr2 & -> & Hr) | (tr2 & -> & Hr)];
    apply runs_Raise_inv in Hr as [-> ->]; eauto.
Qed.

(** X2. When the engine raises, after any number of request outputs,
    [generate_stream] has handed on the frame of every output before the
    exception, and [generate] raises the same exception: it returns no
    partial result. *)
Theorem generate_raises_engine_failure (params : dict) (s : submission) (e : exn) :
  prepare params = Ok s ->
  failure_of s = Some e ->
  chunks_of (fst (run_through (generate_stream params)))
    = map (fun ro => frame (unit_of (echo s) ro)) (results_of s) /\
  snd (run_through (generate_stream params)) = Err e /\
  snd (run_through (generate params)) = Err e /\
  chunks_of (fst (run_through (generate params))) = [].
Proof.
  intros Hp Hfail.
  destruct (run_through_generate_stream params s Hp) as [Hch Hout].
  rewrite Hfail in Hout.
  split; [exact Hch|]. split; [exact Hout|].
  unfold generate, mbind, task_bind.
  rewrite run_through_bind, run_through_last_item, Hout. cbn [fst snd].
  split; [reflexivity|].
  unfold silent. generalize (fst (run_through (generate_stream params))).
  intros tr. induction tr as [|ev tr IH]; [reflexivity|].
  rewrite filter_cons. destruct ev; cbn [is_send];
    try (rewrite decide_True by reflexivity; cbn [chunks_of]; exact IH).
  rewrite decide_False by discriminate. exact IH.
Qed.

(** X3. Parameters without a ["prompt"] or a ["request_id"] key: every
    execution of [generate_stream] counts the call and raises [KeyError],
    whatever the other parameters are; nothing is submitted to the engine
    and nothing is handed on. *)
Theorem generate_stream_missing_key (params : dict) (tr : list event)
    (o : result unit) :
  params !! "prompt" = None \/ params !! "request_id" = None ->
  runs (generate_stream params) tr o ->
  tr = [EvCount] /\ o = Err KeyError.
Proof.
  intros Hmiss Hr.
  assert (Hp : prepare params = Err KeyError).
  { unfold prepare, getitem.
    destruct (params !! "prompt") as [c|]; [|reflexivity].
    destruct Hmiss as [Hm|Hm]; [discriminate|]. rewrite Hm. reflexivity. }
  unfold generate_stream in Hr. rewrite Hp in Hr.
  apply runs_CountCall_inv in Hr as (tr1 & -> & Hr).
  apply runs_Raise_inv in Hr as [-> ->]. auto.
Qed.

(** X4. The defaults of [temperature] and [top_p] stand in for an absent
    key only: a key that is present with a value [float] cannot convert
    ([None], a list, a dict) makes [generate_stream] raise [TypeError]
    instead of falling back to [1.0]. *)
Theorem present_key_is_not_defaulted (params : dict) (c r v : pyval) :
  params !! "prompt" = Some c ->
  params !! "request_id" = Some r ->
  params !! "temperature" = Some v \/
  (params !! "temperature" = None /\ params !! "top_p" = Some v) ->
  v = PNone \/ (exists l, v = PList l) \/ (exists d, v = PDict d) ->
  prepare params = Err TypeError /\
  forall tr o, runs (generate_stream params) tr o ->
               tr = [EvCount] /\ o = Err TypeError.
Proof.
  intros Hc Hr Hkey Hv.
  assert (Hconv : py_float v = Err TypeError).
  { destruct Hv as [-> | [[l ->] | [d ->]]]; reflexivity. }
  assert (Hp : prepare params = Err TypeError).
  { unfold prepare, getitem, get. rewrite Hc, Hr. cbn [mbind result_bind].
    destruct Hkey as [Ht | [Ht Hq]]; rewrite Ht; unfold default; cbn [from_option id].
    - rewrite Hconv. reflexivity.
    - cbn [py_float mbind result_bind]. rewrite Hq. cbn [from_option id].
      rewrite Hconv. reflexivity. }
  split; [exact Hp|].
  intros tr o Hrun. unfold generate_stream in Hrun. rewrite Hp in Hrun.
  apply runs_CountCall_inv in Hrun as (tr1 & -> & Hrun).
  apply runs_Raise_inv in Hrun as [-> ->]. auto.
Qed.

(** X5. An [echo] that is present but falsy ([None], [False], [0], the
    empty string, the empty list) switches the echo off: the text of every
    unit is the completions joined by single spaces, without the prompt. *)
Theorem falsy_echo_drops_prompt (params : dict) (s : submission) (v : pyval)
    (ro : RequestOutput) :
  prepare params = Ok s ->
  params !! "echo" = Some v ->
  truthy v = false ->
  text_of (unit_of (echo s) ro) = join (lit " ") (map text (outputs ro)).
Proof.
  intros Hp Hkey Hv.
  destruct (prepare_inv _ _ Hp)
    as (c & rid & t & p & ids & st0 & _ & _ & _ & _ & _ & _ & _ & _ & _ & Hecho & _).
  rewrite Hecho. unfold get. rewrite Hkey. unfold default. cbn [from_option id].
  unfold unit_of. rewrite Hv. reflexivity.
Qed.

End GeneratorEdges.

(** ** Further properties of the normalisation *)

Section NormalisationEdges.
Context {tok : Tokenizer} {fs : FloatSyntax} {eng : Engine}.

Lemma existsb_mono (p : pyval -> bool) (st st' : pyset) :
  (forall x, x ∈ st -> x ∈ st') -> existsb p st = true -> existsb p st' = true.
Proof.
  intros Hsub. rewrite !existsb_elem_of. intros (x & Hin & Hp). eauto.
Qed.

Lemma distinct_snoc (st : pyset) (v : pyval) :
  distinct st = true -> existsb (py_eqb v) st = false -> distinct (st ++ [v]) = true.
Proof.
  induction st as [|x st IH]; intros Hd Hv; [reflexivity|].
  cbn [distinct existsb app] in *.
  apply andb_true_iff in Hd as [Hx Hd]. apply orb_false_iff in Hv as [Hvx Hv].
  rewrite existsb_app. cbn [existsb]. rewrite (py_eqb_sym x v), Hvx.
  apply negb_true_iff in Hx. rewrite Hx. cbn. apply IH; assumption.
Qed.

Lemma distinct_set_add (st : pyset) (v : pyval) :
  distinct st = true -> distinct (set_add st v) = true.
Proof.
  intros Hd. unfold set_add. destruct (existsb (py_eqb v) st) eqn:He; [exact Hd|].
  apply distinct_snoc; assumption.
Qed.

Lemma hashable_set_add (st : pyset) (v : pyval) :
  Forall (fun x => hashable x = true) st -> hashable v = true ->
  Forall (fun x => hashable x = true) (set_add st v).
Proof.
  intros Hst Hv. unfold set_add. destruct (existsb (py_eqb v) st); [exact Hst|].
  apply Forall_app. split; [exact Hst|]. constructor; [exact Hv | constructor].
Qed.

Lemma member_set_add (st : pyset) (v : pyval) :
  hashable v = true -> existsb (py_eqb v) (set_add st v) = true.
Proof.
  intros Hv. unfold set_add. destruct (existsb (py_eqb v) st) eqn:He; [exact He|].
  rewrite existsb_app. cbn [existsb]. rewrite (py_eqb_refl v Hv).
  rewrite orb_true_r. reflexivity.
Qed.

Lemma distinct_NoDup (st : pyset) :
  distinct st = true -> Forall (fun x => hashable x = true) st -> NoDup st.
Proof.
  induction st as [|x st IH]; intros Hd Hh; [constructor|].
  cbn [distinct] in Hd. apply andb_true_iff in Hd as [Hx Hd].
  apply Forall_cons in Hh as [Hhx Hh].
  constructor; [|apply IH; assumption].
  intros Hin. apply negb_true_iff, not_true_iff_false in Hx. apply Hx.
  apply existsb_elem_of. exists x. split; [exact Hin | apply py_eqb_refl; exact Hhx].
Qed.

(** What [stop.update(l)] keeps of a set, and what it adds. *)
Lemma stop_update_exact (l : list pyval) (st st' : pyset) :
  stop_update st l = Ok st' ->
  (distinct st = true -> distinct st' = true) /\
  (Forall (fun x => hashable x = true) st -> Forall (fun x => hashable x = true) st') /\
  (forall x, x ∈ st -> x ∈ st') /\
  (forall x, x ∈ st' -> x ∈ st \/ x ∈ l) /\
  (forall x, x ∈ l -> existsb (py_eqb x) st' = true).
Proof.
  revert st. induction l as [|v l IH]; intros st Hup; cbn [stop_update] in Hup.
  - injection Hup as <-. repeat split; auto. intros x Hx. inversion Hx.
  - destruct (hashable v) eqn:Hv; [|discriminate].
    destruct (IH _ Hup) as (Hd & Hh & Hsub & Hfrom & Hall).
    split; [intros H; apply Hd, distinct_set_add, H|].
    split; [intros H; apply Hh, hashable_set_add; assumption|].
    split; [intros x Hx; apply Hsub, set_add_subseteq, Hx|].
    split.
    + intros x Hx. destruct (Hfrom x Hx) as [Hin|Hin].
      * apply set_add_elem_of in Hin as [Hin|[-> _]]; [auto|].
        right. apply list_elem_of_here.
      * right. apply list_elem_of_further. exact Hin.
    + intros x Hx. apply elem_of_cons in Hx as [->|Hx]; [|apply Hall, Hx].
      eapply existsb_mono; [exact Hsub|]. apply member_set_add. exact Hv.
Qed.

Lemma stop_strings_exact (stop_str : pyval) (st0 : pyset) :
  stop_strings stop_str = Ok st0 ->
  distinct st0 = true /\
  Forall (fun x => hashable x = true) st0 /\
  (forall x, x ∈ st0 -> x ∈ stop_values stop_str) /\
  (forall x, x ∈ stop_values stop_str -> existsb (py_eqb x) st0 = true).
Proof.
  unfold stop_strings, stop_values. intros Hst.
  destruct stop_str as [| | | |[|c r]|[|v l]|];
    try (injection Hst as <-; repeat split; auto; intros x Hx; inversion Hx).
  - injection Hst as <-. cbn [set_add existsb app]. repeat split.
    + repeat constructor.
    + auto.
    + intros x Hx. apply list_elem_of_singleton in Hx. subst x.
      cbn [existsb]. rewrite py_eqb_refl by reflexivity. reflexivity.
  - destruct (stop_update_exact _ _ _ Hst) as (Hd & Hh & _ & Hfrom & Hall).
    split; [apply Hd; reflexivity|]. split; [apply Hh; constructor|].
    split; [|exact Hall].
    intros x Hx. destruct (Hfrom x Hx) as [Hin|Hin]; [inversion Hin | exact Hin].
Qed.

(** What the loop over the stop token ids keeps of a set, and what it
    adds. *)
Lemma add_stop_token_ids_exact (ids : list pyval) (st st' : pyset) :
  add_stop_token_ids st ids = Ok st' ->
  (distinct st = true -> distinct st' = true) /\
  (Forall (fun x => hashable x = true) st -> Forall (fun x => hashable x = true) st') /\
  forall x, x ∈ st' <->
            x ∈ st \/
            exists tid d, tid ∈ ids /\ tid <> PNone /\ tokenizer_decode tid = Ok d /\
                          x = PStr d.
Proof.
  revert st. induction ids as [|tid ids IH]; intros st Hadd.
  - simpl in Hadd. injection Hadd as <-. repeat split; auto.
    intros [Hx | (tid & d & Hin & _)]; [exact Hx | inversion Hin].
  - destruct (add_stop_token_ids_step _ _ _ _ Hadd)
      as [[-> Hrest] | (d & Hne & Hd & Hrest)];
      destruct (IH _ Hrest) as (Hdis & Hh & Hmem).
    + split; [exact Hdis|]. split; [exact Hh|].
      intros x. rewrite (Hmem x). split.
      * intros [Hin | (tid & d & Hin & Hn & Hdec & ->)]; [auto|].
        right. exists tid, d. split; [apply list_elem_of_further; exact Hin | auto].
      * intros [Hin | (tid & d & Hin & Hn & Hdec & ->)]; [auto|].
        apply elem_of_cons in Hin as [-> | Hin]; [congruence|].
        right. exists tid, d. auto.
    + split; [intros H; apply Hdis, distinct_set_add, H|].
      split; [intros H; apply Hh, hashable_set_add; [exact H | reflexivity]|].
      intros x. rewrite (Hmem x). split.
      * intros [Hin | (tid' & d' & Hin & Hn & Hdec & ->)].
        -- apply set_add_elem_of in Hin as [Hin | [-> _]]; [auto|].
           right. exists tid, d. split; [apply list_elem_of_here | auto].
        -- right. exists tid', d'.
           split; [apply list_elem_of_further; exact Hin | auto].
      * intros [Hin | (tid' & d' & Hin & Hn & Hdec & ->)].
        -- left. apply set_add_subseteq. exact Hin.
        -- apply elem_of_cons in Hin as [-> | Hin].
           ++ left. assert (d' = d) by congruence. subst d'. apply set_add_str.
           ++ right. exists tid', d'. auto.
Qed.

(** X6. The stop list handed to the engine is exact. No two of its
    members are equal, in Python's sense of a set. Every member is a value
    the [stop] parameter names or the decoded string of a stop token id
    that is not [None]; every value the [stop] parameter names has an equal
    member, and every such decoded string is a member. The stop token ids
    are the values the loop at line 88 meets: the supplied ones, and the
    end-of-sequence token id. *)
Theorem stop_list_is_exact (params : dict) (s : submission) :
  prepare params = Ok s ->
  distinct (stop (sampling_params s)) = true /\
  NoDup (stop (sampling_params s)) /\
  exists v ids,
    stop_token_ids_of params = Ok v /\
    iterate v = Ok ids /\
    (forall x, x ∈ stop (sampling_params s) ->
       x ∈ stop_values (get params "stop" PNone) \/
       exists tid d, tid ∈ ids /\ tid <> PNone /\ tokenizer_decode tid = Ok d /\
                     x = PStr d) /\
    (forall x, x ∈ stop_values (get params "stop" PNone) ->
       existsb (py_eqb x) (stop (sampling_params s)) = true) /\
    (forall tid d, tid ∈ ids -> tid <> PNone -> tokenizer_decode tid = Ok d ->
       PStr d ∈ stop (sampling_params s)).
Proof.
  intros Hp.
  destruct (prepare_inv _ _ Hp)
    as (c & rid & t & p & ids & st0 & _ & _ & _ & _ & (v & Hids & Hiter) & Hst0 & Hadd
        & _ & _ & _ & Hsp).
  rewrite Hsp. cbn [stop].
  destruct (stop_strings_exact _ _ Hst0) as (Hd0 & Hh0 & Hfrom0 & Hall0).
  destruct (add_stop_token_ids_exact _ _ _ Hadd) as (Hd & Hh & Hmem).
  split; [apply Hd, Hd0|].
  split; [apply distinct_NoDup; [apply Hd, Hd0 | apply Hh, Hh0]|].
  exists v, ids. split; [exact Hids|]. split; [exact Hiter|].
  split; [|split].
  - intros x Hx. apply Hmem in Hx as [Hx|Hx]; [left; apply Hfrom0, Hx | right; exact Hx].
  - intros x Hx. eapply existsb_mono; [|apply Hall0, Hx].
    intros y Hy. apply Hmem. left. exact Hy.
  - intros tid d Hin Hne Hdec. apply Hmem. right. exists tid, d. auto.
Qed.

(** X7. The [top_p] handed to the engine is never below the floor [1e-5]:
    the comparison [top_p < 1e-5] is false for every accepted input, the
    infinities and NaN included. *)
Theorem top_p_not_below_floor (params : dict) (s : submission) :
  prepare params = Ok s ->
  SFltb (top_p (sampling_params s)) float_1e_5 = false.
Proof.
  intros Hp.
  destruct (prepare_inv _ _ Hp)
    as (c & rid & t & p & ids & st0 & _ & _ & _ & _ & _ & _ & _ & _ & _ & _ & Hsp).
  rewrite Hsp. cbn [top_p]. unfold normalize_top_p, float_max.
  destruct (SFleb t float_1e_5); [reflexivity|].
  destruct (SFltb p float_1e_5) eqn:Hlt; [reflexivity | exact Hlt].
Qed.

End NormalisationEdges.

(** X9. Every chunk [generate_stream] hands on is plain ASCII: its bytes
    are printable characters from the space to the tilde, followed by the
    one byte 0 that ends it. Text outside that range reaches the client only
    as JSON escapes. *)
Theorem chunks_are_ascii {tok : Tokenizer} {fs : FloatSyntax} {eng : Engine}
    (params : dict) (tr : list event) (o : result unit) (chunk : bytes) :
  runs (generate_stream params) tr o ->
  chunk ∈ chunks_of tr ->
  exists body,
    chunk = body ++ [x00] /\
    Forall (fun b => (32 <= Byte.to_N b <= 126)%N) body.
Proof.
  intros Hr Hin. apply runs_generate_stream in Hr.
  destruct (prepare params) as [s|e].
  - destruct Hr as (k & _ & Hch & _). rewrite Hch in Hin.
    apply list_elem_of_In, in_map_iff in Hin as (ro & <- & _).
    exists (payload (unit_of (echo s) ro)). split; [reflexivity|].
    rewrite unit_of_ret. unfold payload.
    pose proof (json_dumps_ret_printable (unit_text (echo s) ro)) as Hpr.
    induction Hpr as [|c l Hc Hl IH]; [constructor|].
    cbn [map]. constructor; [|exact IH].
    rewrite to_N_byte_of_N by (unfold printable in Hc; lia). exact Hc.
  - destruct Hr as [Hch _]. rewrite Hch in Hin. inversion Hin.
Qed.

(** ** Further properties of the endpoints *)

Lemma yieldless_last_item {A} (g : task A) (x : option bytes) :
  yieldless (last_item g x).
Proof.
  revert x. induction g; intros x; cbn [last_item yieldless]; auto.
Qed.

Lemma yieldless_bind {A B} (t : task A) (f : A -> task B) :
  yieldless t -> (forall a, yieldless (f a)) -> yieldless (bind t f).
Proof.
  intros Ht Hf. induction t; cbn [yieldless bind] in *; auto; try contradiction.
  destruct Ht. split; auto.
Qed.

Lemma yieldless_runs {A} (t : task A) tr o :
  yieldless t -> runs t tr o -> chunks_of tr = [].
Proof.
  intros Hy Hr. induction Hr as [a|e|t ev k tr o Hn Hr IH|t c tr o Hc Hr IH].
  - reflexivity.
  - reflexivity.
  - destruct t; cbn [next] in Hn; try discriminate; injection Hn as <- <-;
      cbn [yieldless chunks_of] in *; try (apply IH; tauto). contradiction.
  - destruct t; cbn [cancel] in Hc; try discriminate; injection Hc as <-;
      cbn [yieldless chunks_of] in *; apply IH; tauto.
Qed.

Lemma slotless_cons_inv (ev : event) (tr : list event) :
  slotless (ev :: tr) ->
  is_acquire ev = false /\ is_release ev = false /\ is_abort ev = false /\ slotless tr.
Proof.
  unfold slotless. rewrite !count_cons. intros (H1 & H2 & H3).
  destruct (is_acquire ev), (is_release ev), (is_abort ev); cbn in *;
    try lia; auto.
Qed.

Lemma guarded_slotless (body rest : list event) :
  slotless body -> guarded true (body ++ rest) = guarded true rest.
Proof.
  induction body as [|ev body IH]; intros Hs; [reflexivity|].
  apply slotless_cons_inv in Hs as (Ha & Hr & Hb & Hs).
  destruct ev; cbn [app guarded andb]; try discriminate; auto.
Qed.


Lemma endpoint_run_guarded (rid : str) tr o :
  endpoint_run rid tr o -> guarded false tr = true.
Proof.
  destruct 1 as [e | | body Hs | body e Hs | body Hs]; try reflexivity.
  - cbn [guarded]. rewrite guarded_slotless by exact Hs. reflexivity.
  - cbn [guarded]. rewrite <- (app_nil_r body).
    rewrite guarded_slotless by exact Hs. reflexivity.
  - cbn [guarded]. rewrite guarded_slotless by exact Hs. reflexivity.
Qed.

Section EndpointEdges.
Context {tok : Tokenizer} {fs : FloatSyntax} {eng : Engine} {cv : Conversation}.

Lemma yieldless_generate (params : dict) : yieldless (generate params).
Proof.
  unfold generate, mbind, task_bind. apply yieldless_bind.
  - apply yieldless_last_item.
  - intros [x|]; [|exact I]. destruct (decode_unit x); exact I.
Qed.

Lemma runs_endpoint_shape (params : dict) (rid : str) tr o :
  runs (serve (api_generate_stream params rid)) tr o \/
  runs (serve (api_generate params rid)) tr o ->
  endpoint_run rid tr o.
Proof.
  intros Hr.
  destruct (get_conversation_prompt params) as [p|e] eqn:Hp.
  2:{ destruct (serve_prompt_error params rid e Hp) as [Hs1 Hs2].
      rewrite Hs1, Hs2 in Hr.
      assert (Hr' : runs (Raise e : task unit) tr o) by tauto.
      apply runs_Raise_inv in Hr' as [-> ->]. constructor. }
  rewrite (serve_api_generate_stream_ok _ _ _ Hp),
          (serve_api_generate_ok _ _ _ Hp) in Hr.
  destruct Hr as [Hr|Hr];
    apply runs_InitSemaphore_inv in Hr as (tr1 & -> & Hr);
    (apply runs_SemAcquire_inv in Hr as [(tr2 & -> & Hr) | [-> ->]];
     [|constructor]).
  - apply runs_stream_response_cleanup in Hr; [|apply quiet_generate_stream].
    destruct Hr as [(pre & -> & Hs & -> & _) | (e & -> & Hs & _)];
      constructor; exact Hs.
  - apply runs_bind_inv in Hr as [(tr3 & out & tr4 & Hg & Hc & ->) | (e & Hg & ->)].
    + apply runs_cleanup_render in Hc as [-> [[-> _] | [-> _]]];
        constructor; (eapply quiet_runs_slotless; [apply quiet_generate | exact Hg]).
    + constructor. eapply quiet_runs_slotless; [apply quiet_generate | exact Hg].
Qed.



(** X12. In every execution of either endpoint the generator runs only
    while the slot is held: its call is counted and its chunks are handed on
    after the acquisition and before the release. The engine's abort is
    called only after the slot has been released. *)
Theorem generator_runs_while_slot_held (params : dict) (rid : str)
    (tr : list event) (o : result unit) :
  runs (serve (api_generate_stream params rid)) tr o \/
  runs (serve (api_generate params rid)) tr o ->
  guarded false tr = true.
Proof.
  intros Hr. apply runs_endpoint_shape in Hr.
  apply endpoint_run_guarded in Hr. exact Hr.
Qed.

(** X13. The non-streaming endpoint hands no chunk to the transport: the
    chunks of the generator are consumed inside [generate]. *)
Theorem api_generate_hands_on_nothing (params : dict) (rid : str)
    (tr : list event) (o : result unit) :
  runs (serve (api_generate params rid)) tr o -> chunks_of tr = [].
Proof.
  intros Hr.
  destruct (get_conversation_prompt params) as [p|e] eqn:Hp.
  - rewrite (serve_api_generate_ok _ _ _ Hp) in Hr.
    eapply yieldless_runs; [|exact Hr].
    cbn [yieldless]. apply yieldless_bind; [apply yieldless_generate|].
    intros output. cbn [yieldless]. destruct (render output); exact I.
  - destruct (serve_prompt_error params rid e Hp) as [_ Hs]. rewrite Hs in Hr.
    apply runs_Raise_inv in Hr as [-> _]. reflexivity.
Qed.

Lemma with_prompt_overwrites (params : dict) (p rid : str) (v w : pyval) :
  with_prompt (<["prompt" := v]> (<["request_id" := w]> params)) p rid
  = with_prompt params p rid.
Proof.
  unfold with_prompt. apply map_eq. intros key.
  rewrite !lookup_insert. repeat case_decide; congruence.
Qed.

Lemma get_conversation_prompt_ignores (params : dict) (v w : pyval) :
  get_conversation_prompt (<["prompt" := v]> (<["request_id" := w]> params))
  = get_conversation_prompt params.
Proof.
  unfold get_conversation_prompt, getitem.
  rewrite !lookup_insert.
  repeat case_decide; try discriminate; reflexivity.
Qed.

(** X8. A ["prompt"] or a ["request_id"] in the request body has no
    effect on either endpoint: the endpoint is the same task as on the body
    without them. The parameters an endpoint hands to the generator carry
    the prompt it built and the request id it drew, and these are the
    context and the request id of whatever is submitted to the engine. *)
Theorem body_cannot_set_prompt_or_id (params : dict) (rid : str) (v w : pyval) :
  let forged := <["prompt" := v]> (<["request_id" := w]> params) in
  api_generate_stream forged rid = api_generate_stream params rid /\
  api_generate forged rid = api_generate params rid /\
  forall p,
    get_conversation_prompt forged = Ok p ->
    exists d,
      serve (api_generate_stream forged rid) =
        InitSemaphore (SemAcquire
          (stream_response (generate_stream d)
             (run_background (create_background_tasks rid)))) /\
      serve (api_generate forged rid) =
        InitSemaphore (SemAcquire
          (bind (generate d)
             (fun output =>
                SemRelease (EngineAbort rid
                  (match render output with
                   | Some _ => Return tt
                   | None => Raise UnicodeEncodeError
                   end))))) /\
      d !! "prompt" = Some (PStr p) /\
      d !! "request_id" = Some (PStr rid) /\
      (forall key : string, key <> "prompt" -> key <> "request_id" ->
                            d !! key = params !! key) /\
      forall s, prepare d = Ok s -> context s = PStr p /\ request_id s = PStr rid.
Proof.
  intros forged.
  assert (Hs : api_generate_stream forged rid = api_generate_stream params rid).
  { unfold api_generate_stream, mbind, task_bind, forged.
    rewrite get_conversation_prompt_ignores.
    destruct (get_conversation_prompt params) as [p|e]; [|reflexivity].
    cbn [lift bind].
    change (<["request_id" := PStr rid]>
              (<["prompt" := PStr p]> (<["prompt" := v]> (<["request_id" := w]> params))))
      with (with_prompt (<["prompt" := v]> (<["request_id" := w]> params)) p rid).
    rewrite with_prompt_overwrites. reflexivity. }
  assert (Hg : api_generate forged rid = api_generate params rid).
  { unfold api_generate, mbind, task_bind, forged.
    rewrite get_conversation_prompt_ignores.
    destruct (get_conversation_prompt params) as [p|e]; [|reflexivity].
    cbn [lift bind].
    change (<["request_id" := PStr rid]>
              (<["prompt" := PStr p]> (<["prompt" := v]> (<["request_id" := w]> params))))
      with (with_prompt (<["prompt" := v]> (<["request_id" := w]> params)) p rid).
    rewrite with_prompt_overwrites. reflexivity. }
  split; [exact Hs|]. split; [exact Hg|].
  intros p Hp. unfold forged in Hp. rewrite get_conversation_prompt_ignores in Hp.
  exists (with_prompt params p rid).
  rewrite Hs, Hg.
  split; [apply serve_api_generate_stream_ok, Hp|].
  split; [apply serve_api_generate_ok, Hp|].
  destruct (with_prompt_lookup params p rid) as (H1 & H2 & H3).
  split; [exact H1|]. split; [exact H2|]. split; [exact H3|].
  intros s Hprep.
  destruct (prepare_inv _ _ Hprep)
    as (c & r & t & q & ids & st0 & Hc & Hr & _ & _ & _ & _ & _ & Hctx & Hrid & _).
  unfold getitem in Hc, Hr. rewrite H1 in Hc. rewrite H2 in Hr.
  injection Hc as <-. injection Hr as <-. auto.
Qed.

End EndpointEdges.

(** ** Further properties of the worker process *)

Lemma holding_account (ev : event) (r : request) (k : task unit) :
  is_acquire ev = false -> is_release ev = false ->
  holding (account ev r k) = holding r.
Proof. intros Ha Hr. unfold holding, account. cbn. rewrite Ha, Hr. reflexivity. Qed.

Lemma finished_next {A} (t : task A) : finished t = true -> next t = None.
Proof. destruct t; cbn; congruence. Qed.

Lemma finished_cancel {A} (t : task A) : finished t = true -> cancel t = None.
Proof. destruct t; cbn; congruence. Qed.

Section WorkerEdges.
Context {tok : Tokenizer} {fs : FloatSyntax} {eng : Engine} {cv : Conversation}.

Lemma init_first_endpoint_task (t : task unit) : endpoint_task t -> init_first t.
Proof.
  destruct 1 as [params rid | params rid];
    destruct (get_conversation_prompt params) as [p|e] eqn:Hp.
  - rewrite (serve_api_generate_ok _ _ _ Hp). exact I.
  - destruct (serve_prompt_error params rid e Hp) as [_ ->]. exact I.
  - rewrite (serve_api_generate_stream_ok _ _ _ Hp). exact I.
  - destruct (serve_prompt_error params rid e Hp) as [-> _]. exact I.
Qed.

Lemma semaphore_ready_step (capacity : Z) (sv sv' : server) (l : label) :
  (0 <= capacity)%Z ->
  limit_worker_concurrency (the_worker sv) = capacity ->
  semaphore_ready sv -> step sv l sv' -> semaphore_ready sv'.
Proof.
  intros Hcap Hlim Hready Hstep.
  destruct Hstep as [sv t Ht | sv i r ev k w' ab' Hi Hn Hp
                    | sv i r ev k e Hi Hn Hp | sv i r c Hi Hc];
    unfold semaphore_ready in *; cbn [the_worker requests]; intros Hnone.
  - apply Forall_app. split; [auto|].
    constructor; [|constructor]. cbn. apply init_first_endpoint_task. exact Ht.
  - assert (Hsem : semaphore (the_worker sv) = None).
    { destruct (the_worker sv) as [lim sem ct]. cbn in *.
      destruct ev; cbn [perform semaphore limit_worker_concurrency call_ct] in Hp;
        try (injection Hp as <- <-; exact Hnone).
      - destruct sem; [injection Hp as <- <-; exact Hnone|].
        destruct (lim <? 0)%Z; [discriminate|].
        injection Hp as <- <-. discriminate.
      - destruct sem; [|reflexivity].
        destruct (0 <? z)%Z; [injection Hp as <- <-; discriminate | discriminate].
      - destruct sem; [injection Hp as <- <-; discriminate | reflexivity]. }
    specialize (Hready Hsem).
    apply Forall_insert; [exact Hready|].
    pose proof (Forall_lookup_1 _ _ _ _ Hready Hi) as Hr. cbn in Hr |- *.
    destruct (code r); cbn [next] in Hn; try discriminate; injection Hn as <- <-;
      cbn [init_first] in Hr; try tauto.
    (* the construction itself: the semaphore exists afterwards *)
    exfalso. destruct (the_worker sv) as [lim sem ct]. cbn in *. subst sem.
    cbn [perform semaphore limit_worker_concurrency] in Hp.
    destruct (lim <? 0)%Z; [discriminate|]. injection Hp as <- <-. discriminate.
  - specialize (Hready Hnone). apply Forall_insert; [exact Hready | exact I].
  - specialize (Hready Hnone). apply Forall_insert; [exact Hready|].
    pose proof (Forall_lookup_1 _ _ _ _ Hready Hi) as Hr. cbn in Hr |- *.
    destruct (code r); cbn [cancel] in Hc; try discriminate; injection Hc as <-;
      cbn [init_first] in Hr; tauto.
Qed.

Lemma reachable_semaphore_ready (capacity : Z) (sv : server) :
  (0 <= capacity)%Z -> reachable capacity sv -> semaphore_ready sv.
Proof.
  intros Hcap. induction 1 as [|sv l sv' Hreach IH Hstep].
  - intros _. constructor.
  - eapply semaphore_ready_step; [exact Hcap | | exact IH | exact Hstep].
    apply (reachable_slots_accounted capacity sv Hcap Hreach).
Qed.

(** X14. With a capacity that is not negative, no step of the worker ever
    fails on the semaphore: [release_worker_semaphore] is never called while
    [worker.semaphore] is still [None], the semaphore is never awaited
    before it is constructed, and its construction is never rejected. *)
Theorem semaphore_never_faults (capacity : Z) (sv sv' : server)
    (i : nat) (ev : event) (e : exn) :
  (0 <= capacity)%Z ->
  reachable capacity sv ->
  ~ step sv (LFault i ev e) sv'.
Proof.
  intros Hcap Hreach Hstep.
  pose proof (reachable_semaphore_ready capacity sv Hcap Hreach) as Hready.
  destruct (reachable_slots_accounted capacity sv Hcap Hreach) as (Hlim & _ & _).
  inversion Hstep as [| | sv0 i0 r ev0 k e0 Hi Hn Hp |]; subst.
  unfold semaphore_ready in Hready.
  destruct (the_worker sv) as [lim sem ct]. cbn in *.
  destruct ev; cbn [perform semaphore limit_worker_concurrency call_ct] in Hp;
    try discriminate.
  - destruct sem; [discriminate|].
    destruct (lim <? 0)%Z eqn:Hneg; [|discriminate].
    apply Z.ltb_lt in Hneg. lia.
  - destruct sem as [v|]; [destruct (0 <? v)%Z; discriminate|].
    pose proof (Forall_lookup_1 _ _ _ _ (Hready eq_refl) Hi) as Hr. cbn in Hr.
    destruct (code r); cbn [next] in Hn; try discriminate. exact Hr.
  - destruct sem as [v|]; [discriminate|].
    pose proof (Forall_lookup_1 _ _ _ _ (Hready eq_refl) Hi) as Hr. cbn in Hr.
    destruct (code r); cbn [next] in Hn; try discriminate. exact Hr.
Qed.

(** X15. A request is admitted only when a slot is free: a step in which a
    request acquires the semaphore starts from fewer holders than the
    capacity and adds exactly one, and a step in which a request releases it
    removes exactly one. *)
Theorem admission_takes_a_free_slot (capacity : Z) (sv sv' : server) (i : nat) :
  (0 <= capacity)%Z ->
  reachable capacity sv ->
  (step sv (LStep i EvAcquire) sv' ->
   (Z.of_nat (holders sv) < capacity)%Z /\ holders sv' = S (holders sv)) /\
  (step sv (LStep i EvRelease) sv' ->
   S (holders sv') = holders sv).
Proof.
  intros Hcap Hreach.
  destruct (reachable_slots_accounted capacity sv Hcap Hreach) as (Hlim & Hall & Hsem).
  assert (Hnext : forall ev, step sv (LStep i ev) sv' ->
            slots_accounted capacity sv' /\
            perform (the_worker sv) (engine_aborted sv) ev
              = Done (the_worker sv') (engine_aborted sv')).
  { intros ev Hstep. split.
    - eapply slots_accounted_step; [exact Hcap | | exact Hstep].
      repeat split; assumption.
    - inversion Hstep; subst. cbn. assumption. }
  unfold holders in *.
  rewrite (holders_held_total _ Hall) in *.
  split; intros Hstep; destruct (Hnext _ Hstep) as [(Hlim' & Hall' & Hsem') Hp];
    pose proof (holders_held_total _ Hall') as Hh';
    pose proof (holders_held_total _ Hall) as Hh;
    destruct (the_worker sv) as [lim sem ct];
    cbn [perform semaphore limit_worker_concurrency call_ct] in *.
  - destruct sem as [v|]; [|discriminate].
    destruct (0 <? v)%Z eqn:Hpos; [|discriminate]. apply Z.ltb_lt in Hpos.
    injection Hp as Hw _. rewrite <- Hw in Hsem'. cbn in Hsem'. lia.
  - destruct sem as [v|]; [|discriminate].
    injection Hp as Hw _. rewrite <- Hw in Hsem'. cbn in Hsem'. lia.
Qed.

End WorkerEdges.

Section Wedged.
Context {tok : Tokenizer} {fs : FloatSyntax} {eng : Engine} {cv : Conversation}.

Lemma wedged_step (capacity : Z) (sv sv' : server) (l : label) :
  slots_accounted capacity sv -> wedged sv -> step sv l sv' -> wedged sv'.
Proof.
  intros (_ & Hall & _) [Hsem Hfin] Hstep.
  assert (Hidle : forall i r, requests sv !! i = Some r ->
            finished (code r) = false -> holding r = false).
  { intros i r Hi Hnf. pose proof (Forall_lookup_1 _ _ _ _ Hfin Hi) as Hr. cbv beta in Hr.
    destruct (holding r); [|reflexivity]. rewrite Hr in Hnf by reflexivity. discriminate. }
  destruct Hstep as [sv t Ht | sv i r ev k w' ab' Hi Hn Hp
                    | sv i r ev k e Hi Hn Hp | sv i r c Hi Hc];
    unfold wedged; cbn [the_worker requests].
  - split; [exact Hsem|]. apply Forall_app. split; [exact Hfin|].
    constructor; [|constructor]. cbn. discriminate.
  - assert (Hnf : finished (code r) = false).
    { destruct (finished (code r)) eqn:Hf; [|reflexivity].
      rewrite (finished_next _ Hf) in Hn. discriminate. }
    pose proof (Hidle i r Hi Hnf) as Hh.
    destruct (Forall_lookup_1 _ _ _ _ Hall Hi) as [_ Hdisc]. rewrite Hh in Hdisc.
    destruct (the_worker sv) as [lim sem ct]. cbn in Hsem. subst sem.
    destruct ev; cbn [perform semaphore limit_worker_concurrency call_ct] in Hp;
      try discriminate;
      try (injection Hp as <- <-; split; [reflexivity|];
           apply Forall_insert; [exact Hfin|];
           rewrite holding_account by reflexivity; rewrite Hh; discriminate).
    exfalso. destruct (code r); cbn [next] in Hn; try discriminate.
    cbn [disc] in Hdisc. destruct Hdisc as [Hd _]. discriminate.
  - split; [exact Hsem|]. apply Forall_insert; [exact Hfin|]. reflexivity.
  - assert (Hnf : finished (code r) = false).
    { destruct (finished (code r)) eqn:Hf; [|reflexivity].
      rewrite (finished_cancel _ Hf) in Hc. discriminate. }
    split; [exact Hsem|]. apply Forall_insert; [exact Hfin|].
    rewrite holding_account by reflexivity. rewrite (Hidle i r Hi Hnf). discriminate.
Qed.

Lemma steps_reachable (capacity : Z) (sv sv' : server) :
  reachable capacity sv -> steps sv sv' -> reachable capacity sv'.
Proof.
  intros Hreach Hsteps.
  induction Hsteps as [sv0 | sv0 l sv1 sv2 _ IH Hstep]; [exact Hreach|].
  eapply reachable_step; [apply IH; exact Hreach | exact Hstep].
Qed.

(** X16. A slot that was never released is lost for good. From a state of
    the worker in which the semaphore has no free slot and every request
    that holds one has ended (as after an exception in [api_generate]),
    whatever happens next leaves the worker in such a state, and no request
    is ever admitted again: [acquire_worker_semaphore] never returns. *)
Theorem lost_slot_is_never_recovered (capacity : Z) (sv sv' : server) :
  (0 <= capacity)%Z ->
  reachable capacity sv ->
  wedged sv ->
  steps sv sv' ->
  wedged sv' /\ forall i sv'', ~ step sv' (LStep i EvAcquire) sv''.
Proof.
  intros Hcap Hreach Hw Hsteps.
  assert (Hw' : wedged sv').
  { induction Hsteps as [sv0 | sv0 l sv1 sv2 Hsteps IH Hstep]; [exact Hw|].
    eapply wedged_step; [| apply IH; assumption | exact Hstep].
    apply (reachable_slots_accounted capacity); [exact Hcap|].
    eapply steps_reachable; eassumption. }
  split; [exact Hw'|].
  intros i sv'' Hstep. destruct Hw' as [Hsem _].
  inversion Hstep as [| sv0 i0 r ev k w' ab' Hi Hn Hp | |]; subst.
  destruct (the_worker sv') as [lim sem ct]. cbn in Hsem. subst sem.
  cbn in Hp. discriminate.
Qed.

End Wedged.

(** ** The conversation prompt *)

Section Prompt.
Context {tok : Tokenizer} {fs : FloatSyntax} {eng : Engine} {cv : Conversation}.

(** X17. A request body without ["model_identifier"], ["system_message"] or
    ["messages"] is refused with [KeyError] by both endpoints before
    anything else happens: the semaphore is neither constructed nor
    acquired, the generator is not called, nothing is released or
    aborted. *)
Theorem missing_field_is_refused_before_admission (params : dict) (rid : str) :
  params !! "model_identifier" = None \/ params !! "system_message" = None \/
  params !! "messages" = None ->
  get_conversation_prompt params = Err KeyError /\
  (forall tr o, runs (serve (api_generate params rid)) tr o ->
     tr = [] /\ o = Err KeyError) /\
  (forall tr o, runs (serve (api_generate_stream params rid)) tr o ->
     tr = [] /\ o = Err KeyError).
Proof.
  intros Hmiss.
  assert (Hp : get_conversation_prompt params = Err KeyError).
  { unfold get_conversation_prompt, getitem.
    destruct (params !! "model_identifier"); cbn;
      [|reflexivity].
    destruct (params !! "system_message"); cbn; [|reflexivity].
    destruct (params !! "messages"); cbn; [|reflexivity].
    destruct Hmiss as [H|[H|H]]; discriminate. }
  split; [exact Hp|].
  destruct (serve_prompt_error params rid KeyError Hp) as [Hs Hg].
  split; intros tr o Hruns.
  - rewrite Hg in Hruns. apply runs_Raise_inv in Hruns. exact Hruns.
  - rewrite Hs in Hruns. apply runs_Raise_inv in Hruns. exact Hruns.
Qed.

Lemma append_messages_role (c : conv) (d : items) (role : pyval) (rest : list pyval) :
  lookup_item d (lit "role") = Some role ->
  append_messages c (PDict d :: rest)
  = match role with
    | PStr r =>
        if decide (r = lit "human") then
          t ← subscript d (lit "text");
          append_messages (append_message c (roles c 0) t) rest
        else if decide (r = lit "ai") then
          t ← subscript d (lit "text");
          append_messages (append_message c (roles c 1) t) rest
        else append_messages c rest
    | _ => append_messages c rest
    end.
Proof.
  intros Hrole. cbn [append_messages]. unfold subscript. rewrite Hrole.
  reflexivity.
Qed.

(** X18. Messages whose role is neither ["human"] nor ["ai"] are skipped:
    when every message is a dict with a ["role"], the prompt is the one of
    the human and ai messages alone, in their order; the skipped messages
    need no ["text"]. *)
Theorem other_roles_are_skipped (params : dict) (l : list pyval) :
  Forall has_role l ->
  get_conversation_prompt (<["messages" := PList l]> params)
  = get_conversation_prompt
      (<["messages" := PList (List.filter known_role l)]> params).
Proof.
  intros Hall.
  assert (Hloop : forall c, append_messages c l
                            = append_messages c (List.filter known_role l)).
  { induction Hall as [|m l Hm _ IH]; intros c; [reflexivity|].
    destruct m as [| | | | | |d]; cbn [has_role] in Hm; try contradiction.
    destruct Hm as [role Hrole].
    rewrite (append_messages_role _ _ _ _ Hrole).
    cbn [List.filter]. unfold known_role. rewrite Hrole.
    destruct role as [| | | |r| |]; try apply IH.
    destruct (decide (r = lit "human")) as [->|Hh].
    - rewrite bool_decide_eq_true_2 by reflexivity. cbn [orb].
      rewrite (append_messages_role _ _ _ _ Hrole).
      rewrite decide_True by reflexivity.
      destruct (subscript d (lit "text")); [apply IH | reflexivity].
    - rewrite (bool_decide_eq_false_2 _ Hh). cbn [orb].
      destruct (decide (r = lit "ai")) as [->|Ha].
      + rewrite bool_decide_eq_true_2 by reflexivity.
        rewrite (append_messages_role _ _ _ _ Hrole).
        rewrite decide_False by (intros Heq; vm_compute in Heq; discriminate Heq).
        rewrite decide_True by reflexivity.
        destruct (subscript d (lit "text")); [apply IH | reflexivity].
      + rewrite (bool_decide_eq_false_2 _ Ha). apply IH. }
  unfold get_conversation_prompt, getitem.
  rewrite !lookup_insert.
  repeat case_decide; try discriminate; try congruence.
  destruct (params !! "model_identifier"); cbn; [|reflexivity].
  destruct (params !! "system_message"); cbn [mbind result_bind iterate];
    [|reflexivity].
  rewrite Hloop. reflexivity.
Qed.

(** X19. The conversation is built message by message: the prompt of a
    history and its continuation is the one obtained by appending the
    continuation to the conversation of the history, and an error in the
    history is the error of the whole. *)
Theorem history_is_appended_in_order (c : conv) (history more : list pyval) :
  append_messages c (history ++ more)
  = (c' ← append_messages c history; append_messages c' more).
Proof.
  revert c. induction history as [|m l1 IH]; intros c; [reflexivity|].
  cbn [app append_messages].
  destruct m; try reflexivity.
  destruct (subscript d (lit "role")) as [role|e]; cbn [mbind result_bind];
    [|reflexivity].
  destruct role; try apply IH.
  repeat case_decide; try apply IH;
    (destruct (subscript d (lit "text")) as [t|e]; cbn [mbind result_bind];
     [apply IH | reflexivity]).
Qed.

End Prompt.

(** ** The further properties at sample inputs *)

(** An engine without output: [generate] raises [UnboundLocalError]. *)
Lemma generate_without_output_raises_witness :
  run_through (generate (tok := sample_tokenizer) (fs := sample_float_syntax)
                 (eng := empty_engine) sample_params)
  = ([EvCount; EvResume], Err UnboundLocalError) /\
  forall tr o,
    runs (generate (tok := sample_tokenizer) (fs := sample_float_syntax)
            (eng := empty_engine) sample_params) tr o ->
    exists e, o = Err e.
Proof.
  eapply (generate_without_output_raises (tok := sample_tokenizer)
            (fs := sample_float_syntax) (eng := empty_engine) sample_params).
  - vm_compute. reflexivity.
  - vm_compute. reflexivity.
  - vm_compute. reflexivity.
Defined.

(** The engine that raises after one output: the stream hands that output
    on and raises; [generate] raises the same exception. *)
Lemma generate_raises_engine_failure_witness :
  exists s,
    prepare (tok := sample_tokenizer) (fs := sample_float_syntax) sample_params = Ok s /\
    failure_of (eng := failing_engine) s = Some EngineError /\
    chunks_of (fst (run_through
                      (generate_stream (tok := sample_tokenizer)
                         (fs := sample_float_syntax) (eng := failing_engine)
                         sample_params)))
      = map (fun ro => frame (unit_of (echo s) ro)) (results_of (eng := failing_engine) s) /\
    snd (run_through
           (generate_stream (tok := sample_tokenizer) (fs := sample_float_syntax)
              (eng := failing_engine) sample_params)) = Err EngineError /\
    snd (run_through
           (generate (tok := sample_tokenizer) (fs := sample_float_syntax)
              (eng := failing_engine) sample_params)) = Err EngineError /\
    chunks_of (fst (run_through
                      (generate (tok := sample_tokenizer) (fs := sample_float_syntax)
                         (eng := failing_engine) sample_params))) = [].
Proof.
  eexists. split; [vm_compute; reflexivity|].
  split; [vm_compute; reflexivity|].
  apply (generate_raises_engine_failure (tok := sample_tokenizer)
           (fs := sample_float_syntax) (eng := failing_engine) sample_params).
  - vm_compute. reflexivity.
  - vm_compute. reflexivity.
Defined.

(** The sample parameters without their prompt. *)
Lemma generate_stream_missing_key_witness :
  exists tr o,
    (delete "prompt" sample_params : dict) !! "prompt" = None /\
    runs (generate_stream (tok := sample_tokenizer) (fs := sample_float_syntax)
            (eng := sample_engine) (delete "prompt" sample_params)) tr o /\
    tr = [EvCount] /\ o = Err KeyError.
Proof.
  pose proof (run_through_runs
                (generate_stream (tok := sample_tokenizer) (fs := sample_float_syntax)
                   (eng := sample_engine) (delete "prompt" sample_params))) as Hr.
  eexists. eexists.
  split; [vm_compute; reflexivity|].
  split; [exact Hr|].
  eapply (generate_stream_missing_key (tok := sample_tokenizer)
            (fs := sample_float_syntax) (eng := sample_engine)
            (delete "prompt" sample_params)).
  - left. vm_compute. reflexivity.
  - exact Hr.
Defined.

(** A temperature given as [None]. *)
Lemma present_key_is_not_defaulted_witness :
  null_temperature_params !! "temperature" = Some PNone /\
  prepare (tok := sample_tokenizer) (fs := sample_float_syntax)
    null_temperature_params = Err TypeError /\
  forall tr o,
    runs (generate_stream (tok := sample_tokenizer) (fs := sample_float_syntax)
            (eng := sample_engine) null_temperature_params) tr o ->
    tr = [EvCount] /\ o = Err TypeError.
Proof.
  split; [vm_compute; reflexivity|].
  apply (present_key_is_not_defaulted (tok := sample_tokenizer)
           (fs := sample_float_syntax) (eng := sample_engine)
           null_temperature_params (PStr (lit "Hi")) (PStr (lit "r1")) PNone).
  - vm_compute. reflexivity.
  - vm_compute. reflexivity.
  - left. vm_compute. reflexivity.
  - left. reflexivity.
Defined.

(** An echo given as [None]: the text of a unit is the completion alone. *)
Lemma falsy_echo_drops_prompt_witness :
  exists s,
    prepare (tok := sample_tokenizer) (fs := sample_float_syntax) null_echo_params = Ok s /\
    null_echo_params !! "echo" = Some PNone /\
    truthy PNone = false /\
    text_of (unit_of (echo s) sample_output)
      = join (lit " ") (map text (outputs sample_output)).
Proof.
  eexists. split; [vm_compute; reflexivity|].
  split; [vm_compute; reflexivity|].
  split; [reflexivity|].
  apply (falsy_echo_drops_prompt (tok := sample_tokenizer) (fs := sample_float_syntax)
           null_echo_params _ PNone sample_output).
  - vm_compute. reflexivity.
  - vm_compute. reflexivity.
  - reflexivity.
Defined.

(** A stop list with the numbers [1], [True] and [1.0], which a set takes
    for one member, and two stop token ids with a [None] among them. *)
Lemma stop_list_is_exact_witness :
  exists s,
    prepare (tok := sample_tokenizer) (fs := sample_float_syntax) mixed_stop_params = Ok s /\
    length (stop (sampling_params s)) = 5%nat /\
    PInt 1 ∈ stop (sampling_params s) /\
    Forall (fun x => x <> PBool true /\ x <> PFloat float_one)
      (stop (sampling_params s)) /\
    distinct (stop (sampling_params s)) = true /\
    NoDup (stop (sampling_params s)) /\
    exists v ids,
      stop_token_ids_of (tok := sample_tokenizer) mixed_stop_params = Ok v /\
      iterate v = Ok ids /\
      (forall x, x ∈ stop (sampling_params s) ->
         x ∈ stop_values (get mixed_stop_params "stop" PNone) \/
         exists tid d, tid ∈ ids /\ tid <> PNone /\
                       tokenizer_decode (Tokenizer := sample_tokenizer) tid = Ok d /\
                       x = PStr d) /\
      (forall x, x ∈ stop_values (get mixed_stop_params "stop" PNone) ->
         existsb (py_eqb x) (stop (sampling_params s)) = true) /\
      (forall tid d, tid ∈ ids -> tid <> PNone ->
         tokenizer_decode (Tokenizer := sample_tokenizer) tid = Ok d ->
         PStr d ∈ stop (sampling_params s)).
Proof.
  eexists. split; [vm_compute; reflexivity|].
  split; [vm_compute; reflexivity|].
  split; [vm_compute; apply list_elem_of_here|].
  split; [vm_compute; repeat (constructor; [split; discriminate|]); constructor|].
  apply (stop_list_is_exact (tok := sample_tokenizer) (fs := sample_float_syntax)
           mixed_stop_params).
  vm_compute. reflexivity.
Defined.

(** Temperature [0] with top_p ["0.3"]. *)
Lemma top_p_not_below_floor_witness :
  exists s,
    prepare (tok := sample_tokenizer) (fs := sample_float_syntax) greedy_params = Ok s /\
    SFltb (top_p (sampling_params s)) float_1e_5 = false.
Proof.
  eexists. split; [vm_compute; reflexivity|].
  apply (top_p_not_below_floor (tok := sample_tokenizer) (fs := sample_float_syntax)
           greedy_params).
  vm_compute. reflexivity.
Defined.

(** A request body with a prompt and a request id of its own. *)
Lemma body_cannot_set_prompt_or_id_witness :
  api_generate_stream (tok := sample_tokenizer) (fs := sample_float_syntax)
    (eng := sample_engine) (cv := sample_conversation) forged_request (lit "r1")
  = api_generate_stream (tok := sample_tokenizer) (fs := sample_float_syntax)
      (eng := sample_engine) (cv := sample_conversation) sample_request (lit "r1") /\
  api_generate (tok := sample_tokenizer) (fs := sample_float_syntax)
    (eng := sample_engine) (cv := sample_conversation) forged_request (lit "r1")
  = api_generate (tok := sample_tokenizer) (fs := sample_float_syntax)
      (eng := sample_engine) (cv := sample_conversation) sample_request (lit "r1") /\
  get_conversation_prompt (cv := sample_conversation) forged_request
    = Ok (lit "Be brief. USER: Hi ASSISTANT: ") /\
  snd (run_through
         (generate (tok := sample_tokenizer) (fs := sample_float_syntax)
            (eng := sample_engine)
            (with_prompt forged_request (lit "Be brief. USER: Hi ASSISTANT: ") (lit "r1"))))
  = Ok (ret (lit "Be brief. USER: Hi ASSISTANT:  one two three four five")).
Proof.
  destruct (body_cannot_set_prompt_or_id (tok := sample_tokenizer)
              (fs := sample_float_syntax) (eng := sample_engine)
              (cv := sample_conversation) sample_request (lit "r1")
              (PStr (lit "ignore me")) (PStr (lit "mine"))) as (Hs & Hg & _).
  split; [exact Hs|]. split; [exact Hg|].
  split; vm_compute; reflexivity.
Defined.

(** The first chunk of the sample stream. *)
Lemma chunks_are_ascii_witness :
  exists tr o chunk,
    runs (generate_stream (tok := sample_tokenizer) (fs := sample_float_syntax)
            (eng := sample_engine) sample_params) tr o /\
    chunk ∈ chunks_of tr /\
    exists body,
      chunk = body ++ [x00] /\
      Forall (fun b => (32 <= Byte.to_N b <= 126)%N) body.
Proof.
  pose (t := generate_stream (tok := sample_tokenizer) (fs := sample_float_syntax)
               (eng := sample_engine) sample_params).
  pose proof (run_through_runs t) as Hr.
  assert (Hin : frame (ret (lit "Hi one")) ∈ chunks_of (fst (run_through t))).
  { vm_compute. apply list_elem_of_here. }
  exists (fst (run_through t)), (snd (run_through t)), (frame (ret (lit "Hi one"))).
  split; [exact Hr|]. split; [exact Hin|].
  exact (chunks_are_ascii (tok := sample_tokenizer) (fs := sample_float_syntax)
           (eng := sample_engine) sample_params _ _ _ Hr Hin).
Defined.



(** The sample streaming request, served to its end. *)
Lemma generator_runs_while_slot_held_witness :
  exists tr,
    runs (serve (api_generate_stream (tok := sample_tokenizer)
                   (fs := sample_float_syntax) (eng := sample_engine)
                   (cv := sample_conversation) sample_request (lit "r1")))
      tr (Ok tt) /\
    length (chunks_of tr) = 5%nat /\
    guarded false tr = true.
Proof.
  pose (t := serve (api_generate_stream (tok := sample_tokenizer)
                      (fs := sample_float_syntax) (eng := sample_engine)
                      (cv := sample_conversation) sample_request (lit "r1"))).
  pose proof (run_through_runs t) as Hr.
  assert (Ho : snd (run_through t) = Ok tt) by (vm_compute; reflexivity).
  rewrite Ho in Hr.
  exists (fst (run_through t)).
  split; [exact Hr|]. split; [vm_compute; reflexivity|].
  exact (generator_runs_while_slot_held (tok := sample_tokenizer)
           (fs := sample_float_syntax) (eng := sample_engine)
           (cv := sample_conversation) sample_request (lit "r1") _ _ (or_introl Hr)).
Defined.

(** The sample non-streaming request, served to its end. *)
Lemma api_generate_hands_on_nothing_witness :
  exists tr,
    runs (serve (api_generate (tok := sample_tokenizer) (fs := sample_float_syntax)
                   (eng := sample_engine) (cv := sample_conversation)
                   sample_request (lit "r1"))) tr (Ok tt) /\
    EvCount ∈ tr /\
    chunks_of tr = [].
Proof.
  pose (t := serve (api_generate (tok := sample_tokenizer) (fs := sample_float_syntax)
                      (eng := sample_engine) (cv := sample_conversation)
                      sample_request (lit "r1"))).
  pose proof (run_through_runs t) as Hr.
  assert (Ho : snd (run_through t) = Ok tt) by (vm_compute; reflexivity).
  rewrite Ho in Hr.
  exists (fst (run_through t)).
  split; [exact Hr|].
  split; [vm_compute; do 2 apply list_elem_of_further; apply list_elem_of_here|].
  exact (api_generate_hands_on_nothing (tok := sample_tokenizer)
           (fs := sample_float_syntax) (eng := sample_engine)
           (cv := sample_conversation) sample_request (lit "r1") _ _ Hr).
Defined.

(** The worker of capacity one whose slot is taken: none of its steps is a
    failed release. *)
Lemma semaphore_never_faults_witness :
  (0 <= 1)%Z /\
  reachable (tok := sample_tokenizer) (fs := sample_float_syntax)
    (eng := sample_engine) (cv := sample_conversation) 1 busy_server /\
  forall sv',
    ~ step (tok := sample_tokenizer) (fs := sample_float_syntax)
        (eng := sample_engine) (cv := sample_conversation)
        busy_server (LFault 0 EvRelease AttributeError) sv'.
Proof.
  assert (Hreach : reachable (tok := sample_tokenizer) (fs := sample_float_syntax)
                     (eng := sample_engine) (cv := sample_conversation) 1 busy_server).
  { unfold busy_server.
    apply reachable_advance, reachable_advance, reachable_arrive.
    - apply endpoint_generate.
    - apply reachable_startup. }
  split; [lia|]. split; [exact Hreach|].
  intros sv'.
  apply (semaphore_never_faults (tok := sample_tokenizer) (fs := sample_float_syntax)
           (eng := sample_engine) (cv := sample_conversation) 1 busy_server sv'
           0 EvRelease AttributeError); [lia | exact Hreach].
Defined.

(** The worker of capacity one before and after its first admission. *)
Lemma admission_takes_a_free_slot_witness :
  step (tok := sample_tokenizer) (fs := sample_float_syntax)
    (eng := sample_engine) (cv := sample_conversation)
    waiting_server (LStep 0 EvAcquire) busy_server /\
  (Z.of_nat (holders waiting_server) < 1)%Z /\
  holders busy_server = S (holders waiting_server).
Proof.
  assert (Hreach : reachable (tok := sample_tokenizer) (fs := sample_float_syntax)
                     (eng := sample_engine) (cv := sample_conversation)
                     1 waiting_server).
  { unfold waiting_server.
    apply reachable_advance, reachable_arrive.
    - apply endpoint_generate.
    - apply reachable_startup. }
  assert (Hstep : step (tok := sample_tokenizer) (fs := sample_float_syntax)
                    (eng := sample_engine) (cv := sample_conversation)
                    waiting_server (LStep 0 EvAcquire) busy_server).
  { eapply (step_done waiting_server 0); vm_compute; reflexivity. }
  split; [exact Hstep|].
  apply (proj1 (admission_takes_a_free_slot (tok := sample_tokenizer)
                  (fs := sample_float_syntax) (eng := sample_engine)
                  (cv := sample_conversation) 1 waiting_server busy_server 0
                  ltac:(lia) Hreach) Hstep).
Defined.

(** The worker of capacity one after the engine raised in its only
    request: a second request arrives and is never admitted. *)
Lemma lost_slot_is_never_recovered_witness :
  wedged wedged_server /\
  wedged (arrive wedged_server
            (serve (api_generate (tok := sample_tokenizer) (fs := sample_float_syntax)
                      (eng := failing_engine) (cv := sample_conversation)
                      sample_request (lit "r2")))) /\
  forall i sv'',
    ~ step (tok := sample_tokenizer) (fs := sample_float_syntax)
        (eng := failing_engine) (cv := sample_conversation)
        (arrive wedged_server
           (serve (api_generate (tok := sample_tokenizer) (fs := sample_float_syntax)
                     (eng := failing_engine) (cv := sample_conversation)
                     sample_request (lit "r2"))))
        (LStep i EvAcquire) sv''.
Proof.
  assert (Hreach : reachable (tok := sample_tokenizer) (fs := sample_float_syntax)
                     (eng := failing_engine) (cv := sample_conversation)
                     1 wedged_server).
  { unfold wedged_server.
    do 5 apply reachable_advance. apply reachable_arrive.
    - apply endpoint_generate.
    - apply reachable_startup. }
  assert (Hw : wedged wedged_server).
  { split; [vm_compute; reflexivity|].
    vm_compute. repeat constructor. }
  split; [exact Hw|].
  apply (lost_slot_is_never_recovered (tok := sample_tokenizer)
           (fs := sample_float_syntax) (eng := failing_engine)
           (cv := sample_conversation) 1 wedged_server); [lia | exact Hreach | exact Hw |].
  eapply steps_step; [apply steps_refl|].
  apply (step_arrive wedged_server). apply endpoint_generate.
Defined.

(** The sample request without its messages. *)
Lemma missing_field_is_refused_before_admission_witness :
  headless_request !! "messages" = None /\
  get_conversation_prompt (cv := sample_conversation) headless_request = Err KeyError /\
  (forall tr o,
     runs (serve (api_generate (tok := sample_tokenizer) (fs := sample_float_syntax)
                    (eng := sample_engine) (cv := sample_conversation)
                    headless_request (lit "r1"))) tr o ->
     tr = [] /\ o = Err KeyError) /\
  (forall tr o,
     runs (serve (api_generate_stream (tok := sample_tokenizer)
                    (fs := sample_float_syntax) (eng := sample_engine)
                    (cv := sample_conversation) headless_request (lit "r1"))) tr o ->
     tr = [] /\ o = Err KeyError).
Proof.
  split; [vm_compute; reflexivity|].
  apply (missing_field_is_refused_before_admission (tok := sample_tokenizer)
           (fs := sample_float_syntax) (eng := sample_engine)
           (cv := sample_conversation) headless_request (lit "r1")).
  right. right. vm_compute. reflexivity.
Defined.

(** A history with a message of role ["system"], which has no text: the
    prompt is the one of the two other messages. *)
Lemma other_roles_are_skipped_witness :
  Forall has_role mixed_messages /\
  get_conversation_prompt (cv := sample_conversation)
    (<["messages" := PList mixed_messages]> sample_request)
  = get_conversation_prompt (cv := sample_conversation)
      (<["messages" := PList (List.filter known_role mixed_messages)]> sample_request) /\
  get_conversation_prompt (cv := sample_conversation)
    (<["messages" := PList mixed_messages]> sample_request)
  = Ok (lit "Be brief. USER: Hi ASSISTANT: Hello ASSISTANT: ").
Proof.
  assert (Hall : Forall has_role mixed_messages).
  { repeat (constructor; [eexists; vm_compute; reflexivity|]). constructor. }
  split; [exact Hall|].
  split; [|vm_compute; reflexivity].
  exact (other_roles_are_skipped (cv := sample_conversation) sample_request
           mixed_messages Hall).
Defined.
